(** * HighScore leaderboard API: ranking, statistics, credentials, validation

    A shallow embedding of the request handlers of [app/routes.py], the
    credential functions of [app/security.py], the request schemas of
    [app/schemas.py] and the two tables of [app/models.py], followed by the
    properties of the specification that concern them.

    Conventions of the embedding.
    - A Python [str] is the list of its Unicode code points ([list N]).
    - A [datetime] is an integer number of microseconds counted from a
      midnight; [datetime.utcnow()] is an explicit argument [now].
    - A Python [float] is an IEEE 754 binary64 value ([spec_float]).
    - The database session is a record holding the rows of the two tables in
      insertion order; a handler that writes returns the new database.
    - Library routines whose tables or algorithms are not part of the
      repository (the Unicode alphanumeric table behind [\w], PBKDF2 of
      [hashlib], [json.dumps]) are the fields of the class [Runtime]. *)

From Stdlib Require Import String Ascii.
From Stdlib Require Import ZArith NArith List Bool Lia.
From Stdlib Require Import Permutation Sorted.
From Stdlib Require Import Floats.SpecFloat.
Import ListNotations.
Open Scope Z_scope.

(** ** Python strings *)

Definition str : Type := list N.

Definition pystr (s : string) : str :=
  map N_of_ascii (list_ascii_of_string s).
Arguments pystr s%_string.

Definition str_eq_dec : forall a b : str, {a = b} + {a <> b} :=
  list_eq_dec N.eq_dec.

Definition str_eqb (a b : str) : bool :=
  if str_eq_dec a b then true else false.

(** [len(s)] *)
Definition len {A : Type} (l : list A) : Z := Z.of_nat (length l).

(** [Py_UNICODE_ISSPACE]: the predicate behind [str.strip()] and [\s]. *)
Definition py_isspace (c : N) : bool :=
  ((9 <=? c) && (c <=? 13) || (28 <=? c) && (c <=? 32)
   || (c =? 133) || (c =? 160) || (c =? 5760)
   || (8192 <=? c) && (c <=? 8202)
   || (c =? 8232) || (c =? 8233) || (c =? 8239) || (c =? 8287)
   || (c =? 12288))%N.

Fixpoint lstrip (v : str) : str :=
  match v with
  | [] => []
  | c :: v' => if py_isspace c then lstrip v' else v
  end.

Definition rstrip (v : str) : str := rev (lstrip (rev v)).

(** [v.strip()] *)
Definition strip (v : str) : str := rstrip (lstrip v).

(** ** The library routines the handlers rely on *)

(** JSON values carried by [game_metadata] ([Dict[str, Any]]). *)
#[warnings="-register-all"]
Inductive Json : Type :=
| JNull
| JBool (b : bool)
| JInt (z : Z)
| JStr (s : str)
| JList (l : list Json)
| JDict (d : list (str * Json)).

Class Runtime : Type := {
  (** [Py_UNICODE_ISALNUM] on the code points from 128 on. *)
  unicode_isalnum : N -> bool;
  (** [hashlib.pbkdf2_hmac('sha256', password, salt, iterations)], on bytes. *)
  pbkdf2_hmac_sha256 : list N -> list N -> Z -> list N;
  (** [json.dumps] of a metadata dictionary. *)
  json_dumps : list (str * Json) -> str
}.

Section Regex.
Context {R : Runtime}.

Definition py_isalnum (c : N) : bool :=
  (if c <? 128
   then (48 <=? c) && (c <=? 57) || (65 <=? c) && (c <=? 90)
        || (97 <=? c) && (c <=? 122)
   else unicode_isalnum c)%N.

(** [\w] of a [str] pattern: alphanumeric or underscore. *)
Definition re_word (c : N) : bool := (py_isalnum c || (c =? 95))%N.

(** [\s] *)
Definition re_space (c : N) : bool := py_isspace c.

(** After the first character of [[cls]+$]: more characters of the class,
    then [$], which holds at the end of the string and also just before a
    newline that ends the string. *)
Fixpoint re_plus_dollar (cls : N -> bool) (v : str) : bool :=
  match v with
  | [] => true
  | c :: v' =>
      match v' with
      | [] => cls c || (c =? 10)%N
      | _ :: _ => cls c && re_plus_dollar cls v'
      end
  end.

(** [re.match(r'^[cls]+$', v)] as a truth value. *)
Definition re_match_class (cls : N -> bool) (v : str) : bool :=
  match v with
  | [] => false
  | c :: v' => cls c && re_plus_dollar cls v'
  end.

(** The class [[\w\s\-._@]] of [validate_player_name]. *)
Definition player_name_class (c : N) : bool :=
  (re_word c || re_space c || (c =? 45) || (c =? 46) || (c =? 95)
   || (c =? 64))%N.

(** The class [[\w\-_]] of [validate_metadata]. *)
Definition metadata_key_class (c : N) : bool :=
  (re_word c || (c =? 45) || (c =? 95))%N.
End Regex.

(** ** Python floats: [int / int] and [round(x, ndigits)] *)

Module PyFloat.
Definition prec : Z := 53.
Definition emax : Z := 1024.

Definition float : Type := spec_float.

(** The binary64 value nearest to [a / b] for [0 <= a] and [0 < b], with
    the sign [neg]: the quotient is taken with at least 56 significant
    bits and a sticky bit, then rounded to nearest, ties to even. *)
Definition of_ratio (neg : bool) (a b : Z) : float :=
  if a =? 0 then S754_zero neg
  else
    let s := Z.max 0 (Z.log2 b + 56 - Z.log2 a) in
    let n := a * 2 ^ s in
    let m := 2 * (n / b) + (if n mod b =? 0 then 0 else 1) in
    binary_normalize prec emax (if neg then - m else m) (- (s + 1)) neg.

(** [a / b] on Python integers: the correctly rounded quotient;
    [None] stands for [ZeroDivisionError]. *)
Definition int_truediv (a b : Z) : option float :=
  if b =? 0 then None
  else Some (of_ratio (negb (Z.sgn a * Z.sgn b =? 1) && negb (a =? 0))
                      (Z.abs a) (Z.abs b)).

(** The integer nearest to [n / d] for [0 < d], ties to even. *)
Definition round_half_even (n d : Z) : Z :=
  let q := n / d in
  match 2 * (n mod d) ?= d with
  | Lt => q
  | Gt => q + 1
  | Eq => if Z.even q then q else q + 1
  end.

(** [round(x, ndigits)] for [0 <= ndigits]: the exact value of [x] is
    rounded to [ndigits] decimals, ties to even, and the decimal result is
    converted back to the nearest binary64 value. *)
Definition round (x : float) (ndigits : Z) : float :=
  match x with
  | S754_finite s m e =>
      let p := 10 ^ ndigits in
      let k := if 0 <=? e then Zpos m * 2 ^ e * p
               else round_half_even (Zpos m * p) (2 ^ (- e)) in
      of_ratio s k p
  | _ => x
  end.

End PyFloat.

(** ** [app/config.py]: the default settings *)

Module settings.
Definition max_player_name_length : Z := 50.
Definition max_game_name_length : Z := 100.
Definition max_description_length : Z := 500.
Definition max_score_value : Z := 999999999.
Definition max_metadata_size : Z := 10240.
End settings.

(** ** [app/models.py]: the two tables *)

Definition datetime : Type := Z.
Definition dict : Type := list (str * Json).

Module Game.
Record t : Type := {
  id : Z;
  name : str;
  description : option str;
  api_key_hash : str;
  created_at : datetime
}.
End Game.

Module Score.
Record t : Type := {
  id : Z;
  game_id : Z;
  player_name : str;
  score : Z;
  game_metadata : option dict;
  created_at : datetime
}.
End Score.

(** The database behind a [Session]: the rows of [games] and of [scores]. *)
Record Db : Type := {
  games : list Game.t;
  scores : list Score.t
}.

(** What the storage layer raises; [exc_str e] is [str(e)]. *)
Inductive Exception : Type :=
| IntegrityError (msg : str)
| OperationalError (msg : str)
| ZeroDivisionError (msg : str).

Definition exc_str (e : Exception) : str :=
  match e with
  | IntegrityError msg => pystr "(sqlite3.IntegrityError) " ++ msg
  | OperationalError msg => pystr "(sqlite3.OperationalError) " ++ msg
  | ZeroDivisionError msg => msg
  end.

(** [max(l)] and [min(l)] of the non-empty list [x :: xs]. *)
Definition py_max (x : Z) (xs : list Z) : Z := fold_left Z.max xs x.
Definition py_min (x : Z) (xs : list Z) : Z := fold_left Z.min xs x.

(** [sum(l)] *)
Definition py_sum (l : list Z) : Z := fold_left Z.add l 0.

(** The integer primary key given to a new row: one more than the largest
    key in the table. *)
Definition next_id (ids : list Z) : Z := py_max 0 ids + 1.

(** ** [app/schemas.py]: request and response models *)

(** A validator returns its value or raises [ValueError]. *)
Inductive checked (A : Type) : Type :=
| Valid (a : A)
| ValueError (msg : str).
Arguments Valid {A} a.
Arguments ValueError {A} msg.

Definition errors_of {A : Type} (c : checked A) : list str :=
  match c with
  | Valid _ => []
  | ValueError msg => [msg]
  end.

(** [Field(..., min_length=lo, max_length=hi)] on a string. *)
Definition Field_length (lo hi : Z) (v : str) : checked str :=
  if len v <? lo then ValueError (pystr "string_too_short")
  else if hi <? len v then ValueError (pystr "string_too_long")
  else Valid v.

(** [Field(..., ge=lo, le=hi)] on an integer. *)
Definition Field_range (lo hi : Z) (v : Z) : checked Z :=
  if v <? lo then ValueError (pystr "greater_than_equal")
  else if hi <? v then ValueError (pystr "less_than_equal")
  else Valid v.

Definition and_then {A B : Type} (c : checked A) (f : A -> checked B)
  : checked B :=
  match c with
  | Valid a => f a
  | ValueError msg => ValueError msg
  end.

Module GameCreate.
Record t : Type := {
  name : str;
  description : option str
}.
End GameCreate.

Module GameResponse.
Record t : Type := {
  id : Z;
  name : str;
  description : option str;
  api_key : str;
  created_at : datetime
}.
End GameResponse.

Module GameInfo.
Record t : Type := {
  id : Z;
  name : str;
  description : option str;
  created_at : datetime
}.
End GameInfo.

Module ScoreCreate.
(** The fields of a submission, before and after validation. *)
Record t : Type := {
  player_name : str;
  score : Z;
  game_metadata : option dict
}.

Section Validators.
Context {R : Runtime}.

Definition validate_player_name (v : str) : checked str :=
  let v := strip v in
  match v with
  | [] => ValueError (pystr "Player name cannot be empty or whitespace only")
  | _ :: _ =>
      if negb (re_match_class player_name_class v)
      then ValueError (pystr "Player name contains invalid characters. Allowed: letters, numbers, spaces, -, _, ., @")
      else Valid v
  end.

(** The loop over [v.keys()]: the first key that fails raises. *)
Fixpoint validate_keys (keys : list str) : checked unit :=
  match keys with
  | [] => Valid tt
  | key :: keys' =>
      if negb (re_match_class metadata_key_class key)
      then ValueError (pystr "Invalid metadata key: " ++ key
                       ++ pystr ". Only alphanumeric, -, _ allowed")
      else validate_keys keys'
  end.

Definition validate_metadata (v : option dict) : checked (option dict) :=
  match v with
  | None => Valid None
  | Some d =>
      let metadata_str := json_dumps d in
      if settings.max_metadata_size <? len metadata_str
      then ValueError (pystr "Metadata too large. Maximum size is 10240 bytes")
      else and_then (validate_keys (map fst d)) (fun _ => Valid v)
  end.

(** Validation of the three fields of a request body. *)
Definition check_player_name (v : str) : checked str :=
  and_then (Field_length 1 settings.max_player_name_length v)
           validate_player_name.

Definition check_score (v : Z) : checked Z :=
  Field_range 0 settings.max_score_value v.

(** Building a [ScoreCreate] from a request body: every field is
    validated and the errors of all fields are reported together. *)
Definition model_validate (body : t) : list str + t :=
  match check_player_name (player_name body),
        check_score (score body),
        validate_metadata (game_metadata body) with
  | Valid n, Valid s, Valid m =>
      inr {| player_name := n; score := s; game_metadata := m |}
  | cn, cs, cm => inl (errors_of cn ++ errors_of cs ++ errors_of cm)
  end.
End Validators.
End ScoreCreate.

Module ScoreResponse.
Record t : Type := {
  id : Z;
  game_id : Z;
  player_name : str;
  score : Z;
  game_metadata : option dict;
  created_at : datetime
}.
End ScoreResponse.

Module LeaderboardEntry.
Record t : Type := {
  rank : Z;
  player_name : str;
  score : Z;
  created_at : datetime
}.
End LeaderboardEntry.

Module LeaderboardResponse.
Record t : Type := {
  game_id : Z;
  game_name : str;
  entries : list LeaderboardEntry.t;
  total_entries : Z;
  period : option str
}.
End LeaderboardResponse.

Module PlayerStats.
Record t : Type := {
  player_name : str;
  game_id : Z;
  total_scores : Z;
  best_score : Z;
  average_score : PyFloat.float;
  worst_score : Z;
  rank : option Z;
  first_played : datetime;
  last_played : datetime
}.
End PlayerStats.

(** ** [app/security.py]: credentials *)

Section Security.
Context {R : Runtime}.

(** [c.encode('utf-8')] for one code point. *)
Definition encode_utf8_char (c : N) : list N :=
  (if c <? 128 then [c]
   else if c <? 2048 then [192 + c / 64; 128 + c mod 64]
   else if c <? 65536
        then [224 + c / 4096; 128 + (c / 64) mod 64; 128 + c mod 64]
        else [240 + c / 262144; 128 + (c / 4096) mod 64;
              128 + (c / 64) mod 64; 128 + c mod 64])%N.

Definition encode_utf8 (s : str) : list N := flat_map encode_utf8_char s.

Definition hex_digit (d : N) : N := (if d <? 10 then 48 + d else 87 + d)%N.

(** [b.hex()] *)
Definition hex (b : list N) : str :=
  flat_map (fun x => [hex_digit (x / 16); hex_digit (x mod 16)]%N) b.

(** [f"game_{secrets.token_urlsafe(32)}"], the random token being given. *)
Definition generate_api_key (token : str) : str := pystr "game_" ++ token.

Definition salt : list N := pystr "highscore_api_salt_2025".

Definition hash_api_key (api_key : str) : str :=
  let hashed := pbkdf2_hmac_sha256 (encode_utf8 api_key) salt 100000 in
  hex hashed.

Definition verify_api_key (plain_key hashed_key : str) : bool :=
  str_eqb (hash_api_key plain_key) hashed_key.

(** The loop of [get_game_by_api_key] over the rows of [games]. *)
Fixpoint first_verified (api_key : str) (games : list Game.t)
  : option Game.t :=
  match games with
  | [] => None
  | game :: games' =>
      if verify_api_key api_key (Game.api_key_hash game) then Some game
      else first_verified api_key games'
  end.

Definition get_game_by_api_key (db : Db) (api_key : str) : option Game.t :=
  first_verified api_key (games db).
End Security.

(** ** [app/routes.py]: the handlers *)

(** What a handler answers: its response model with a status code, the 422
    answer of request validation, an [HTTPException], or a [JSONResponse]
    built by an exception handler. *)
Inductive Response (A : Type) : Type :=
| Ok (status_code : Z) (body : A)
| RequestValidationError (errors : list str)
| HTTPException (status_code : Z) (detail : str)
| JSONResponse (status_code : Z) (content : list (str * str)).
Arguments Ok {A} status_code body.
Arguments RequestValidationError {A} errors.
Arguments HTTPException {A} status_code detail.
Arguments JSONResponse {A} status_code content.

(** [global_exception_handler] of [app/main.py], which answers every
    exception a handler lets through. *)
Definition global_exception_handler {A : Type} (exc : Exception)
  : Response A :=
  JSONResponse 500
    [(pystr "detail",
      pystr "An internal error occurred. Please try again later.");
     (pystr "type", pystr "internal_error")].

(** *** Storage *)

(** [db.add(db_game); db.commit(); db.refresh(db_game)].  The commit raises
    when the storage fails ([fault]) or when the unique constraint on
    [api_key_hash] is violated; nothing is written then. *)
Definition commit_game (db : Db) (now : datetime) (fault : option Exception)
    (name : str) (description : option str) (api_key_hash : str)
  : Exception + Game.t * Db :=
  match fault with
  | Some e => inl e
  | None =>
      if existsb (fun g => str_eqb (Game.api_key_hash g) api_key_hash)
                 (games db)
      then inl (IntegrityError
                  (pystr "UNIQUE constraint failed: games.api_key_hash"))
      else
        let db_game :=
          {| Game.id := next_id (map Game.id (games db));
             Game.name := name;
             Game.description := description;
             Game.api_key_hash := api_key_hash;
             Game.created_at := now |} in
        inr (db_game,
             {| games := games db ++ [db_game]; scores := scores db |})
  end.

(** [db.add(db_score); db.commit(); db.refresh(db_score)]. *)
Definition commit_score (db : Db) (now : datetime) (fault : option Exception)
    (game_id : Z) (player_name : str) (score : Z)
    (game_metadata : option dict)
  : Exception + Score.t * Db :=
  match fault with
  | Some e => inl e
  | None =>
      let db_score :=
        {| Score.id := next_id (map Score.id (scores db));
           Score.game_id := game_id;
           Score.player_name := player_name;
           Score.score := score;
           Score.game_metadata := game_metadata;
           Score.created_at := now |} in
      inr (db_score,
           {| games := games db; scores := scores db ++ [db_score] |})
  end.

(** *** Queries on [scores] *)

(** [.filter(Score.game_id == game_id)], followed when a date filter is
    present by [.filter(Score.created_at >= date_filter)]. *)
Definition in_scope (game_id : Z) (date_filter : option datetime)
    (s : Score.t) : bool :=
  (Score.game_id s =? game_id)
  && match date_filter with
     | Some d => d <=? Score.created_at s
     | None => true
     end.

(** A row of the grouped query: [player_name], [max(score)],
    [max(created_at)]. *)
Module Row.
Record t : Type := {
  player_name : str;
  best_score : Z;
  latest_date : datetime
}.
End Row.

(** One more event enters the groups: it updates the group of its player
    or opens a new group. *)
Fixpoint aggregate (s : Score.t) (groups : list Row.t) : list Row.t :=
  match groups with
  | [] =>
      [{| Row.player_name := Score.player_name s;
          Row.best_score := Score.score s;
          Row.latest_date := Score.created_at s |}]
  | g :: groups' =>
      if str_eqb (Row.player_name g) (Score.player_name s)
      then {| Row.player_name := Row.player_name g;
              Row.best_score := Z.max (Row.best_score g) (Score.score s);
              Row.latest_date :=
                Z.max (Row.latest_date g) (Score.created_at s) |}
           :: groups'
      else g :: aggregate s groups'
  end.

(** [.group_by(Score.player_name)] with the two [max] aggregates. *)
Definition group_by_player_name (rows : list Score.t) : list Row.t :=
  fold_left (fun groups s => aggregate s groups) rows [].

Fixpoint insert_desc (r : Row.t) (sorted : list Row.t) : list Row.t :=
  match sorted with
  | [] => [r]
  | r' :: sorted' =>
      if Row.best_score r <? Row.best_score r'
      then r' :: insert_desc r sorted'
      else r :: sorted
  end.

(** [.order_by(desc('best_score'))].  SQL leaves the order of rows with
    equal keys open; here they keep the order of the groups. *)
Definition order_by_desc_best_score (rows : list Row.t) : list Row.t :=
  fold_right insert_desc [] rows.

(** [enumerate(results)], counting from [idx]. *)
Fixpoint enumerate {A : Type} (idx : Z) (l : list A) : list (Z * A) :=
  match l with
  | [] => []
  | x :: l' => (idx, x) :: enumerate (idx + 1) l'
  end.

(** [func.count(func.distinct(Score.player_name))] *)
Definition count_distinct (names : list str) : Z :=
  len (nodup str_eq_dec names).

(** One element of the comprehension that builds [entries]. *)
Definition leaderboard_entry (idx : Z) (result : Row.t) : LeaderboardEntry.t :=
  {| LeaderboardEntry.rank := idx + 1;
     LeaderboardEntry.player_name := Row.player_name result;
     LeaderboardEntry.score := Row.best_score result;
     LeaderboardEntry.created_at := Row.latest_date result |}.

(** *** Time windows *)

Definition microseconds_per_day : Z := 86400000000.

(** [timedelta(days=n)] *)
Definition timedelta (days : Z) : Z := days * microseconds_per_day.

(** [now.replace(hour=0, minute=0, second=0, microsecond=0)] *)
Definition replace_midnight (now : datetime) : datetime :=
  now - now mod microseconds_per_day.

Definition get_date_filter (now : datetime) (period : option str)
  : option datetime :=
  match period with
  | None | Some [] => None
  | Some period =>
      if str_eqb period (pystr "today") then Some (replace_midnight now)
      else if str_eqb period (pystr "week") then Some (now - timedelta 7)
      else if str_eqb period (pystr "month") then Some (now - timedelta 30)
      else if str_eqb period (pystr "year") then Some (now - timedelta 365)
      else None
  end.

(** *** Handlers *)

Section Routes.
Context {R : Runtime}.

Definition unauthorized {A : Type} : Response A :=
  HTTPException 401 (pystr "Invalid API key").

(** [POST /games].  [token] is the value drawn by [secrets]; [fault] is the
    failure of the storage on commit, if any. *)
Definition create_game (db : Db) (now : datetime) (token : str)
    (fault : option Exception) (game : GameCreate.t)
  : Response GameResponse.t * Db :=
  let api_key := generate_api_key token in
  let api_key_hash := hash_api_key api_key in
  match commit_game db now fault (GameCreate.name game)
                    (GameCreate.description game) api_key_hash with
  | inr (db_game, db') =>
      (Ok 201 {| GameResponse.id := Game.id db_game;
                 GameResponse.name := Game.name db_game;
                 GameResponse.description := Game.description db_game;
                 GameResponse.api_key := api_key;
                 GameResponse.created_at := Game.created_at db_game |},
       db')
  | inl e =>
      (HTTPException 500 (pystr "Failed to create game: " ++ exc_str e),
       db)
  end.

(** [GET /games/me] *)
Definition get_current_game (db : Db) (api_key : str)
  : Response GameInfo.t :=
  match get_game_by_api_key db api_key with
  | None => unauthorized
  | Some game =>
      Ok 200 {| GameInfo.id := Game.id game;
                GameInfo.name := Game.name game;
                GameInfo.description := Game.description game;
                GameInfo.created_at := Game.created_at game |}
  end.

(** [POST /scores], the body of the handler: [score_data] is validated. *)
Definition submit_score (db : Db) (now : datetime)
    (fault : option Exception) (score_data : ScoreCreate.t)
    (api_key : str)
  : Response ScoreResponse.t * Db :=
  match get_game_by_api_key db api_key with
  | None => (unauthorized, db)
  | Some game =>
      match commit_score db now fault (Game.id game)
              (ScoreCreate.player_name score_data)
              (ScoreCreate.score score_data)
              (ScoreCreate.game_metadata score_data) with
      | inr (db_score, db') =>
          (Ok 201 {| ScoreResponse.id := Score.id db_score;
                     ScoreResponse.game_id := Score.game_id db_score;
                     ScoreResponse.player_name :=
                       Score.player_name db_score;
                     ScoreResponse.score := Score.score db_score;
                     ScoreResponse.game_metadata :=
                       Score.game_metadata db_score;
                     ScoreResponse.created_at :=
                       Score.created_at db_score |},
           db')
      | inl e => (global_exception_handler e, db)
      end
  end.

(** [POST /scores] as served: the body is validated first. *)
Definition post_scores (db : Db) (now : datetime)
    (fault : option Exception) (body : ScoreCreate.t) (api_key : str)
  : Response ScoreResponse.t * Db :=
  match ScoreCreate.model_validate body with
  | inl errors => (RequestValidationError errors, db)
  | inr score_data => submit_score db now fault score_data api_key
  end.

(** [GET /leaderboard], the body of the handler. *)
Definition get_leaderboard (db : Db) (now : datetime) (limit : Z)
    (period : option str) (api_key : str)
  : Response LeaderboardResponse.t :=
  match get_game_by_api_key db api_key with
  | None => unauthorized
  | Some game =>
      let date_filter := get_date_filter now period in
      let query := filter (in_scope (Game.id game) date_filter) (scores db) in
      let results :=
        firstn (Z.to_nat limit)
               (order_by_desc_best_score (group_by_player_name query)) in
      let entries :=
        map (fun '(idx, result) => leaderboard_entry idx result)
            (enumerate 0 results) in
      let total_entries :=
        count_distinct
          (map Score.player_name
               (filter (in_scope (Game.id game) date_filter) (scores db))) in
      Ok 200 {| LeaderboardResponse.game_id := Game.id game;
                LeaderboardResponse.game_name := Game.name game;
                LeaderboardResponse.entries := entries;
                LeaderboardResponse.total_entries := total_entries;
                LeaderboardResponse.period := period |}
  end.

(** [limit: int = Query(10, ge=1, le=100)] *)
Definition Query_limit (limit : option Z) : checked Z :=
  match limit with
  | None => Valid 10
  | Some v => Field_range 1 100 v
  end.

(** [GET /leaderboard] as served: [limit] is validated first. *)
Definition get_leaderboard_route (db : Db) (now : datetime)
    (limit : option Z) (period : option str) (api_key : str)
  : Response LeaderboardResponse.t :=
  match Query_limit limit with
  | ValueError msg => RequestValidationError [msg]
  | Valid limit => get_leaderboard db now limit period api_key
  end.

(** [GET /players/{player_name}/stats] *)
Definition get_player_stats (db : Db) (player_name : str) (api_key : str)
  : Response PlayerStats.t :=
  match get_game_by_api_key db api_key with
  | None => unauthorized
  | Some game =>
      let player_scores :=
        filter (fun s => (Score.game_id s =? Game.id game)
                         && str_eqb (Score.player_name s) player_name)
               (scores db) in
      match player_scores with
      | [] =>
          HTTPException 404
            (pystr "Player '" ++ player_name ++ pystr "' not found")
      | s0 :: rest =>
          let scores_ := map Score.score player_scores in
          let best_score := py_max (Score.score s0) (map Score.score rest) in
          let worst_score := py_min (Score.score s0) (map Score.score rest) in
          match PyFloat.int_truediv (py_sum scores_) (len scores_) with
          | None =>
              global_exception_handler
                (ZeroDivisionError (pystr "division by zero"))
          | Some average_score =>
              let better_players :=
                count_distinct
                  (map Score.player_name
                     (filter (fun s => Score.score s >? best_score)
                        (filter
                           (fun s =>
                              (Score.game_id s =? Game.id game)
                              && negb (str_eqb (Score.player_name s)
                                               player_name))
                           (scores db)))) in
              let rank := better_players + 1 in
              let first_played :=
                py_min (Score.created_at s0) (map Score.created_at rest) in
              let last_played :=
                py_max (Score.created_at s0) (map Score.created_at rest) in
              Ok 200
                {| PlayerStats.player_name := player_name;
                   PlayerStats.game_id := Game.id game;
                   PlayerStats.total_scores := len player_scores;
                   PlayerStats.best_score := best_score;
                   PlayerStats.average_score :=
                     PyFloat.round average_score 2;
                   PlayerStats.worst_score := worst_score;
                   PlayerStats.rank := Some rank;
                   PlayerStats.first_played := first_played;
                   PlayerStats.last_played := last_played |}
          end
      end
  end.
End Routes.

(** ** A runtime to run the handlers on concrete requests

    Letters beyond ASCII are not needed by the examples; the key derivation
    is replaced by a toy function that keeps the password and its salt
    apart, and [json.dumps] by the concatenation of the keys. *)
Definition demo_runtime : Runtime := {|
  unicode_isalnum := fun _ => false;
  pbkdf2_hmac_sha256 := fun password salt _ => password ++ firstn 1 salt;
  json_dumps := fun d => flat_map (fun kv => fst kv ++ [44%N]) d
|}.

Module Demo.
#[local] Existing Instance demo_runtime.

Definition T : Game.t :=
  {| Game.id := 1; Game.name := pystr "Test Game";
     Game.description := Some (pystr "Automated test");
     Game.api_key_hash := hash_api_key (pystr "game_T");
     Game.created_at := 0 |}.
Definition U : Game.t :=
  {| Game.id := 2; Game.name := pystr "Other Game";
     Game.description := None;
     Game.api_key_hash := hash_api_key (pystr "game_U");
     Game.created_at := 0 |}.

Definition event (id game_id : Z) (player : string) (score : Z)
    (at_ : datetime) : Score.t :=
  {| Score.id := id; Score.game_id := game_id;
     Score.player_name := pystr player; Score.score := score;
     Score.game_metadata := None; Score.created_at := at_ |}.

(** The scenario of the specification, with one event of another tenant. *)
Definition db : Db :=
  {| games := [T; U];
     scores := [event 1 1 "Alice" 1000 10; event 2 1 "Bob" 1500 20;
                event 3 2 "Mallory" 9999 25;
                event 4 1 "Charlie" 900 30; event 5 1 "Alice" 1200 40] |}.

(** The scenario without the event of the other tenant. *)
Definition db_without_mallory : Db :=
  {| games := games db;
     scores := [event 1 1 "Alice" 1000 10; event 2 1 "Bob" 1500 20;
                event 4 1 "Charlie" 900 30;
                event 5 1 "Alice" 1200 40] |}.

End Demo.

(** Two runs from an empty ledger that differ by one submission of the
    other tenant in between. *)
Module Runs.
#[local] Existing Instance demo_runtime.

Definition empty : Db := {| games := [Demo.T; Demo.U]; scores := [] |}.

Definition step (db : Db) (api_key player : string) (score : Z)
    (now : datetime) : Db :=
  snd (post_scores db now None
         {| ScoreCreate.player_name := pystr player;
            ScoreCreate.score := score;
            ScoreCreate.game_metadata := None |}
         (pystr api_key)).

Definition with_other : Db :=
  step (step (step (step empty "game_T" "Alice" 1000 10)
                   "game_T" "Bob" 1500 20)
             "game_U" "Mallory" 9999 25)
       "game_T" "Alice" 1200 40.

Definition alone : Db :=
  step (step (step empty "game_T" "Alice" 1000 10)
             "game_T" "Bob" 1500 20)
       "game_T" "Alice" 1200 40.
End Runs.

(** ** What the specification speaks of *)

(** An event of the ledger qualifies for a tenant and a window. *)
Definition qualifying (db : Db) (game_id : Z) (window : option datetime)
    (s : Score.t) : Prop :=
  In s (scores db)
  /\ Score.game_id s = game_id
  /\ match window with
     | Some start => start <= Score.created_at s
     | None => True
     end.

(** [m] is the largest value of [f] over the events selected by [P]. *)
Definition maximum_over (P : Score.t -> Prop) (f : Score.t -> Z) (m : Z)
  : Prop :=
  (exists s, P s /\ f s = m) /\ (forall s, P s -> f s <= m).

Definition minimum_over (P : Score.t -> Prop) (f : Score.t -> Z) (m : Z)
  : Prop :=
  (exists s, P s /\ f s = m) /\ (forall s, P s -> m <= f s).

(** [players] lists, once each, the players that have an event in [P]. *)
Definition distinct_players (P : Score.t -> Prop) (players : list str)
  : Prop :=
  NoDup players
  /\ forall p, In p players <-> exists s, P s /\ Score.player_name s = p.

(** [m] is the largest (smallest) element of [l]. *)
Definition is_max (m : Z) (l : list Z) : Prop :=
  In m l /\ forall x, In x l -> x <= m.
Definition is_min (m : Z) (l : list Z) : Prop :=
  In m l /\ forall x, In x l -> m <= x.

(** The events of one player among [rows]. *)
Definition events_of (p : str) (rows : list Score.t) : list Score.t :=
  filter (fun s => str_eqb (Score.player_name s) p) rows.

(** A group carries the two maxima of its player's events. *)
Definition summary_of (rows : list Score.t) (g : Row.t) : Prop :=
  is_max (Row.best_score g)
         (map Score.score (events_of (Row.player_name g) rows))
  /\ is_max (Row.latest_date g)
            (map Score.created_at (events_of (Row.player_name g) rows)).

Definition desc_best (a b : Row.t) : Prop :=
  Row.best_score b <= Row.best_score a.

Definition desc_score (a b : LeaderboardEntry.t) : Prop :=
  LeaderboardEntry.score b <= LeaderboardEntry.score a.

Definition ranking (n : nat) (rows : list Score.t) : list LeaderboardEntry.t :=
  map (fun '(idx, result) => leaderboard_entry idx result)
      (enumerate 0
         (firstn n (order_by_desc_best_score (group_by_player_name rows)))).

(** The status code of an answer. *)
Definition status_of {A : Type} (r : Response A) : Z :=
  match r with
  | Ok status_code _ => status_code
  | RequestValidationError _ => 422
  | HTTPException status_code _ => status_code
  | JSONResponse status_code _ => status_code
  end.

(** [round(mean(l), 2)], where the mean is [sum(l) / len(l)]. *)
Definition rounded_mean (l : list Z) : option PyFloat.float :=
  option_map (fun avg => PyFloat.round avg 2)
             (PyFloat.int_truediv (py_sum l) (len l)).

(** *** Correct rounding

    What [sum(scores) / len(scores)] and [round(x, 2)] are specified to
    give, said with integers only. *)

(** [M] is the integer nearest to [n / d], a tie going to the even one. *)
Definition nearest_even (n d M : Z) : Prop :=
  2 * Z.abs (n - M * d) <= d
  /\ (2 * Z.abs (n - M * d) = d -> Z.even M = true).

(** [(n / d) / 2 ^ e] as a fraction of two integers. *)
Definition scale (n d e : Z) : Z * Z :=
  if 0 <=? e then (n, d * 2 ^ e) else (n * 2 ^ (- e), d).

(** [2 ^ 52 <= (n / d) / 2 ^ e < 2 ^ 53]: [e] is the exponent of the
    53-bit significand of [n / d]. *)
Definition binade (n d e : Z) : Prop :=
  2 ^ 52 * snd (scale n d e) <= fst (scale n d e)
  < 2 ^ 53 * snd (scale n d e).

(** The binary64 number [M * 2 ^ e] for [2 ^ 52 <= M <= 2 ^ 53]. *)
Definition finite_of (M e : Z) : spec_float :=
  if M =? 2 ^ 53 then S754_finite false (Z.to_pos (2 ^ 52)) (e + 1)
  else S754_finite false (Z.to_pos M) e.

(** [f] is the normal binary64 number nearest to [n / d], a tie going to
    the even significand, for [0 < n] and [0 < d]. *)
Definition nearest_binary64 (n d : Z) (f : spec_float) : Prop :=
  exists e M,
    -1074 <= e <= 970
    /\ binade n d e
    /\ nearest_even (fst (scale n d e)) (snd (scale n d e)) M
    /\ f = finite_of M e.

(** [f] is the float nearest to [n / d] for [0 <= n]: [0.0] for [n = 0]. *)
Definition float_of_ratio (n d : Z) (f : PyFloat.float) : Prop :=
  (n = 0 -> f = S754_zero false) /\ (0 < n -> nearest_binary64 n d f).

(** [k] is the integer nearest to [100 * x], a tie going to the even one,
    for a float [0 <= x]. *)
Definition hundredths (x : PyFloat.float) (k : Z) : Prop :=
  match x with
  | S754_zero _ => k = 0
  | S754_finite false m e =>
      nearest_even (fst (scale (100 * Zpos m) 1 (- e)))
                   (snd (scale (100 * Zpos m) 1 (- e))) k
  | _ => False
  end.

Definition sum_of (l : list Z) : Z := fold_right Z.add 0 l.

(** [f] is the mean of [l] rounded to two decimals: the float nearest to
    [k / 100], where [k] is the integer nearest to a hundred times the
    float nearest to [sum_of l / len l]. *)
Definition mean_rounded_to_2 (l : list Z) (f : PyFloat.float) : Prop :=
  exists mean k,
    float_of_ratio (sum_of l) (len l) mean
    /\ hundredths mean k
    /\ float_of_ratio k 100 f.

(** The value of a rounding bit. *)
Definition bit (b : bool) : Z := if b then 1 else 0.

(** The events of one player of one tenant, as the handler selects them. *)
Definition player_rows (db : Db) (game_id : Z) (p : str) : list Score.t :=
  filter (fun s => (Score.game_id s =? game_id)
                   && str_eqb (Score.player_name s) p)
         (scores db).

(** The events of a player in the ledger of a tenant. *)
Definition events_of_player (db : Db) (game_id : Z) (p : str) (s : Score.t)
  : Prop :=
  In s (scores db) /\ Score.game_id s = game_id /\ Score.player_name s = p.

(** The events that count against a player's rank. *)
Definition better_events (db : Db) (game_id : Z) (p : str) (best : Z)
    (s : Score.t) : Prop :=
  In s (scores db) /\ Score.game_id s = game_id
  /\ Score.player_name s <> p /\ best < Score.score s.

(** One request to [POST /scores]: the time it is served at, the failure
    of the storage if it fails, the body and the key. *)
Definition submission : Type :=
  datetime * option Exception * ScoreCreate.t * str.

(** A run of requests to [POST /scores], whatever their keys, players and
    outcomes, served one after the other. *)
Fixpoint serve_all {R : Runtime} (db : Db) (requests : list submission)
  : Db :=
  match requests with
  | [] => db
  | (now, fault, body, api_key) :: requests' =>
      serve_all (snd (post_scores db now fault body api_key)) requests'
  end.

(** The score and the time of a stored event. *)
Definition score_and_time (s : Score.t) : Z * datetime :=
  (Score.score s, Score.created_at s).

(** What a request adds to the events of the player [p] of the tenant
    [game_id]: its score and its time when the body is valid and names
    [p], the key is one of that tenant and the storage does not fail;
    nothing otherwise.  Submissions leave [games] as it is, so the key is
    resolved in the database the run starts from. *)
Definition appended_for {R : Runtime} (db : Db) (game_id : Z) (p : str)
    (request : submission) : list (Z * datetime) :=
  let '(now, fault, body, api_key) := request in
  match ScoreCreate.model_validate body,
        get_game_by_api_key db api_key, fault with
  | inr score_data, Some owner, None =>
      if (Game.id owner =? game_id)
         && str_eqb (ScoreCreate.player_name score_data) p
      then [(ScoreCreate.score score_data, now)]
      else []
  | _, _, _ => []
  end.

Definition appended {R : Runtime} (db : Db) (game_id : Z) (p : str)
    (requests : list submission) : list (Z * datetime) :=
  flat_map (appended_for db game_id p) requests.

(** A run on the scenario: two submissions for a player the tenant has not
    seen yet, among a submission of another tenant, one for the same name
    under the other tenant's key, one that the storage fails, an invalid
    body, an unknown key and a submission for another player. *)
Module Mixed.
#[local] Existing Instance demo_runtime.

Definition body (player : string) (score : Z) : ScoreCreate.t :=
  {| ScoreCreate.player_name := pystr player;
     ScoreCreate.score := score;
     ScoreCreate.game_metadata := None |}.

Definition requests : list submission :=
  [(50, None, body "  Dana " 700, pystr "game_T");
   (52, None, body "Mallory" 5, pystr "game_U");
   (54, None, body "Dana" 999, pystr "game_U");
   (55, Some (OperationalError (pystr "database is locked")),
    body "Dana" 650, pystr "game_T");
   (56, None, body "Da!na" 10, pystr "game_T");
   (57, None, body "Dana" 1, pystr "game_X");
   (58, None, body "Bob" 1, pystr "game_T");
   (60, None, body "Dana" 801, pystr "game_T")].

(** 1100.0 and 750.5 as binary64 numbers. *)
Definition f1100 : PyFloat.float :=
  S754_finite false (Z.to_pos (1100 * 2 ^ 42)) (-42).
Definition f750_5 : PyFloat.float :=
  S754_finite false (Z.to_pos (1501 * 2 ^ 42)) (-43).
End Mixed.

(** The player has no event in the tenant's ledger. *)
Definition no_events (db : Db) (game_id : Z) (p : str) : Prop :=
  forall s, In s (scores db) -> Score.game_id s = game_id ->
            Score.player_name s <> p.

(** The unique constraint on [games.api_key_hash]. *)
Definition unique_hashes (db : Db) : Prop :=
  NoDup (map Game.api_key_hash (games db)).

(** What a stored event says, its row id left out. *)
Definition row_content (s : Score.t)
  : Z * str * Z * option dict * datetime :=
  (Score.game_id s, Score.player_name s, Score.score s,
   Score.game_metadata s, Score.created_at s).

Definition same_row (a b : Score.t) : Prop := row_content a = row_content b.

(** The ledger of one tenant. *)
Definition tenant_events (db : Db) (game_id : Z) : list Score.t :=
  filter (fun s => Score.game_id s =? game_id) (scores db).

(** Some character of [v] lies outside the class. *)
Definition has_char_outside (cls : N -> bool) (v : str) : Prop :=
  exists c, In c v /\ cls c = false.

(** The invalid submissions, as the specification lists them. *)
Definition invalid_submission {R : Runtime} (body : ScoreCreate.t) : Prop :=
  strip (ScoreCreate.player_name body) = []
  \/ has_char_outside player_name_class (ScoreCreate.player_name body)
  \/ settings.max_player_name_length < len (ScoreCreate.player_name body)
  \/ ScoreCreate.score body < 0
  \/ settings.max_score_value < ScoreCreate.score body
  \/ exists d,
       ScoreCreate.game_metadata body = Some d
       /\ (settings.max_metadata_size < len (json_dumps d)
           \/ exists key, In key (map fst d)
                          /\ has_char_outside metadata_key_class key).

(** The keys the pattern of [validate_metadata] refuses: the empty key, a
    key with a character outside the class before its last character, and a
    key whose last character is outside the class and is not a newline. *)
Definition refused_key {R : Runtime} (key : str) : Prop :=
  key = []
  \/ has_char_outside metadata_key_class (removelast key)
  \/ exists c, last key c = c /\ In c key
               /\ metadata_key_class c = false /\ c <> 10%N.

(** The invalid submissions with the keys the pattern refuses. *)
Definition refused_submission {R : Runtime} (body : ScoreCreate.t) : Prop :=
  strip (ScoreCreate.player_name body) = []
  \/ has_char_outside player_name_class (ScoreCreate.player_name body)
  \/ settings.max_player_name_length < len (ScoreCreate.player_name body)
  \/ ScoreCreate.score body < 0
  \/ settings.max_score_value < ScoreCreate.score body
  \/ exists d,
       ScoreCreate.game_metadata body = Some d
       /\ (settings.max_metadata_size < len (json_dumps d)
           \/ exists key, In key (map fst d) /\ refused_key key).

(** ** [GameCreate]: the validators of a registration *)

Section GameValidators.
Context {R : Runtime}.

(** The class [[\w\s\-.,!?()]] of [validate_name]. *)
Definition game_name_class (c : N) : bool :=
  (re_word c || re_space c || (c =? 45) || (c =? 46) || (c =? 44)
   || (c =? 33) || (c =? 63) || (c =? 40) || (c =? 41))%N.

(** The class of [validate_description]: the former with the two quotes,
    the colon and the semicolon. *)
Definition description_class (c : N) : bool :=
  (game_name_class c || (c =? 34) || (c =? 39) || (c =? 58) || (c =? 59))%N.

Definition validate_name (v : str) : checked str :=
  let v := strip v in
  match v with
  | [] => ValueError (pystr "Game name cannot be empty or whitespace only")
  | _ :: _ =>
      if negb (re_match_class game_name_class v)
      then ValueError (pystr "Game name contains invalid characters")
      else Valid v
  end.

Definition validate_description (v : option str) : checked (option str) :=
  match v with
  | None => Valid None
  | Some v =>
      let v := strip v in
      match v with
      | [] => Valid (Some v)
      | _ :: _ =>
          if negb (re_match_class description_class v)
          then ValueError (pystr "Description contains invalid characters")
          else Valid (Some v)
      end
  end.

(** The two fields with their [Field] constraints. *)
Definition check_game_name (v : str) : checked str :=
  and_then (Field_length 1 settings.max_game_name_length v) validate_name.

Definition check_description (v : option str) : checked (option str) :=
  match v with
  | None => validate_description None
  | Some d =>
      and_then (Field_length 0 settings.max_description_length d)
               (fun d => validate_description (Some d))
  end.

(** Building a [GameCreate] from a request body. *)
Definition game_create_validate (body : GameCreate.t)
  : list str + GameCreate.t :=
  match check_game_name (GameCreate.name body),
        check_description (GameCreate.description body) with
  | Valid n, Valid d =>
      inr {| GameCreate.name := n; GameCreate.description := d |}
  | cn, cd => inl (errors_of cn ++ errors_of cd)
  end.

(** [POST /games] as served: the body is validated first. *)
Definition post_games (db : Db) (now : datetime) (token : str)
    (fault : option Exception) (body : GameCreate.t)
  : Response GameResponse.t * Db :=
  match game_create_validate body with
  | inl errors => (RequestValidationError errors, db)
  | inr game => create_game db now token fault game
  end.
End GameValidators.

(** ** Invariants of the database *)

(** A stored event as validation lets it through: a trimmed, non-empty name
    of at most 50 allowed characters and a score within bounds. *)
Definition well_formed_event {R : Runtime} (s : Score.t) : Prop :=
  Score.player_name s <> []
  /\ len (Score.player_name s) <= settings.max_player_name_length
  /\ strip (Score.player_name s) = Score.player_name s
  /\ forallb player_name_class (Score.player_name s) = true
  /\ 0 <= Score.score s <= settings.max_score_value.

(** Every event belongs to a stored game. *)
Definition events_owned (db : Db) : Prop :=
  forall s, In s (scores db) ->
            exists g, In g (games db) /\ Game.id g = Score.game_id s.

(** The ledger of [db'] is the ledger of [db] with events added at its end. *)
Definition ledger_extends (db db' : Db) : Prop :=
  exists news, scores db' = scores db ++ news.

(** One window lies within another. *)
Definition window_within (w1 w2 : option datetime) : Prop :=
  match w1, w2 with
  | _, None => True
  | None, Some _ => False
  | Some d1, Some d2 => d2 <= d1
  end.

(** ** Basic facts *)

Lemma str_eqb_true (a b : str) : str_eqb a b = true <-> a = b.
Proof.
  unfold str_eqb. destruct (str_eq_dec a b); split; congruence.
Qed.

Lemma str_eqb_false (a b : str) : str_eqb a b = false <-> a <> b.
Proof.
  unfold str_eqb. destruct (str_eq_dec a b); split; congruence.
Qed.

Lemma str_eqb_refl (a : str) : str_eqb a a = true.
Proof. now apply str_eqb_true. Qed.

Lemma py_max_is_max (xs : list Z) : forall x, is_max (py_max x xs) (x :: xs).
Proof.
  unfold py_max, is_max. induction xs as [|y ys IH]; intros x; simpl.
  - split; [now left | intros z [<-|[]]; lia].
  - destruct (IH (Z.max x y)) as [Hin Hub]. split.
    + destruct Hin as [Heq|Hin]; [|now right; right].
      rewrite <- Heq.
      destruct (Z.max_spec x y) as [[_ E]|[_ E]]; rewrite E; auto.
    + intros z Hz. pose proof (Hub (Z.max x y) (or_introl eq_refl)) as H0.
      destruct Hz as [<-|[<-|Hz]]; [lia | lia | apply Hub; now right].
Qed.

Lemma py_min_is_min (xs : list Z) : forall x, is_min (py_min x xs) (x :: xs).
Proof.
  unfold py_min, is_min. induction xs as [|y ys IH]; intros x; simpl.
  - split; [now left | intros z [<-|[]]; lia].
  - destruct (IH (Z.min x y)) as [Hin Hlb]. split.
    + destruct Hin as [Heq|Hin]; [|now right; right].
      rewrite <- Heq.
      destruct (Z.min_spec x y) as [[_ E]|[_ E]]; rewrite E; auto.
    + intros z Hz. pose proof (Hlb (Z.min x y) (or_introl eq_refl)) as H0.
      destruct Hz as [<-|[<-|Hz]]; [lia | lia | apply Hlb; now right].
Qed.

Lemma is_max_snoc (l : list Z) (m x : Z) :
  is_max m l -> is_max (Z.max m x) (l ++ [x]).
Proof.
  intros [Hin Hub]. split.
  - apply in_or_app.
    destruct (Z.max_spec m x) as [[_ E]|[_ E]]; rewrite E;
      [right; now left | now left].
  - intros y Hy. apply in_app_or in Hy. destruct Hy as [Hy|[<-|[]]].
    + apply Hub in Hy. lia.
    + lia.
Qed.

(** ** The grouped query *)

Lemma events_of_snoc_same (rows : list Score.t) (s : Score.t) :
  events_of (Score.player_name s) (rows ++ [s])
  = events_of (Score.player_name s) rows ++ [s].
Proof.
  unfold events_of. rewrite filter_app. simpl. now rewrite str_eqb_refl.
Qed.

Lemma events_of_snoc_other (rows : list Score.t) (s : Score.t) (p : str) :
  Score.player_name s <> p ->
  events_of p (rows ++ [s]) = events_of p rows.
Proof.
  intros Hne. unfold events_of. rewrite filter_app. simpl.
  apply str_eqb_false in Hne. rewrite Hne. apply app_nil_r.
Qed.

Lemma In_events_of (p : str) (rows : list Score.t) (s : Score.t) :
  In s (events_of p rows) <-> In s rows /\ Score.player_name s = p.
Proof.
  unfold events_of. rewrite filter_In. now rewrite str_eqb_true.
Qed.

Lemma aggregate_names (s : Score.t) (groups : list Row.t) (p : str) :
  In p (map Row.player_name (aggregate s groups))
  <-> p = Score.player_name s \/ In p (map Row.player_name groups).
Proof.
  induction groups as [|g gs IH]; simpl.
  - intuition.
  - destruct (str_eqb (Row.player_name g) (Score.player_name s)) eqn:E; simpl.
    + apply str_eqb_true in E. intuition congruence.
    + rewrite IH. intuition.
Qed.

Lemma aggregate_NoDup (s : Score.t) (groups : list Row.t) :
  NoDup (map Row.player_name groups) ->
  NoDup (map Row.player_name (aggregate s groups)).
Proof.
  induction groups as [|g gs IH]; simpl; intros Hnd.
  - constructor; [intros [] | constructor].
  - inversion Hnd as [|? ? Hnotin Hnd']; subst.
    destruct (str_eqb (Row.player_name g) (Score.player_name s)) eqn:E; simpl.
    + now constructor.
    + constructor; [|now apply IH].
      rewrite aggregate_names. intros [Heq|Hin]; [|contradiction].
      apply str_eqb_false in E. congruence.
Qed.

Lemma summary_of_snoc_other (rows : list Score.t) (s : Score.t) (g : Row.t) :
  Score.player_name s <> Row.player_name g ->
  summary_of rows g -> summary_of (rows ++ [s]) g.
Proof.
  intros Hne. unfold summary_of.
  now rewrite (events_of_snoc_other rows s (Row.player_name g) Hne).
Qed.

Lemma aggregate_summary (rows : list Score.t) (s : Score.t) :
  forall groups,
    NoDup (map Row.player_name groups) ->
    Forall (summary_of rows) groups ->
    (~ In (Score.player_name s) (map Row.player_name groups) ->
     events_of (Score.player_name s) rows = []) ->
    Forall (summary_of (rows ++ [s])) (aggregate s groups).
Proof.
  induction groups as [|g gs IH]; simpl; intros Hnd Hall Hnew.
  - constructor; [|constructor]. unfold summary_of; simpl.
    rewrite events_of_snoc_same, Hnew by tauto. simpl.
    split; (split; [now left | intros x [<-|[]]; lia]).
  - inversion Hnd as [|? ? Hnotin Hnd']; subst.
    inversion Hall as [|? ? Hg Hgs]; subst.
    destruct (str_eqb (Row.player_name g) (Score.player_name s)) eqn:E.
    + apply str_eqb_true in E. constructor.
      * destruct Hg as [Hb Hl]. unfold summary_of; simpl.
        rewrite E, events_of_snoc_same, !map_app. simpl.
        rewrite E in Hb, Hl. split; now apply is_max_snoc.
      * rewrite Forall_forall in Hgs |- *. intros g' Hg'.
        apply summary_of_snoc_other; [|now apply Hgs].
        intros Heq. apply Hnotin. rewrite E, Heq. now apply in_map.
    + apply str_eqb_false in E. constructor.
      * apply summary_of_snoc_other; [congruence | assumption].
      * apply IH; try assumption. intros Hn. apply Hnew.
        intros [Heq|Hin]; [congruence | contradiction].
Qed.

Lemma group_by_player_name_snoc (rows : list Score.t) (s : Score.t) :
  group_by_player_name (rows ++ [s])
  = aggregate s (group_by_player_name rows).
Proof. unfold group_by_player_name. now rewrite fold_left_app. Qed.

(** The groups: one per player of [rows], each with that player's maxima. *)
Lemma group_by_player_name_spec (rows : list Score.t) :
  NoDup (map Row.player_name (group_by_player_name rows))
  /\ Forall (summary_of rows) (group_by_player_name rows)
  /\ (forall s, In s rows ->
        In (Score.player_name s)
           (map Row.player_name (group_by_player_name rows))).
Proof.
  induction rows as [|s rows IH] using rev_ind.
  - repeat split; [constructor | constructor | intros s []].
  - destruct IH as (Hnd & Hall & Hcov).
    rewrite group_by_player_name_snoc. repeat split.
    + now apply aggregate_NoDup.
    + apply aggregate_summary; try assumption.
      intros Hn. destruct (events_of (Score.player_name s) rows) as [|s' l] eqn:E;
        [reflexivity|].
      exfalso. apply Hn.
      assert (Hs' : In s' (events_of (Score.player_name s) rows))
        by (rewrite E; now left).
      apply In_events_of in Hs'. destruct Hs' as [Hin <-]. now apply Hcov.
    + intros s' Hs'. rewrite aggregate_names. apply in_app_or in Hs'.
      destruct Hs' as [Hs'|[<-|[]]]; [right; now apply Hcov | now left].
Qed.

(** ** Ordering *)

Lemma insert_desc_perm (r : Row.t) (l : list Row.t) :
  Permutation (r :: l) (insert_desc r l).
Proof.
  induction l as [|r' l IH]; simpl; [apply Permutation_refl|].
  destruct (Row.best_score r <? Row.best_score r').
  - eapply perm_trans; [apply perm_swap | now apply perm_skip].
  - apply Permutation_refl.
Qed.

Lemma order_by_desc_perm (l : list Row.t) :
  Permutation l (order_by_desc_best_score l).
Proof.
  induction l as [|r l IH]; simpl; [constructor|].
  eapply perm_trans; [apply perm_skip, IH | apply insert_desc_perm].
Qed.

Lemma insert_desc_sorted (r : Row.t) (l : list Row.t) :
  StronglySorted desc_best l -> StronglySorted desc_best (insert_desc r l).
Proof.
  induction l as [|r' l IH]; simpl; intros Hs.
  - constructor; constructor.
  - inversion Hs as [|? ? Hs' Hall]; subst.
    destruct (Row.best_score r <? Row.best_score r') eqn:E.
    + apply Z.ltb_lt in E. constructor; [now apply IH|].
      rewrite Forall_forall in Hall |- *. intros x Hx.
      apply (Permutation_in _ (Permutation_sym (insert_desc_perm r l))) in Hx.
      destruct Hx as [<-|Hx]; [unfold desc_best; lia | now apply Hall].
    + apply Z.ltb_ge in E. constructor; [assumption|].
      constructor; [exact E|].
      rewrite Forall_forall in Hall |- *. intros x Hx.
      specialize (Hall x Hx). unfold desc_best in *. lia.
Qed.

Lemma order_by_desc_sorted (l : list Row.t) :
  StronglySorted desc_best (order_by_desc_best_score l).
Proof.
  induction l as [|r l IH]; simpl; [constructor|].
  now apply insert_desc_sorted.
Qed.

(** ** Truncation and ranks *)

Lemma firstn_sorted {A : Type} (R : A -> A -> Prop) (l : list A) :
  forall n, StronglySorted R l -> StronglySorted R (firstn n l).
Proof.
  induction l as [|x l IH]; intros [|n] Hs; simpl; try constructor.
  - inversion Hs; subst. now apply IH.
  - inversion Hs as [|? ? _ Hall]; subst.
    rewrite Forall_forall in Hall |- *. intros y Hy.
    apply Hall. rewrite <- (firstn_skipn n l). apply in_or_app. now left.
Qed.

Lemma firstn_NoDup {A : Type} (l : list A) :
  forall n, NoDup l -> NoDup (firstn n l).
Proof.
  induction l as [|x l IH]; intros [|n] Hnd; simpl; try constructor.
  - inversion Hnd as [|? ? Hnotin _]; subst. intros Hin. apply Hnotin.
    rewrite <- (firstn_skipn n l). apply in_or_app. now left.
  - inversion Hnd; subst. now apply IH.
Qed.

Lemma firstn_incl {A : Type} (l : list A) (n : nat) (x : A) :
  In x (firstn n l) -> In x l.
Proof.
  intros Hin. rewrite <- (firstn_skipn n l). apply in_or_app. now left.
Qed.

(** What [LIMIT] leaves out lies below everything it keeps, and something
    is left out only when the limit is reached. *)
Lemma firstn_cut {A : Type} (R : A -> A -> Prop) (l : list A) :
  forall n x,
    StronglySorted R l -> In x l ->
    In x (firstn n l)
    \/ (length (firstn n l) = n /\ forall y, In y (firstn n l) -> R y x).
Proof.
  induction l as [|a l IH]; intros n x Hs Hin; [destruct Hin|].
  destruct n as [|n]; simpl.
  - right. split; [reflexivity | intros y []].
  - inversion Hs as [|? ? Hs' Hall]; subst.
    destruct Hin as [<-|Hin]; [left; now left|].
    destruct (IH n x Hs' Hin) as [Hk|[Hlen Hlow]].
    + left. now right.
    + right. split; [now rewrite Hlen|].
      intros y [<-|Hy]; [|now apply Hlow].
      rewrite Forall_forall in Hall. now apply Hall.
Qed.

Lemma entries_players (results : list Row.t) :
  forall idx,
    map LeaderboardEntry.player_name
        (map (fun '(idx, result) => leaderboard_entry idx result)
             (enumerate idx results))
    = map Row.player_name results.
Proof.
  induction results as [|r l IH]; intros idx; simpl; [reflexivity|].
  now rewrite IH.
Qed.

Lemma entries_rows (results : list Row.t) :
  forall idx e,
    In e (map (fun '(idx, result) => leaderboard_entry idx result)
              (enumerate idx results)) ->
    exists r, In r results
              /\ LeaderboardEntry.player_name e = Row.player_name r
              /\ LeaderboardEntry.score e = Row.best_score r
              /\ LeaderboardEntry.created_at e = Row.latest_date r.
Proof.
  induction results as [|r l IH]; intros idx e; simpl; [intros []|].
  intros [<-|Hin].
  - exists r. simpl. auto.
  - destruct (IH _ _ Hin) as (r' & Hr' & Heq). exists r'. auto.
Qed.

Lemma entries_length (results : list Row.t) :
  forall idx,
    length (map (fun '(idx, result) => leaderboard_entry idx result)
                (enumerate idx results))
    = length results.
Proof.
  induction results as [|r l IH]; intros idx; simpl; [reflexivity|].
  now rewrite IH.
Qed.

Lemma entries_ranks (results : list Row.t) :
  forall idx k e,
    nth_error (map (fun '(idx, result) => leaderboard_entry idx result)
                   (enumerate idx results)) k = Some e ->
    LeaderboardEntry.rank e = idx + Z.of_nat k + 1.
Proof.
  induction results as [|r l IH]; intros idx k e; simpl.
  - destruct k; discriminate.
  - destruct k as [|k]; simpl.
    + intros [= <-]. simpl. lia.
    + intros Hk. rewrite (IH _ _ _ Hk). lia.
Qed.

Lemma entries_sorted (results : list Row.t) :
  forall idx,
    StronglySorted desc_best results ->
    StronglySorted desc_score
      (map (fun '(idx, result) => leaderboard_entry idx result)
           (enumerate idx results)).
Proof.
  induction results as [|r l IH]; intros idx Hs; simpl; [constructor|].
  inversion Hs as [|? ? Hs' Hall]; subst. constructor; [now apply IH|].
  rewrite Forall_forall in Hall |- *. intros e He.
  destruct (entries_rows _ _ _ He) as (r' & Hr' & _ & Hsc & _).
  unfold desc_score. simpl. rewrite Hsc. now apply Hall.
Qed.

(** ** Scope and distinct players *)

Lemma in_scope_qualifying (db : Db) (game_id : Z) (window : option datetime)
    (s : Score.t) :
  In s (filter (in_scope game_id window) (scores db))
  <-> qualifying db game_id window s.
Proof.
  unfold qualifying, in_scope. rewrite filter_In, andb_true_iff, Z.eqb_eq.
  destruct window as [d|]; [rewrite Z.leb_le|]; intuition.
Qed.

Lemma distinct_players_length (P : Score.t -> Prop) (l l' : list str) :
  distinct_players P l -> distinct_players P l' -> length l = length l'.
Proof.
  intros [Hnd Hin] [Hnd' Hin']. apply Permutation_length.
  apply NoDup_Permutation; try assumption.
  intros p. now rewrite Hin, Hin'.
Qed.

Lemma nodup_distinct_players (rows : list Score.t) :
  distinct_players (fun s => In s rows)
                   (nodup str_eq_dec (map Score.player_name rows)).
Proof.
  split; [apply NoDup_nodup|].
  intros p. rewrite nodup_In, in_map_iff. firstorder.
Qed.

Lemma groups_distinct_players (rows : list Score.t) :
  distinct_players (fun s => In s rows)
                   (map Row.player_name (group_by_player_name rows)).
Proof.
  destruct (group_by_player_name_spec rows) as (Hnd & Hall & Hcov).
  split; [assumption|]. intros p. split.
  - rewrite in_map_iff. intros (g & <- & Hg).
    rewrite Forall_forall in Hall. destruct (Hall g Hg) as [[Hin _] _].
    apply in_map_iff in Hin. destruct Hin as (s & _ & Hs).
    apply In_events_of in Hs. exists s. tauto.
  - intros (s & Hs & <-). now apply Hcov.
Qed.

Lemma distinct_players_ext (P Q : Score.t -> Prop) (l : list str) :
  (forall s, P s <-> Q s) -> distinct_players P l -> distinct_players Q l.
Proof.
  intros Hext [Hnd Hin]. split; [assumption|].
  intros p. rewrite Hin. split; intros (s & Hs & Hp); exists s;
    (split; [now apply Hext | assumption]).
Qed.

Lemma is_max_maximum_over (rows : list Score.t) (p : str)
    (f : Score.t -> Z) (m : Z) :
  is_max m (map f (events_of p rows)) ->
  maximum_over (fun s => In s rows /\ Score.player_name s = p) f m.
Proof.
  intros [Hin Hub]. split.
  - apply in_map_iff in Hin. destruct Hin as (s & Hfs & Hs).
    apply In_events_of in Hs. now exists s.
  - intros s Hs. apply Hub, in_map. now apply In_events_of.
Qed.

(** ** The ranking computed from a list of events *)

Lemma ranking_rows (n : nat) (rows : list Score.t) (e : LeaderboardEntry.t) :
  In e (ranking n rows) ->
  exists g, In g (group_by_player_name rows)
            /\ LeaderboardEntry.player_name e = Row.player_name g
            /\ LeaderboardEntry.score e = Row.best_score g
            /\ LeaderboardEntry.created_at e = Row.latest_date g.
Proof.
  intros He. destruct (entries_rows _ _ _ He) as (g & Hg & Heq).
  exists g. split; [|exact Heq].
  apply firstn_incl in Hg.
  now apply (Permutation_in _ (Permutation_sym (order_by_desc_perm _))).
Qed.

Lemma ranking_NoDup (n : nat) (rows : list Score.t) :
  NoDup (map LeaderboardEntry.player_name (ranking n rows)).
Proof.
  unfold ranking. rewrite entries_players, <- firstn_map. apply firstn_NoDup.
  destruct (group_by_player_name_spec rows) as (Hnd & _).
  eapply Permutation_NoDup; [|exact Hnd].
  apply Permutation_map, order_by_desc_perm.
Qed.

Lemma ranking_maxima (n : nat) (rows : list Score.t)
    (e : LeaderboardEntry.t) :
  In e (ranking n rows) ->
  let mine s :=
    In s rows /\ Score.player_name s = LeaderboardEntry.player_name e in
  maximum_over mine Score.score (LeaderboardEntry.score e)
  /\ maximum_over mine Score.created_at (LeaderboardEntry.created_at e).
Proof.
  intros He. destruct (ranking_rows _ _ _ He) as (g & Hg & Hp & Hs & Hc).
  destruct (group_by_player_name_spec rows) as (_ & Hall & _).
  rewrite Forall_forall in Hall. destruct (Hall g Hg) as [Hb Hl].
  simpl. rewrite Hp, Hs, Hc. split; now apply is_max_maximum_over.
Qed.

Lemma ranking_length (n : nat) (rows : list Score.t) (players : list str) :
  distinct_players (fun s => In s rows) players ->
  length (ranking n rows) = Nat.min n (length players).
Proof.
  intros Hd. unfold ranking. rewrite entries_length, length_firstn.
  rewrite <- (Permutation_length (order_by_desc_perm _)).
  rewrite <- (length_map Row.player_name).
  now rewrite (distinct_players_length _ _ _ (groups_distinct_players rows) Hd).
Qed.

Lemma ranking_cut (n : nat) (rows : list Score.t) (s : Score.t) :
  In s rows ->
  In (Score.player_name s)
     (map LeaderboardEntry.player_name (ranking n rows))
  \/ (length (ranking n rows) = n
      /\ forall e, In e (ranking n rows) ->
                   Score.score s <= LeaderboardEntry.score e).
Proof.
  intros Hs.
  destruct (group_by_player_name_spec rows) as (_ & Hall & Hcov).
  specialize (Hcov s Hs). apply in_map_iff in Hcov.
  destruct Hcov as (g & Hname & Hg).
  assert (Hle : Score.score s <= Row.best_score g).
  { rewrite Forall_forall in Hall. destruct (Hall g Hg) as [[_ Hub] _].
    apply Hub, in_map. apply In_events_of. auto. }
  apply (Permutation_in _ (order_by_desc_perm _)) in Hg.
  destruct (firstn_cut desc_best _ n g (order_by_desc_sorted _) Hg)
    as [Hkept|[Hlen Hlow]].
  - left. unfold ranking. rewrite entries_players, <- Hname.
    now apply in_map.
  - right. unfold ranking. rewrite entries_length. split; [exact Hlen|].
    intros e He. destruct (entries_rows _ _ _ He) as (r & Hr & _ & Hsc & _).
    rewrite Hsc. specialize (Hlow r Hr). unfold desc_best in Hlow. lia.
Qed.

Lemma maximum_over_ext (P Q : Score.t -> Prop) (f : Score.t -> Z) (m : Z) :
  (forall s, P s <-> Q s) -> maximum_over P f m -> maximum_over Q f m.
Proof.
  intros Hext [(s & Hs & Hm) Hub]. split.
  - exists s. split; [now apply Hext | assumption].
  - intros s' Hs'. now apply Hub, Hext.
Qed.

Section Leaderboard.
Context {R : Runtime}.

(** C1.  With a valid key and a limit between 1 and 100 the leaderboard
    answers 200, and its entries are as follows: no player occurs twice;
    every entry carries the largest score and the latest timestamp among
    its player's qualifying events (so the player has one); the entries
    are in descending order of score; the entry in position [k] (from 0)
    has rank [k + 1]; the number of entries is the smaller of [limit] and
    the number of distinct players with a qualifying event; and a player
    with a qualifying event is missing only when [limit] entries are
    shown, none of which scores less than that event. *)
Theorem leaderboard_entries_ranked (db : Db) (now : datetime) (limit : Z)
    (period : option str) (api_key : str) (game : Game.t) :
  get_game_by_api_key db api_key = Some game ->
  1 <= limit <= 100 ->
  exists resp,
    get_leaderboard db now limit period api_key = Ok 200 resp
    /\ let window := get_date_filter now period in
       let scope := qualifying db (Game.id game) window in
       let entries := LeaderboardResponse.entries resp in
       NoDup (map LeaderboardEntry.player_name entries)
       /\ (forall e, In e entries ->
             let mine s :=
               scope s
               /\ Score.player_name s = LeaderboardEntry.player_name e in
             maximum_over mine Score.score (LeaderboardEntry.score e)
             /\ maximum_over mine Score.created_at
                             (LeaderboardEntry.created_at e))
       /\ StronglySorted desc_score entries
       /\ (forall k e, nth_error entries k = Some e ->
             LeaderboardEntry.rank e = Z.of_nat k + 1)
       /\ (forall players, distinct_players scope players ->
             len entries = Z.min limit (len players))
       /\ (forall s, scope s ->
             In (Score.player_name s)
                (map LeaderboardEntry.player_name entries)
             \/ (len entries = limit
                 /\ forall e, In e entries ->
                      Score.score s <= LeaderboardEntry.score e)).
Proof.
  intros Hgame Hlimit. unfold get_leaderboard. rewrite Hgame.
  eexists. split; [reflexivity|]. cbv zeta. simpl LeaderboardResponse.entries.
  set (window := get_date_filter now period).
  set (rows := filter (in_scope (Game.id game) window) (scores db)).
  fold (ranking (Z.to_nat limit) rows).
  assert (Hrows : forall s, In s rows <-> qualifying db (Game.id game) window s)
    by (intros s; apply in_scope_qualifying).
  split; [|split; [|split; [|split; [|split]]]].
  - apply ranking_NoDup.
  - intros e He. destruct (ranking_maxima _ _ _ He) as [Hb Hl].
    split; (eapply maximum_over_ext; [|eassumption]);
      intros s; simpl; rewrite Hrows; tauto.
  - apply entries_sorted, firstn_sorted, order_by_desc_sorted.
  - intros k e Hk. apply entries_ranks in Hk. lia.
  - intros players Hd. unfold len.
    rewrite (ranking_length _ _ players); [lia|].
    eapply distinct_players_ext; [|exact Hd].
    intros s. now rewrite Hrows.
  - intros s Hs. apply Hrows in Hs.
    destruct (ranking_cut (Z.to_nat limit) rows s Hs) as [Hin|[Hlen Hlow]].
    + now left.
    + right. split; [unfold len; lia | exact Hlow].
Qed.

(** C2.  With a valid key, [total_entries] is the number of distinct
    player names that have a qualifying event for the tenant and the
    window, and it is the same for every limit between 1 and 100. *)
Theorem total_entries_counts_players (db : Db) (now : datetime)
    (limit : Z) (period : option str) (api_key : str) (game : Game.t) :
  get_game_by_api_key db api_key = Some game ->
  1 <= limit <= 100 ->
  exists resp,
    get_leaderboard_route db now (Some limit) period api_key = Ok 200 resp
    /\ (forall players,
          distinct_players
            (qualifying db (Game.id game) (get_date_filter now period))
            players ->
          LeaderboardResponse.total_entries resp = len players)
    /\ (forall limit', 1 <= limit' <= 100 ->
          exists resp',
            get_leaderboard_route db now (Some limit') period api_key
            = Ok 200 resp'
            /\ LeaderboardResponse.total_entries resp'
               = LeaderboardResponse.total_entries resp).
Proof.
  intros Hgame Hlimit.
  assert (Hroute : forall l, 1 <= l <= 100 ->
            get_leaderboard_route db now (Some l) period api_key
            = get_leaderboard db now l period api_key).
  { intros l Hl. unfold get_leaderboard_route, Query_limit, Field_range.
    destruct (l <? 1) eqn:E1; [apply Z.ltb_lt in E1; lia|].
    destruct (100 <? l) eqn:E2; [apply Z.ltb_lt in E2; lia|]. reflexivity. }
  rewrite (Hroute _ Hlimit). unfold get_leaderboard. rewrite Hgame.
  eexists. split; [reflexivity|]. split.
  - intros players Hd. simpl. unfold count_distinct, len. f_equal.
    eapply distinct_players_length; [|exact Hd].
    eapply distinct_players_ext; [|apply nodup_distinct_players].
    intros s. apply in_scope_qualifying.
  - intros limit' Hlimit'. rewrite (Hroute _ Hlimit').
    unfold get_leaderboard. rewrite Hgame. eexists. split; reflexivity.
Qed.
End Leaderboard.

(** ** Player statistics *)

Lemma In_player_rows (db : Db) (game_id : Z) (p : str) (s : Score.t) :
  In s (player_rows db game_id p)
  <-> In s (scores db) /\ Score.game_id s = game_id
      /\ Score.player_name s = p.
Proof.
  unfold player_rows.
  now rewrite filter_In, andb_true_iff, Z.eqb_eq, str_eqb_true.
Qed.

Lemma int_truediv_defined (a b : Z) :
  b <> 0 -> exists q, PyFloat.int_truediv a b = Some q.
Proof.
  intros Hb. unfold PyFloat.int_truediv.
  destruct (b =? 0) eqn:E; [apply Z.eqb_eq in E; contradiction|].
  eexists. reflexivity.
Qed.

Lemma better_players_count (db : Db) (game_id : Z) (p : str) (best : Z)
    (others : list str) :
  distinct_players (better_events db game_id p best) others ->
  count_distinct
    (map Score.player_name
       (filter (fun s => Score.score s >? best)
          (filter (fun s => (Score.game_id s =? game_id)
                            && negb (str_eqb (Score.player_name s) p))
             (scores db))))
  = len others.
Proof.
  intros Hd. unfold count_distinct, len. f_equal.
  eapply distinct_players_length; [|exact Hd].
  eapply distinct_players_ext; [|apply nodup_distinct_players].
  intros s. unfold better_events.
  rewrite !filter_In, andb_true_iff, negb_true_iff, Z.eqb_eq, str_eqb_false.
  rewrite Z.gtb_lt. tauto.
Qed.

Section Stats.
Context {R : Runtime}.

(** What the handler answers when the player has events. *)
Lemma get_player_stats_found (db : Db) (p api_key : str) (game : Game.t) :
  get_game_by_api_key db api_key = Some game ->
  player_rows db (Game.id game) p <> [] ->
  exists st,
    get_player_stats db p api_key = Ok 200 st
    /\ let rows := player_rows db (Game.id game) p in
       PlayerStats.player_name st = p
       /\ PlayerStats.game_id st = Game.id game
       /\ PlayerStats.total_scores st = len rows
       /\ is_max (PlayerStats.best_score st) (map Score.score rows)
       /\ is_min (PlayerStats.worst_score st) (map Score.score rows)
       /\ Some (PlayerStats.average_score st)
          = rounded_mean (map Score.score rows)
       /\ is_min (PlayerStats.first_played st) (map Score.created_at rows)
       /\ is_max (PlayerStats.last_played st) (map Score.created_at rows)
       /\ (forall others,
             distinct_players
               (better_events db (Game.id game) p (PlayerStats.best_score st))
               others ->
             PlayerStats.rank st = Some (len others + 1)).
Proof.
  intros Hgame Hrows. unfold get_player_stats. rewrite Hgame.
  fold (player_rows db (Game.id game) p).
  destruct (player_rows db (Game.id game) p) as [|s0 rest] eqn:E;
    [contradiction|].
  destruct (int_truediv_defined
              (py_sum (map Score.score (s0 :: rest)))
              (len (map Score.score (s0 :: rest)))) as [avg Havg].
  { unfold len. simpl. lia. }
  rewrite Havg. eexists. split; [reflexivity|]. simpl.
  repeat match goal with |- _ /\ _ => split end; try reflexivity.
  - apply (py_max_is_max (map Score.score rest) (Score.score s0)).
  - apply (py_min_is_min (map Score.score rest) (Score.score s0)).
  - unfold rounded_mean.
    change (map Score.score (s0 :: rest))
      with (Score.score s0 :: map Score.score rest) in Havg.
    now rewrite Havg.
  - apply (py_min_is_min (map Score.created_at rest) (Score.created_at s0)).
  - apply (py_max_is_max (map Score.created_at rest) (Score.created_at s0)).
  - intros others Hd. now rewrite (better_players_count _ _ _ _ _ Hd).
Qed.

Lemma get_player_stats_missing (db : Db) (p api_key : str)
    (game : Game.t) :
  get_game_by_api_key db api_key = Some game ->
  player_rows db (Game.id game) p = [] ->
  get_player_stats db p api_key
  = HTTPException 404 (pystr "Player '" ++ p ++ pystr "' not found").
Proof.
  intros Hgame Hrows. unfold get_player_stats. rewrite Hgame.
  fold (player_rows db (Game.id game) p). now rewrite Hrows.
Qed.
End Stats.

(** ** Validation of a submission *)

Section Validation.
Context {R : Runtime}.

Lemma check_player_name_valid (v n : str) :
  ScoreCreate.check_player_name v = Valid n ->
  n = strip v /\ n <> [] /\ 1 <= len v <= settings.max_player_name_length
  /\ re_match_class player_name_class n = true.
Proof.
  unfold ScoreCreate.check_player_name, Field_length, and_then.
  destruct (len v <? 1) eqn:E1; [discriminate|].
  destruct (settings.max_player_name_length <? len v) eqn:E2;
    [discriminate|].
  apply Z.ltb_ge in E1, E2. unfold ScoreCreate.validate_player_name.
  destruct (strip v) as [|c w] eqn:Es; [discriminate|].
  destruct (re_match_class player_name_class (c :: w)) eqn:Em;
    simpl; [|discriminate].
  intros [= <-]. repeat split; try lia; congruence.
Qed.

Lemma check_score_valid (v s : Z) :
  ScoreCreate.check_score v = Valid s ->
  s = v /\ 0 <= v <= settings.max_score_value.
Proof.
  unfold ScoreCreate.check_score, Field_range.
  destruct (v <? 0) eqn:E1; [discriminate|].
  destruct (settings.max_score_value <? v) eqn:E2; [discriminate|].
  apply Z.ltb_ge in E1, E2. intros [= <-]. lia.
Qed.

Lemma validate_metadata_valid (v m : option dict) :
  ScoreCreate.validate_metadata v = Valid m -> m = v.
Proof.
  unfold ScoreCreate.validate_metadata. destruct v as [d|]; [|congruence].
  destruct (settings.max_metadata_size <? len (json_dumps d));
    [discriminate|].
  destruct (ScoreCreate.validate_keys (map fst d)); simpl; congruence.
Qed.

(** A body that passes validation is stored with its name trimmed and its
    score and metadata as they came. *)
Lemma model_validate_inr (body score_data : ScoreCreate.t) :
  ScoreCreate.model_validate body = inr score_data ->
  ScoreCreate.player_name score_data
  = strip (ScoreCreate.player_name body)
  /\ ScoreCreate.score score_data = ScoreCreate.score body
  /\ ScoreCreate.game_metadata score_data = ScoreCreate.game_metadata body
  /\ 0 <= ScoreCreate.score body <= settings.max_score_value
  /\ 1 <= len (ScoreCreate.player_name body)
     <= settings.max_player_name_length.
Proof.
  unfold ScoreCreate.model_validate.
  destruct (ScoreCreate.check_player_name (ScoreCreate.player_name body))
    as [n|] eqn:En; [|discriminate].
  destruct (ScoreCreate.check_score (ScoreCreate.score body))
    as [s|] eqn:Esc; [|discriminate].
  destruct (ScoreCreate.validate_metadata (ScoreCreate.game_metadata body))
    as [m|] eqn:Em; [|discriminate].
  intros [= <-]. simpl.
  apply check_player_name_valid in En. apply check_score_valid in Esc.
  apply validate_metadata_valid in Em. intuition.
Qed.

(** A body with an invalid field is answered with the list of errors. *)
Lemma model_validate_inl (body : ScoreCreate.t) :
  (forall n, ScoreCreate.check_player_name (ScoreCreate.player_name body)
             <> Valid n)
  \/ (forall s, ScoreCreate.check_score (ScoreCreate.score body) <> Valid s)
  \/ (forall m, ScoreCreate.validate_metadata
                  (ScoreCreate.game_metadata body) <> Valid m) ->
  exists errors, ScoreCreate.model_validate body = inl errors.
Proof.
  unfold ScoreCreate.model_validate.
  destruct (ScoreCreate.check_player_name (ScoreCreate.player_name body));
    destruct (ScoreCreate.check_score (ScoreCreate.score body));
    destruct (ScoreCreate.validate_metadata
                (ScoreCreate.game_metadata body));
    intros H; try (eexists; reflexivity);
    exfalso; destruct H as [H|[H|H]]; eapply H; reflexivity.
Qed.
End Validation.

(** ** Submissions *)

Section Submissions.
Context {R : Runtime}.

Lemma submit_score_stored (db : Db) (now : datetime)
    (score_data : ScoreCreate.t) (api_key : str) (game : Game.t) :
  get_game_by_api_key db api_key = Some game ->
  exists id,
    snd (submit_score db now None score_data api_key)
    = {| games := games db;
         scores := scores db ++
           [{| Score.id := id;
               Score.game_id := Game.id game;
               Score.player_name := ScoreCreate.player_name score_data;
               Score.score := ScoreCreate.score score_data;
               Score.game_metadata := ScoreCreate.game_metadata score_data;
               Score.created_at := now |}] |}
    /\ status_of (fst (submit_score db now None score_data api_key)) = 201.
Proof.
  intros Hgame. unfold submit_score. rewrite Hgame. simpl.
  eexists. split; reflexivity.
Qed.

Lemma get_game_same_games (db db' : Db) (api_key : str) :
  games db' = games db ->
  get_game_by_api_key db' api_key = get_game_by_api_key db api_key.
Proof. unfold get_game_by_api_key. now intros ->. Qed.

End Submissions.

Lemma player_rows_nil (db : Db) (game_id : Z) (p : str) :
  player_rows db game_id p = [] <-> no_events db game_id p.
Proof.
  unfold no_events. split.
  - intros Hnil s Hin Hg Hp.
    assert (Hs : In s (player_rows db game_id p))
      by (apply In_player_rows; auto).
    rewrite Hnil in Hs. destruct Hs.
  - intros Hno. destruct (player_rows db game_id p) as [|s l] eqn:E;
      [reflexivity|].
    assert (Hs : In s (player_rows db game_id p)) by (rewrite E; now left).
    apply In_player_rows in Hs. destruct Hs as (Hin & Hg & Hp).
    now destruct (Hno s Hin Hg).
Qed.

Lemma filter_keeps_all {A : Type} (f : A -> bool) (l : list A) :
  Forall (fun x => f x = true) l -> filter f l = l.
Proof.
  induction 1 as [|x l Hx _ IH]; simpl; [reflexivity|].
  now rewrite Hx, IH.
Qed.

Lemma player_rows_maximum (db : Db) (game_id : Z) (p : str)
    (f : Score.t -> Z) (m : Z) :
  is_max m (map f (player_rows db game_id p)) ->
  maximum_over (events_of_player db game_id p) f m.
Proof.
  intros [Hin Hub]. split.
  - apply in_map_iff in Hin. destruct Hin as (s & Hfs & Hs).
    apply In_player_rows in Hs. now exists s.
  - intros s Hs. apply Hub, in_map. now apply In_player_rows.
Qed.

Lemma player_rows_minimum (db : Db) (game_id : Z) (p : str)
    (f : Score.t -> Z) (m : Z) :
  is_min m (map f (player_rows db game_id p)) ->
  minimum_over (events_of_player db game_id p) f m.
Proof.
  intros [Hin Hlb]. split.
  - apply in_map_iff in Hin. destruct Hin as (s & Hfs & Hs).
    apply In_player_rows in Hs. now exists s.
  - intros s Hs. apply Hlb, in_map. now apply In_player_rows.
Qed.

Lemma maximum_over_unique (P : Score.t -> Prop) (f : Score.t -> Z)
    (m m' : Z) :
  maximum_over P f m -> maximum_over P f m' -> m = m'.
Proof.
  intros [(s & Hs & <-) Hub] [(s' & Hs' & <-) Hub'].
  apply Hub' in Hs. apply Hub in Hs'. lia.
Qed.

Lemma better_players_of (db : Db) (game_id : Z) (p : str) (best : Z) :
  exists others, distinct_players (better_events db game_id p best) others.
Proof.
  eexists. eapply distinct_players_ext;
    [|apply (nodup_distinct_players
               (filter (fun s => Score.score s >? best)
                  (filter (fun s => (Score.game_id s =? game_id)
                                    && negb (str_eqb (Score.player_name s) p))
                     (scores db))))].
  intros s. unfold better_events.
  rewrite !filter_In, andb_true_iff, negb_true_iff, Z.eqb_eq,
    str_eqb_false, Z.gtb_lt. tauto.
Qed.

(** ** Correct rounding of [int / int] and [round]

    [binary_normalize] shifts the significand right one bit at a time,
    keeping a round bit and a sticky bit, and rounds to nearest even;
    [of_ratio] feeds it a quotient of at least 56 bits with a sticky bit.
    The lemmas below show that the result is the binary64 number nearest
    to the exact quotient, and that [round] rounds the exact decimal
    expansion. *)

Lemma iter_pos_nat {A : Type} (f : A -> A) (p : positive) :
  forall x, iter_pos f p x = Nat.iter (Pos.to_nat p) f x.
Proof.
  induction p as [p IH|p IH|]; intros x; simpl iter_pos.
  - rewrite !IH, Pos2Nat.inj_xI.
    replace (S (2 * Pos.to_nat p))
      with (S (Pos.to_nat p + Pos.to_nat p)) by lia.
    now rewrite Nat.iter_succ_r, Nat.iter_add.
  - rewrite !IH, Pos2Nat.inj_xO.
    replace (2 * Pos.to_nat p)%nat with (Pos.to_nat p + Pos.to_nat p)%nat by lia.
    now rewrite Nat.iter_add.
  - reflexivity.
Qed.

Lemma shr_1_step (mm : Z) (r s : bool) :
  0 <= mm ->
  exists mm' b,
    shr_1 (Build_shr_record mm r s) = Build_shr_record mm' b (r || s)
    /\ mm = 2 * mm' + bit b /\ 0 <= mm'.
Proof.
  intros Hmm. destruct mm as [|[p|p|]|p]; simpl; try lia.
  - exists 0, false. repeat split; lia.
  - exists (Zpos p), true. repeat split; simpl; lia.
  - exists (Zpos p), false. repeat split; simpl; lia.
  - exists 0, true. repeat split; simpl; lia.
Qed.

(** After [k] shifts: the mantissa is the quotient, and the two flags
    describe the remainder. *)

Lemma shr_iter (m0 : Z) (k : nat) :
  0 <= m0 ->
  let rec := Nat.iter k shr_1 (Build_shr_record m0 false false) in
  0 <= shr_m rec
  /\ exists T,
       2 * m0 = shr_m rec * 2 ^ (Z.of_nat k + 1)
                + bit (shr_r rec) * 2 ^ Z.of_nat k + T
       /\ 0 <= T < 2 ^ Z.of_nat k
       /\ (shr_s rec = true <-> T <> 0).
Proof.
  intros Hm0. induction k as [|k IH].
  - cbv zeta. change (Nat.iter 0 shr_1 (Build_shr_record m0 false false))
      with (Build_shr_record m0 false false).
    cbn [shr_m shr_r shr_s bit]. change (Z.of_nat 0) with 0.
    change (2 ^ (0 + 1)) with 2. change (2 ^ 0) with 1.
    split; [exact Hm0|]. exists 0.
    split; [lia|]. split; [lia|]. split; [discriminate | intros H; lia].
  - cbv zeta in IH |- *. rewrite Nat.iter_succ.
    destruct (Nat.iter k shr_1 (Build_shr_record m0 false false))
      as [mm r s] eqn:E.
    cbn [shr_m shr_r shr_s] in IH. destruct IH as (Hmm & T & Heq & HT & Hs).
    destruct (shr_1_step mm r s Hmm) as (mm' & b & -> & Hmm2 & Hmm').
    cbn [shr_m shr_r shr_s]. split; [exact Hmm'|].
    exists (bit r * 2 ^ Z.of_nat k + T).
    rewrite Nat2Z.inj_succ.
    replace (Z.succ (Z.of_nat k) + 1) with (Z.succ (Z.succ (Z.of_nat k)))
      by lia.
    replace (Z.of_nat k + 1) with (Z.succ (Z.of_nat k)) in Heq by lia.
    rewrite !Z.pow_succ_r by lia. rewrite Z.pow_succ_r in Heq by lia.
    assert (Hp : 0 < 2 ^ Z.of_nat k) by (apply Z.pow_pos_nonneg; lia).
    set (P := 2 ^ Z.of_nat k) in *.
    split; [|split].
    + rewrite Hmm2 in Heq. destruct b, r; unfold bit in *; lia.
    + destruct r; unfold bit; lia.
    + rewrite orb_true_iff. destruct r; unfold bit.
      * split; [lia | auto].
      * rewrite Hs. split; [intros [H|H]; [discriminate | lia]
                           | intros H; right; lia].
Qed.

Lemma round_after_shift (m0 : Z) (k : nat) :
  0 <= m0 ->
  let rec := Nat.iter k shr_1 (Build_shr_record m0 false false) in
  let M := round_nearest_even (shr_m rec) (loc_of_shr_record rec) in
  nearest_even m0 (2 ^ Z.of_nat k) M
  /\ shr_m rec <= M <= shr_m rec + 1
  /\ shr_m rec * 2 ^ Z.of_nat k <= m0 < (shr_m rec + 1) * 2 ^ Z.of_nat k.
Proof.
  intros Hm0. cbv zeta.
  destruct (shr_iter m0 k Hm0) as (Hmm & T & Heq & HT & Hs).
  destruct (Nat.iter k shr_1 (Build_shr_record m0 false false))
    as [mm r s].
  cbn [shr_m shr_r shr_s] in *.
  replace (Z.of_nat k + 1) with (Z.succ (Z.of_nat k)) in Heq by lia.
  rewrite Z.pow_succ_r in Heq by lia.
  assert (Hp : 0 < 2 ^ Z.of_nat k) by (apply Z.pow_pos_nonneg; lia).
  set (P := 2 ^ Z.of_nat k) in *.
  unfold nearest_even.
  assert (Hs' : s = false -> T = 0).
  { intros ->. destruct (Z.eq_dec T 0) as [?|Hne]; [assumption|].
    apply Hs in Hne. discriminate. }
  assert (Hs'' : s = true -> T <> 0) by (intros ->; now apply Hs).
  replace ((mm + 1) * P) with (mm * P + P) by ring.
  destruct r, s; unfold bit in Heq; cbn [loc_of_shr_record round_nearest_even];
    try specialize (Hs' eq_refl); try specialize (Hs'' eq_refl).
  - (* Gt *) replace ((mm + 1) * P) with (mm * P + P) by ring.
    split; [split; [lia | intros H; lia]|]. split; lia.
  - (* Eq *) destruct (Z.even mm) eqn:Ev.
    + split; [split; [lia | auto]|]. split; lia.
    + replace ((mm + 1) * P) with (mm * P + P) by ring.
      split; [split; [lia|]|split; lia].
      intros _. change (mm + 1) with (Z.succ mm) || idtac.
      replace (mm + 1) with (Z.succ mm) by lia.
      now rewrite Z.even_succ, <- Z.negb_even, Ev.
  - (* Lt *) split; [split; [lia | intros H; lia]|]. split; lia.
  - (* Exact *) split; [split; [lia | intros H; lia]|]. split; lia.
Qed.

Lemma digits2_size (p : positive) : digits2_pos p = Pos.size p.
Proof. induction p; simpl; congruence. Qed.

Lemma digits2_bounds (p : positive) :
  2 ^ (Zpos (digits2_pos p) - 1) <= Zpos p < 2 ^ Zpos (digits2_pos p).
Proof.
  rewrite digits2_size. split.
  - pose proof (Pos.size_le p) as H.
    assert (Zpos (2 ^ Pos.size p) <= Zpos (p~0)) by exact H.
    rewrite Pos2Z.inj_pow in H0.
    replace (Zpos (Pos.size p)) with (Z.succ (Zpos (Pos.size p) - 1)) in H0
      by lia.
    rewrite Z.pow_succ_r in H0 by lia. lia.
  - pose proof (Pos.size_gt p) as H.
    assert (Zpos p < Zpos (2 ^ Pos.size p)) by exact H.
    now rewrite Pos2Z.inj_pow in H0.
Qed.

Lemma digits2_unique (p : positive) (d : Z) :
  2 ^ (d - 1) <= Zpos p < 2 ^ d -> 0 < d -> Zpos (digits2_pos p) = d.
Proof.
  intros [Hlo Hhi] Hd. destruct (digits2_bounds p) as [Hlo' Hhi'].
  set (d' := Zpos (digits2_pos p)) in *.
  assert (0 < d') by (unfold d'; lia).
  destruct (Z.lt_trichotomy d' d) as [Hlt|[Heq|Hgt]]; [|assumption|].
  - exfalso. assert (2 ^ d' <= 2 ^ (d - 1)) by (apply Z.pow_le_mono_r; lia).
    lia.
  - exfalso. assert (2 ^ d <= 2 ^ (d' - 1)) by (apply Z.pow_le_mono_r; lia).
    lia.
Qed.

Lemma fexp_normal (x : Z) : -1074 <= x - 53 -> fexp 53 1024 x = x - 53.
Proof. intros H. unfold fexp, emin. lia. Qed.

Lemma shr_fexp_stay (M e : Z) :
  2 ^ 52 <= M < 2 ^ 53 -> -1074 <= e ->
  shr_fexp 53 1024 M e loc_Exact = (Build_shr_record M false false, e).
Proof.
  intros HM He. unfold shr_fexp. destruct M as [|p|p]; try lia.
  cbn [Zdigits2]. rewrite (digits2_unique p 53) by (change (53 - 1) with 52; lia).
  rewrite fexp_normal by lia. replace (53 + e - 53 - e) with 0 by lia.
  reflexivity.
Qed.

Lemma shr_fexp_carry (e : Z) :
  -1074 <= e ->
  shr_fexp 53 1024 (2 ^ 53) e loc_Exact
  = (Build_shr_record (2 ^ 52) false false, e + 1).
Proof.
  intros He. unfold shr_fexp.
  change (Zdigits2 (2 ^ 53)) with 54.
  rewrite fexp_normal by lia. replace (54 + e - 53 - e) with 1 by lia.
  reflexivity.
Qed.

Lemma binary_normalize_nearest (p : positive) (ex : Z) :
  let d := Zpos (digits2_pos p) in
  let e0 := d + ex - 53 in
  54 <= d -> -1074 <= e0 <= 970 ->
  exists M,
    nearest_even (Zpos p) (2 ^ (d - 53)) M
    /\ 2 ^ 52 <= M <= 2 ^ 53
    /\ 2 ^ 52 * 2 ^ (d - 53) <= Zpos p < 2 ^ 53 * 2 ^ (d - 53)
    /\ binary_normalize 53 1024 (Zpos p) ex false = finite_of M e0.
Proof.
  intros d e0 Hd He0.
  set (k := Z.to_nat (d - 53)).
  assert (Hk : Z.of_nat k = d - 53) by (unfold k; lia).
  destruct (round_after_shift (Zpos p) k ltac:(lia)) as (Hnear & HM & Hq).
  cbv zeta in Hnear, HM, Hq. rewrite Hk in Hnear, Hq.
  set (rec := Nat.iter k shr_1 (Build_shr_record (Zpos p) false false)) in *.
  set (M := round_nearest_even (shr_m rec) (loc_of_shr_record rec)) in *.
  assert (Hbin : 2 ^ 52 * 2 ^ (d - 53) <= Zpos p < 2 ^ 53 * 2 ^ (d - 53)).
  { destruct (digits2_bounds p) as [Hlo Hhi]. fold d in Hlo, Hhi.
    rewrite <- !Z.pow_add_r by lia.
    replace (52 + (d - 53)) with (d - 1) by lia.
    replace (53 + (d - 53)) with d by lia. lia. }
  assert (Hp : 0 < 2 ^ (d - 53)) by (apply Z.pow_pos_nonneg; lia).
  assert (Hmm : 2 ^ 52 <= shr_m rec < 2 ^ 53).
  { split.
    - apply Z.lt_succ_r. apply (Z.mul_lt_mono_pos_r (2 ^ (d - 53))); lia.
    - apply (Z.mul_lt_mono_pos_r (2 ^ (d - 53))); lia. }
  exists M. split; [exact Hnear|]. split; [lia|]. split; [exact Hbin|].
  unfold binary_normalize, binary_round.
  assert (Halign : shl_align p ex (fexp 53 1024 (Zpos (digits2_pos p) + ex))
                   = (p, ex)).
  { fold d. rewrite fexp_normal by lia. unfold shl_align.
    destruct (d + ex - 53 - ex) eqn:E; try reflexivity. lia. }
  rewrite Halign. unfold binary_round_aux.
  assert (Hshift : shr_fexp 53 1024 (Zpos p) ex loc_Exact = (rec, e0)).
  { unfold shr_fexp. cbn [Zdigits2]. fold d. rewrite fexp_normal by lia.
    cbn [shr_record_of_loc]. unfold shr.
    destruct (d + ex - 53 - ex) as [|c|c] eqn:E; try lia.
    rewrite iter_pos_nat. unfold rec, k, e0.
    replace (d - 53) with (Zpos c) by lia. rewrite Z2Nat.inj_pos.
    f_equal. lia. }
  rewrite Hshift. fold M.
  destruct (Z.eq_dec M (2 ^ 53)) as [HM53|HM53].
  - rewrite HM53, shr_fexp_carry by lia. cbn [shr_m].
    unfold finite_of. rewrite Z.eqb_refl.
    change (2 ^ 52) with (Zpos (Z.to_pos (2 ^ 52))) at 1.
    cbv iota. replace (e0 + 1 <=? 1024 - 53) with true
      by (symmetry; apply Z.leb_le; lia).
    reflexivity.
  - rewrite shr_fexp_stay by lia. cbn [shr_m].
    unfold finite_of. replace (M =? 2 ^ 53) with false
      by (symmetry; now apply Z.eqb_neq).
    destruct M as [|q|q] eqn:EM; try lia.
    replace (e0 <=? 1024 - 53) with true by (symmetry; apply Z.leb_le; lia).
    reflexivity.
Qed.

Lemma round_half_even_nearest (n d : Z) :
  0 < d -> nearest_even n d (PyFloat.round_half_even n d).
Proof.
  intros Hd. unfold PyFloat.round_half_even, nearest_even.
  pose proof (Z.div_mod n d ltac:(lia)) as Hdm.
  pose proof (Z.mod_pos_bound n d Hd) as Hr.
  set (q := n / d) in *. set (r := n mod d) in *.
  clearbody q r.
  assert (E1 : n - q * d = r) by lia.
  assert (E2 : n - (q + 1) * d = r - d) by lia.
  destruct (Z.compare_spec (2 * r) d) as [C|C|C].
  - destruct (Z.even q) eqn:Ev.
    + rewrite E1. split; [lia | auto].
    + rewrite E2. split; [lia|].
      intros _. replace (q + 1) with (Z.succ q) by lia.
      now rewrite Z.even_succ, <- Z.negb_even, Ev.
  - rewrite E1. split; [lia | intros H; lia].
  - rewrite E2. split; [lia | intros H; lia].
Qed.

Lemma nearest_even_scaled (n d K M : Z) :
  0 < K -> nearest_even (n * K) (d * K) M -> nearest_even n d M.
Proof.
  unfold nearest_even. intros HK [H1 H2].
  assert (E : n * K - M * (d * K) = (n - M * d) * K) by ring.
  rewrite E, Z.abs_mul, (Z.abs_eq K) in H1, H2 by lia.
  split.
  - apply (Z.mul_le_mono_pos_r _ _ K HK). lia.
  - intros Heq. apply H2.
    transitivity (2 * Z.abs (n - M * d) * K); [ring | now rewrite Heq].
Qed.

Lemma sticky_bounds (n b q r L U : Z) :
  0 < b -> n = q * b + r -> 0 <= r < b ->
  2 * L <= 2 * q + (if r =? 0 then 0 else 1) < 2 * U ->
  2 * L * b <= 2 * n < 2 * U * b.
Proof.
  intros Hb -> Hr Hm.
  assert (HL : L <= q) by (destruct (r =? 0); lia).
  assert (HU : q + 1 <= U) by (destruct (r =? 0); lia).
  assert (L * b <= q * b) by (apply Z.mul_le_mono_nonneg_r; lia).
  assert ((q + 1) * b <= U * b) by (apply Z.mul_le_mono_nonneg_r; lia).
  lia.
Qed.

Lemma sticky_nearest (n b q r P M : Z) :
  0 < b -> 0 < P -> n = q * b + r -> 0 <= r < b ->
  nearest_even (2 * q + (if r =? 0 then 0 else 1)) (4 * P) M ->
  nearest_even (2 * n) (4 * P * b) M.
Proof.
  intros Hb HP -> Hr. unfold nearest_even.
  destruct (Z.eqb_spec r 0) as [->|Hr0].
  - intros [H1 H2].
    replace (2 * (q * b + 0) - M * (4 * P * b))
      with ((2 * q + 0 - M * (4 * P)) * b) by ring.
    rewrite Z.abs_mul, (Z.abs_eq b) by lia.
    split.
    + replace (2 * (Z.abs (2 * q + 0 - M * (4 * P)) * b))
        with (2 * Z.abs (2 * q + 0 - M * (4 * P)) * b) by ring.
      apply Z.mul_le_mono_nonneg_r; lia.
    + intros Heq. apply H2.
      apply (Z.mul_cancel_r _ _ b); [lia|]. rewrite <- Heq. ring.
  - intros [H1 _].
    set (D := q - 2 * M * P).
    assert (HD : - P <= D <= P - 1) by (unfold D; lia).
    replace (2 * (q * b + r) - M * (4 * P * b)) with (2 * (D * b + r))
      by (unfold D; ring).
    assert (Hlo : - P * b <= D * b) by (apply Z.mul_le_mono_nonneg_r; lia).
    assert (Hhi : D * b <= (P - 1) * b)
      by (apply Z.mul_le_mono_nonneg_r; lia).
    assert (HPb : 0 < P * b) by (apply Z.mul_pos_pos; lia).
    split; [lia|lia].
Qed.

Lemma pow2_lt_inv (x y : Z) : 0 <= y -> 2 ^ x < 2 ^ y -> x < y.
Proof. intros Hy H. apply (Z.pow_lt_mono_r_iff 2); lia. Qed.

Lemma of_ratio_nearest (a b : Z) :
  0 < a -> 0 < b -> a < 2 ^ 1023 * b -> b <= 2 ^ 1022 * a ->
  nearest_binary64 a b (PyFloat.of_ratio false a b).
Proof.
  intros Ha Hb Hhi Hlo. unfold PyFloat.of_ratio.
  replace (a =? 0) with false by (symmetry; apply Z.eqb_neq; lia).
  cbv zeta.
  set (s := Z.max 0 (Z.log2 b + 56 - Z.log2 a)).
  set (n := a * 2 ^ s).
  assert (Hs : 0 <= s) by (unfold s; lia).
  pose proof (Z.log2_nonneg a) as Hla0.
  pose proof (Z.log2_nonneg b) as Hlb0.
  destruct (Z.log2_spec a Ha) as [Hla _].
  destruct (Z.log2_spec b Hb) as [_ Hlb].
  assert (H2s : 0 < 2 ^ s) by (apply Z.pow_pos_nonneg; lia).
  assert (Hn : 2 ^ 55 * b < n).
  { assert (2 ^ (Z.log2 b + 56) <= n).
    { unfold n.
      apply Z.le_trans with (2 ^ (Z.log2 a + s)).
      - apply Z.pow_le_mono_r; unfold s; lia.
      - rewrite Z.pow_add_r by lia. apply Z.mul_le_mono_nonneg_r; lia. }
    replace (Z.log2 b + 56) with (55 + Z.succ (Z.log2 b)) in H by lia.
    rewrite Z.pow_add_r in H by lia.
    assert (2 ^ 55 * b < 2 ^ 55 * 2 ^ Z.succ (Z.log2 b))
      by (apply Z.mul_lt_mono_pos_l; [reflexivity | lia]).
    lia. }
  pose proof (Z.div_mod n b ltac:(lia)) as Hdm.
  pose proof (Z.mod_pos_bound n b Hb) as Hr.
  set (q := n / b) in *. set (r := n mod b) in *.
  assert (Hq : 2 ^ 55 <= q).
  { apply Z.div_le_lower_bound; lia. }
  set (m := 2 * q + (if r =? 0 then 0 else 1)).
  assert (Hm : 2 ^ 56 <= m).
  { unfold m. change (2 ^ 56) with (2 * 2 ^ 55). destruct (r =? 0); lia. }
  destruct m as [|p|p] eqn:Em; try lia.
  set (d := Zpos (digits2_pos p)).
  destruct (digits2_bounds p) as [Hdlo Hdhi]. fold d in Hdlo, Hdhi.
  assert (Hd : 57 <= d).
  { assert (56 < d); [|lia]. apply pow2_lt_inv; [unfold d; lia | lia]. }
  assert (Hmb : 2 * 2 ^ (d - 2) * b <= 2 * n < 2 * 2 ^ (d - 1) * b).
  { apply (sticky_bounds n b q r); try lia.
    fold m. rewrite Em. rewrite <- !Z.pow_succ_r by lia.
    replace (Z.succ (d - 2)) with (d - 1) by lia.
    replace (Z.succ (d - 1)) with d by lia. lia. }
  rewrite <- !Z.pow_succ_r in Hmb by lia.
  replace (Z.succ (d - 2)) with (d - 1) in Hmb by lia.
  replace (Z.succ (d - 1)) with d in Hmb by lia.
  assert (H2n : 2 * n = a * 2 ^ (s + 1)).
  { unfold n. rewrite Z.pow_add_r by lia. ring. }
  rewrite H2n in Hmb.
  set (e0 := d + - (s + 1) - 53).
  assert (He0 : -1074 <= e0 <= 970).
  { split.
    - assert (s + 1 < d + 1022); [|unfold e0; lia].
      apply pow2_lt_inv; [lia|].
      apply (Z.mul_lt_mono_pos_l a); [lia|].
      apply Z.lt_le_trans with (2 ^ d * b); [lia|].
      rewrite Z.pow_add_r by lia.
      assert (0 < 2 ^ d) by (apply Z.pow_pos_nonneg; lia).
      replace (a * (2 ^ d * 2 ^ 1022)) with (2 ^ d * (2 ^ 1022 * a)) by ring.
      apply Z.mul_le_mono_nonneg_l; lia.
    - assert (d - 1 < 1023 + (s + 1)); [|unfold e0; lia].
      apply pow2_lt_inv; [lia|].
      apply (Z.mul_lt_mono_pos_r b); [lia|].
      apply Z.le_lt_trans with (a * 2 ^ (s + 1)); [lia|].
      rewrite (Z.pow_add_r 2 1023) by lia.
      assert (0 < 2 ^ (s + 1)) by (apply Z.pow_pos_nonneg; lia).
      replace (2 ^ 1023 * 2 ^ (s + 1) * b)
        with (2 ^ 1023 * b * 2 ^ (s + 1)) by ring.
      apply Z.mul_lt_mono_pos_r; lia. }
  destruct (binary_normalize_nearest p (- (s + 1)))
    as (M & Hnear & HM & _ & Heq); fold d; fold e0; try lia.
  fold d in Hnear. unfold PyFloat.prec, PyFloat.emax. rewrite Heq.
  (* the sticky bit rounds as the exact quotient does *)
  assert (HP : d - 53 = 2 + (d - 55)) by lia.
  assert (H2P : 0 < 2 ^ (d - 55)) by (apply Z.pow_pos_nonneg; lia).
  rewrite HP, Z.pow_add_r in Hnear by lia. change (2 ^ 2) with 4 in Hnear.
  rewrite <- Em in Hnear.
  apply (sticky_nearest n b q r) in Hnear; try lia.
  rewrite H2n in Hnear.
  assert (Hbin : 2 ^ 52 * (2 ^ (d - 53) * b) <= a * 2 ^ (s + 1)
                 < 2 ^ 53 * (2 ^ (d - 53) * b)).
  { rewrite !Z.mul_assoc, <- !Z.pow_add_r by lia.
    replace (52 + (d - 53)) with (d - 1) by lia.
    replace (53 + (d - 53)) with d by lia. lia. }
  replace (4 * 2 ^ (d - 55) * b) with (2 ^ (d - 53) * b) in Hnear
    by (rewrite HP, Z.pow_add_r by lia; reflexivity).
  exists e0, M. split; [exact He0|].
  unfold binade, scale. destruct (Z.leb_spec 0 e0) as [Hpos|Hneg]; cbn [fst snd].
  - (* the common factor is 2 ^ (s + 1) *)
    assert (HK : 0 < 2 ^ (s + 1)) by (apply Z.pow_pos_nonneg; lia).
    assert (Hd53 : 2 ^ (d - 53) = 2 ^ e0 * 2 ^ (s + 1)).
    { rewrite <- Z.pow_add_r by lia. f_equal. unfold e0. lia. }
    rewrite Hd53 in Hnear, Hbin.
    replace (2 ^ e0 * 2 ^ (s + 1) * b) with (b * 2 ^ e0 * 2 ^ (s + 1))
      in Hnear, Hbin by ring.
    split; [|split; [|reflexivity]].
    + rewrite !Z.mul_assoc in Hbin.
      split.
      * apply (Z.mul_le_mono_pos_r _ _ (2 ^ (s + 1))); lia.
      * apply (Z.mul_lt_mono_pos_r (2 ^ (s + 1))); lia.
    + now apply (nearest_even_scaled a (b * 2 ^ e0) (2 ^ (s + 1))).
  - (* the common factor is 2 ^ (d - 53) *)
    assert (HK : 0 < 2 ^ (d - 53)) by (apply Z.pow_pos_nonneg; lia).
    assert (Hs1 : 2 ^ (s + 1) = 2 ^ (- e0) * 2 ^ (d - 53)).
    { rewrite <- Z.pow_add_r by lia. f_equal. unfold e0. lia. }
    rewrite Hs1 in Hnear, Hbin.
    replace (2 ^ (d - 53) * b) with (b * 2 ^ (d - 53)) in Hnear, Hbin by ring.
    rewrite !Z.mul_assoc in Hnear, Hbin.
    split; [|split; [|reflexivity]].
    + split.
      * apply (Z.mul_le_mono_pos_r _ _ (2 ^ (d - 53))); lia.
      * apply (Z.mul_lt_mono_pos_r (2 ^ (d - 53))); lia.
    + now apply (nearest_even_scaled (a * 2 ^ (- e0)) b (2 ^ (d - 53))).
Qed.

Lemma nearest_even_range (n d M L U : Z) :
  0 < d -> L * d <= n < U * d -> nearest_even n d M -> L <= M <= U.
Proof.
  intros Hd [Hlo Hhi] [H _]. split.
  - destruct (Z.le_gt_cases L M) as [|Hlt]; [assumption|exfalso].
    assert ((M + 1) * d <= L * d) by (apply Z.mul_le_mono_nonneg_r; lia).
    lia.
  - destruct (Z.le_gt_cases M U) as [|Hlt]; [assumption|exfalso].
    assert ((U + 1) * d <= M * d) by (apply Z.mul_le_mono_nonneg_r; lia).
    lia.
Qed.

Lemma int_truediv_nearest (a b : Z) :
  0 <= a -> 0 < b -> a < 2 ^ 1023 * b -> b <= 2 ^ 1022 ->
  exists f, PyFloat.int_truediv a b = Some f /\ float_of_ratio a b f.
Proof.
  intros Ha Hb Hhi Hlo. unfold PyFloat.int_truediv.
  replace (b =? 0) with false by (symmetry; apply Z.eqb_neq; lia).
  eexists. split; [reflexivity|].
  rewrite (Z.abs_eq a), (Z.abs_eq b) by lia.
  destruct (Z.eq_dec a 0) as [->|Hne].
  - split; [reflexivity | lia].
  - replace (Z.sgn a) with 1 by (symmetry; apply Z.sgn_pos; lia).
    replace (Z.sgn b) with 1 by (symmetry; apply Z.sgn_pos; lia).
    cbn [Z.mul Pos.mul Z.eqb Pos.eqb negb andb].
    split; [lia|]. intros _. apply of_ratio_nearest; lia.
Qed.

Lemma round_nearest (m : positive) (e : Z) :
  Zpos m < 2 ^ 53 -> e <= 969 ->
  exists k,
    hundredths (S754_finite false m e) k
    /\ float_of_ratio k 100 (PyFloat.round (S754_finite false m e) 2).
Proof.
  intros Hm He. unfold PyFloat.round. change (10 ^ 2) with 100.
  cbv zeta.
  set (k := if 0 <=? e then Zpos m * 2 ^ e * 100
            else PyFloat.round_half_even (Zpos m * 100) (2 ^ (- e))).
  assert (Hk : hundredths (S754_finite false m e) k
               /\ 0 <= k < 2 ^ 1023 * 100).
  { unfold hundredths, scale, k.
    destruct (Z.leb_spec 0 e) as [Hpos|Hneg].
    - assert (H2e : 0 < 2 ^ e) by (apply Z.pow_pos_nonneg; lia).
      assert (2 ^ e <= 2 ^ 969) by (apply Z.pow_le_mono_r; lia).
      split.
      + destruct (Z.leb_spec 0 (- e)); cbn [fst snd]; unfold nearest_even.
        * replace e with 0 by lia. simpl (- 0). rewrite Z.pow_0_r.
          replace (100 * Zpos m - Zpos m * 1 * 100 * (1 * 1)) with 0 by ring.
          simpl. split; [lia | intros; lia].
        * replace (- - e) with e by lia.
          replace (100 * Zpos m * 2 ^ e - Zpos m * 2 ^ e * 100 * 1) with 0
            by ring.
          simpl. split; [lia | intros; lia].
      + split; [lia|].
        assert (Zpos m * 2 ^ e < 2 ^ 53 * 2 ^ 969).
        { apply Z.lt_le_trans with (2 ^ 53 * 2 ^ e).
          - apply Z.mul_lt_mono_pos_r; lia.
          - apply Z.mul_le_mono_nonneg_l; lia. }
        rewrite <- Z.pow_add_r in H0 by lia. simpl (53 + 969) in H0.
        change (2 ^ 1023) with (2 * 2 ^ 1022). lia.
    - assert (H2e : 0 < 2 ^ (- e)) by (apply Z.pow_pos_nonneg; lia).
      pose proof (round_half_even_nearest (Zpos m * 100) (2 ^ (- e)) H2e)
        as Hnear.
      split.
      + destruct (Z.leb_spec 0 (- e)); [|lia]. cbn [fst snd].
        now rewrite (Z.mul_comm 100), Z.mul_1_l.
      + assert (1 <= 2 ^ (- e)) by lia.
        assert (Hrange : 0 * 2 ^ (- e) <= Zpos m * 100
                         < (Zpos m * 100) * 2 ^ (- e)).
        { split; [lia|].
          replace (Zpos m * 100) with (Zpos m * 100 * 1) at 1 by ring.
          apply Z.mul_lt_mono_pos_l; [lia|].
          apply (Z.pow_gt_1 2); lia. }
        destruct (nearest_even_range _ _ _ _ _ H2e Hrange Hnear)
          as [Hk0 Hk1].
        split; [lia|].
        assert (2 ^ 53 < 2 ^ 1023) by (apply Z.pow_lt_mono_r; lia).
        lia. }
  destruct Hk as [Hh [Hk0 Hk1]]. exists k. split; [exact Hh|].
  destruct (Z.eq_dec k 0) as [Hz|Hnz].
  - rewrite Hz. split; [reflexivity | lia].
  - split; [lia|]. intros _. apply of_ratio_nearest; lia.
Qed.

Lemma nearest_even_unique (n d M M' : Z) :
  0 < d -> nearest_even n d M -> nearest_even n d M' -> M = M'.
Proof.
  intros Hd [H1 E1] [H2 E2].
  assert (Hdiff : (M' - M) * d = (n - M * d) - (n - M' * d)) by ring.
  destruct (Z.lt_trichotomy M M') as [Hlt|[Heq|Hgt]]; [|assumption|].
  - exfalso.
    assert (1 * d <= (M' - M) * d) by (apply Z.mul_le_mono_nonneg_r; lia).
    assert (M' = M + 1).
    { destruct (Z.eq_dec M' (M + 1)) as [|Hne]; [assumption|exfalso].
      assert (2 * d <= (M' - M) * d)
        by (apply Z.mul_le_mono_nonneg_r; lia).
      lia. }
    subst M'. replace (M + 1 - M) with 1 in * by lia.
    assert (Z.even M = true) by (apply E1; lia).
    assert (Z.even (M + 1) = true) by (apply E2; lia).
    replace (M + 1) with (Z.succ M) in * by lia.
    rewrite Z.even_succ, <- Z.negb_even in *.
    destruct (Z.even M); discriminate.
  - exfalso.
    assert (Hdiff' : (M - M') * d = (n - M' * d) - (n - M * d)) by ring.
    assert (1 * d <= (M - M') * d) by (apply Z.mul_le_mono_nonneg_r; lia).
    assert (M = M' + 1).
    { destruct (Z.eq_dec M (M' + 1)) as [|Hne]; [assumption|exfalso].
      assert (2 * d <= (M - M') * d)
        by (apply Z.mul_le_mono_nonneg_r; lia).
      lia. }
    subst M. replace (M' + 1 - M') with 1 in * by lia.
    assert (Z.even M' = true) by (apply E2; lia).
    assert (Z.even (M' + 1) = true) by (apply E1; lia).
    replace (M' + 1) with (Z.succ M') in * by lia.
    rewrite Z.even_succ, <- Z.negb_even in *.
    destruct (Z.even M'); discriminate.
Qed.

Lemma binade_lt (n d e e' : Z) :
  0 < n -> 0 < d -> e < e' -> binade n d e -> binade n d e' -> False.
Proof.
  unfold binade, scale. intros Hn Hd Hlt.
  destruct (Z.leb_spec 0 e) as [He|He];
    destruct (Z.leb_spec 0 e') as [He'|He']; cbn [fst snd];
    intros [_ Hhi] [Hlo _]; try lia.
  - assert (2 * 2 ^ e <= 2 ^ e').
    { rewrite <- Z.pow_succ_r by lia. apply Z.pow_le_mono_r; lia. }
    assert (d * (2 * 2 ^ e) <= d * 2 ^ e')
      by (apply Z.mul_le_mono_nonneg_l; lia).
    lia.
  - assert (2 * 1 <= 2 ^ (- e)).
    { change (2 * 1) with (2 ^ 1). apply Z.pow_le_mono_r; lia. }
    assert (0 < 2 ^ e') by (apply Z.pow_pos_nonneg; lia).
    assert (n * 2 <= n * 2 ^ (- e)) by (apply Z.mul_le_mono_nonneg_l; lia).
    assert (d * 1 <= d * 2 ^ e') by (apply Z.mul_le_mono_nonneg_l; lia).
    lia.
  - assert (2 * 2 ^ (- e') <= 2 ^ (- e)).
    { rewrite <- Z.pow_succ_r by lia. apply Z.pow_le_mono_r; lia. }
    assert (n * (2 * 2 ^ (- e')) <= n * 2 ^ (- e))
      by (apply Z.mul_le_mono_nonneg_l; lia).
    lia.
Qed.

Lemma scale_pos (n d e : Z) : 0 < d -> 0 < snd (scale n d e).
Proof.
  intros Hd. unfold scale. destruct (0 <=? e) eqn:E; cbn [snd]; [|lia].
  apply Z.mul_pos_pos; [lia|]. apply Z.pow_pos_nonneg; lia.
Qed.

Lemma nearest_binary64_unique (n d : Z) (f f' : PyFloat.float) :
  0 < n -> 0 < d ->
  nearest_binary64 n d f -> nearest_binary64 n d f' -> f = f'.
Proof.
  intros Hn Hd (e & M & _ & Hb & Hnear & ->) (e' & M' & _ & Hb' & Hnear' & ->).
  assert (e = e').
  { destruct (Z.lt_trichotomy e e') as [Hlt|[Heq|Hgt]]; [|assumption|].
    - destruct (binade_lt n d e e' Hn Hd Hlt Hb Hb').
    - destruct (binade_lt n d e' e Hn Hd Hgt Hb' Hb). }
  subst e'. f_equal.
  apply (nearest_even_unique _ _ _ _ (scale_pos n d e Hd) Hnear Hnear').
Qed.

Lemma float_of_ratio_unique (n d : Z) (f f' : PyFloat.float) :
  0 <= n -> 0 < d ->
  float_of_ratio n d f -> float_of_ratio n d f' -> f = f'.
Proof.
  intros Hn Hd [Hz Hp] [Hz' Hp'].
  destruct (Z.eq_dec n 0) as [E|E].
  - now rewrite Hz, Hz'.
  - assert (0 < n) by lia. apply (nearest_binary64_unique n d); auto.
Qed.

Lemma hundredths_unique (x : PyFloat.float) (k k' : Z) :
  hundredths x k -> hundredths x k' -> k = k'.
Proof.
  destruct x as [s| | |[|] m e]; unfold hundredths; try congruence;
    try tauto.
  apply nearest_even_unique, scale_pos. lia.
Qed.

Lemma hundredths_nonneg (x : PyFloat.float) (k : Z) :
  hundredths x k -> 0 <= k.
Proof.
  destruct x as [s| | |[|] m e]; unfold hundredths; try lia; try tauto.
  intros H.
  assert (Hs : 0 < snd (scale (100 * Zpos m) 1 (- e)))
    by (apply scale_pos; lia).
  assert (Hf : 0 <= fst (scale (100 * Zpos m) 1 (- e))).
  { unfold scale. destruct (0 <=? - e); cbn [fst]; [lia|].
    apply Z.mul_nonneg_nonneg; [lia|]. apply Z.pow_nonneg. lia. }
  destruct H as [H _].
  destruct (Z.le_gt_cases 0 k) as [|Hneg]; [assumption|exfalso].
  assert (k * snd (scale (100 * Zpos m) 1 (- e))
          <= (-1) * snd (scale (100 * Zpos m) 1 (- e)))
    by (apply Z.mul_le_mono_nonneg_r; lia).
  lia.
Qed.

Lemma mean_rounded_to_2_unique (l : list Z) (f f' : PyFloat.float) :
  0 <= sum_of l -> 0 < len l ->
  mean_rounded_to_2 l f -> mean_rounded_to_2 l f' -> f = f'.
Proof.
  intros Ht Hl (mean & k & Hm & Hk & Hf) (mean' & k' & Hm' & Hk' & Hf').
  assert (mean = mean') by (apply (float_of_ratio_unique (sum_of l) (len l)); auto).
  subst mean'.
  assert (k = k') by (apply (hundredths_unique mean); auto).
  subst k'.
  apply (float_of_ratio_unique k 100); auto; [|lia].
  now apply (hundredths_nonneg mean).
Qed.

Lemma py_sum_total (l : list Z) : py_sum l = sum_of l.
Proof.
  unfold py_sum, sum_of.
  assert (H : forall acc, fold_left Z.add l acc = acc + fold_right Z.add 0 l).
  { induction l as [|x l IH]; intros acc; simpl; [lia|]. rewrite IH. lia. }
  now rewrite H.
Qed.

Lemma sum_of_bounds (hi : Z) (l : list Z) :
  Forall (fun x => 0 <= x <= hi) l -> 0 <= sum_of l <= hi * len l.
Proof.
  unfold sum_of, len. induction 1 as [|x l Hx _ IH].
  - simpl. lia.
  - cbn [fold_right length]. rewrite Nat2Z.inj_succ. lia.
Qed.

Lemma nearest_binary64_small (n d : Z) (f : PyFloat.float) :
  0 < d -> n < 2 ^ 52 * d -> nearest_binary64 n d f ->
  exists m e, f = S754_finite false m e /\ Zpos m < 2 ^ 53 /\ e <= 0.
Proof.
  intros Hd Hn (e & M & _ & Hb & Hnear & ->). unfold binade in Hb.
  assert (He : e < 0).
  { destruct (Z.lt_ge_cases e 0) as [|He]; [assumption|exfalso].
    unfold scale in Hb. destruct (Z.leb_spec 0 e); [|lia].
    cbn [fst snd] in Hb.
    assert (0 < 2 ^ e) by (apply Z.pow_pos_nonneg; lia).
    assert (d * 1 <= d * 2 ^ e) by (apply Z.mul_le_mono_nonneg_l; lia).
    lia. }
  assert (HM : 2 ^ 52 <= M <= 2 ^ 53).
  { apply (nearest_even_range (fst (scale n d e)) (snd (scale n d e)));
      [now apply scale_pos | | exact Hnear].
    rewrite !(Z.mul_comm _ (snd (scale n d e))) in Hb.
    rewrite !(Z.mul_comm _ (snd (scale n d e))). exact Hb. }
  unfold finite_of. destruct (Z.eqb_spec M (2 ^ 53)) as [->|Hne].
  - eexists _, _. split; [reflexivity|]. split; [reflexivity | lia].
  - eexists _, _. split; [reflexivity|]. split; [|lia].
    rewrite Z2Pos.id; lia.
Qed.

Lemma rounded_mean_spec (l : list Z) :
  l <> [] ->
  Forall (fun x => 0 <= x <= settings.max_score_value) l ->
  len l <= 2 ^ 1022 ->
  exists f, rounded_mean l = Some f /\ mean_rounded_to_2 l f.
Proof.
  intros Hne Hall Hlen. unfold rounded_mean. rewrite py_sum_total.
  pose proof (sum_of_bounds _ l Hall) as Ht.
  unfold settings.max_score_value in Ht.
  assert (Hl : 0 < len l).
  { unfold len. destruct l; [congruence|]. simpl. lia. }
  destruct (int_truediv_nearest (sum_of l) (len l)) as (mean & -> & Hmean);
    try lia.
  simpl option_map. eexists. split; [reflexivity|].
  unfold mean_rounded_to_2. exists mean.
  destruct (Z.eq_dec (sum_of l) 0) as [Hz|Hnz].
  - destruct Hmean as [Hm _]. pose proof (Hm Hz) as E. subst mean.
    exists 0. split; [split; [exact Hm | lia]|].
    split; [reflexivity|]. split; [reflexivity | lia].
  - destruct Hmean as [Hm0 Hm]. 
    destruct (nearest_binary64_small (sum_of l) (len l) mean)
      as (m & e & -> & Hm53 & He); [lia | lia | apply Hm; lia |].
    destruct (round_nearest m e Hm53 ltac:(lia)) as (k & Hk & Hf).
    exists k. split; [split; [exact Hm0 | exact Hm]|]. split; assumption.
Qed.

(** [round(sum(l) / len(l), 2)] is the mean of [l] rounded to two decimals,
    and the only float that is. *)
Lemma rounded_mean_characterised (l : list Z) (f : PyFloat.float) :
  l <> [] ->
  Forall (fun x => 0 <= x <= settings.max_score_value) l ->
  len l <= 2 ^ 1022 ->
  Some f = rounded_mean l ->
  mean_rounded_to_2 l f
  /\ forall f', mean_rounded_to_2 l f' -> f' = f.
Proof.
  intros Hne Hall Hlen Hf.
  destruct (rounded_mean_spec l Hne Hall Hlen) as (f0 & Hf0 & Hspec).
  assert (f = f0) by congruence. subst f0.
  split; [exact Hspec|]. intros f' Hf'.
  apply (mean_rounded_to_2_unique l); try assumption.
  - apply (sum_of_bounds settings.max_score_value l Hall).
  - unfold len. destruct l; [congruence|]. simpl. lia.
Qed.

(** ** Runs of submissions *)

Section RunsOfSubmissions.
Context {R : Runtime}.

Lemma appended_for_same_games (db db' : Db) (game_id : Z) (p : str)
    (request : submission) :
  games db' = games db ->
  appended_for db' game_id p request = appended_for db game_id p request.
Proof.
  intros Hg. destruct request as [[[now fault] body] api_key].
  unfold appended_for.
  now rewrite (get_game_same_games db db' api_key Hg).
Qed.

(** A request accepted for the tenant and the player adds its score and
    its time. *)
Lemma appended_for_accepted (db : Db) (game : Game.t) (p api_key : str)
    (now : datetime) (body score_data : ScoreCreate.t) :
  get_game_by_api_key db api_key = Some game ->
  ScoreCreate.model_validate body = inr score_data ->
  ScoreCreate.player_name score_data = p ->
  appended_for db (Game.id game) p (now, None, body, api_key)
  = [(ScoreCreate.score body, now)].
Proof.
  intros Hgame Hbody Hp. unfold appended_for.
  rewrite Hbody, Hgame, Hp, Z.eqb_refl, str_eqb_refl. simpl.
  now destruct (model_validate_inr _ _ Hbody) as (_ & -> & _).
Qed.

(** One request: the games stay, and the player's events grow by what the
    request adds. *)
Lemma post_scores_player_rows (db : Db) (now : datetime)
    (fault : option Exception) (body : ScoreCreate.t) (api_key : str)
    (game_id : Z) (p : str) :
  games (snd (post_scores db now fault body api_key)) = games db
  /\ map score_and_time
         (player_rows (snd (post_scores db now fault body api_key))
                      game_id p)
     = map score_and_time (player_rows db game_id p)
       ++ appended_for db game_id p (now, fault, body, api_key).
Proof.
  unfold post_scores, appended_for.
  destruct (ScoreCreate.model_validate body) as [errs|sd].
  - simpl. now rewrite app_nil_r.
  - unfold submit_score.
    destruct (get_game_by_api_key db api_key) as [owner|].
    + destruct fault as [e|]; simpl.
      * now rewrite app_nil_r.
      * split; [reflexivity|]. unfold player_rows. simpl.
        rewrite filter_app, map_app. f_equal. simpl.
        destruct ((Game.id owner =? game_id)
                  && str_eqb (ScoreCreate.player_name sd) p); reflexivity.
    + simpl. now rewrite app_nil_r.
Qed.

(** A run: the games stay, and the player's events are those before the
    run followed by what the requests add, in the order served. *)
Lemma serve_all_player_rows (game_id : Z) (p : str)
    (requests : list submission) :
  forall db,
    games (serve_all db requests) = games db
    /\ map score_and_time (player_rows (serve_all db requests) game_id p)
       = map score_and_time (player_rows db game_id p)
         ++ appended db game_id p requests.
Proof.
  induction requests as [|[[[now fault] body] api_key] requests IH];
    intros db.
  - unfold appended. simpl. now rewrite app_nil_r.
  - cbn [serve_all].
    destruct (post_scores_player_rows db now fault body api_key game_id p)
      as [Hg Hrows].
    destruct (IH (snd (post_scores db now fault body api_key)))
      as [Hg' Hrows'].
    split; [congruence|].
    rewrite Hrows', Hrows, <- app_assoc. f_equal.
    unfold appended. cbn [flat_map]. f_equal.
    apply flat_map_ext. intros r. now apply appended_for_same_games.
Qed.

(** What a run adds passed validation. *)
Lemma appended_valid (db : Db) (game_id : Z) (p : str)
    (requests : list submission) :
  Forall (fun x => 0 <= fst x <= settings.max_score_value)
         (appended db game_id p requests).
Proof.
  unfold appended. apply Forall_flat_map, Forall_forall.
  intros [[[now fault] body] api_key] _. unfold appended_for.
  destruct (ScoreCreate.model_validate body) as [errs|sd] eqn:E;
    [constructor|].
  destruct (get_game_by_api_key db api_key); [|constructor].
  destruct fault; [constructor|].
  destruct (_ && _); constructor; [|constructor].
  simpl. destruct (model_validate_inr _ _ E) as (_ & -> & _ & H & _).
  exact H.
Qed.
End RunsOfSubmissions.

Section StatsProperties.
Context {R : Runtime}.

(** C3.  For a tenant resolved from the key and any ledger: the statistics
    of a player are answered with 404 exactly when the ledger holds no
    event of that player for the tenant.  Otherwise they are answered with
    200 and give, over the player's events of the tenant wherever they lie
    in the ledger, the number of events, the largest and the smallest
    score, the earliest and the latest time and, the scores being within
    the validated bounds, the mean rounded to two decimals: the binary64
    number nearest to k / 100, where k is the integer nearest to a hundred
    times the binary64 number nearest to sum / count, every tie going to
    even; no other float fits that description.  A run of requests to
    submit, whatever their keys, players, bodies and storage failures and
    in whatever order, leaves the key resolving as before and the player
    with the events of before followed by one event per submission
    accepted for the tenant and the player, with its score and its time;
    so when the player had no event and N >= 1 submissions for the tenant
    and the player are accepted during the run, the statistics give N and
    the largest, smallest, rounded mean, earliest and latest of what was
    submitted. *)
Theorem stats_not_found_or_aggregates (db : Db) (p api_key : str)
    (game : Game.t) :
  get_game_by_api_key db api_key = Some game ->
  (status_of (get_player_stats db p api_key) = 404
   <-> no_events db (Game.id game) p)
  /\ (~ no_events db (Game.id game) p ->
      let rows := player_rows db (Game.id game) p in
      exists st,
        get_player_stats db p api_key = Ok 200 st
        /\ PlayerStats.total_scores st = len rows
        /\ is_max (PlayerStats.best_score st) (map Score.score rows)
        /\ is_min (PlayerStats.worst_score st) (map Score.score rows)
        /\ is_min (PlayerStats.first_played st) (map Score.created_at rows)
        /\ is_max (PlayerStats.last_played st) (map Score.created_at rows)
        /\ (Forall (fun s => 0 <= Score.score s <= settings.max_score_value)
                   rows ->
            len rows <= 2 ^ 1022 ->
            mean_rounded_to_2 (map Score.score rows)
                              (PlayerStats.average_score st)
            /\ forall f, mean_rounded_to_2 (map Score.score rows) f ->
                         f = PlayerStats.average_score st))
  /\ forall requests : list submission,
       let db' := serve_all db requests in
       let added := appended db (Game.id game) p requests in
       get_game_by_api_key db' api_key = Some game
       /\ map score_and_time (player_rows db' (Game.id game) p)
          = map score_and_time (player_rows db (Game.id game) p) ++ added
       /\ (no_events db (Game.id game) p ->
           added <> [] ->
           len added <= 2 ^ 1022 ->
           exists st,
             get_player_stats db' p api_key = Ok 200 st
             /\ PlayerStats.total_scores st = len added
             /\ is_max (PlayerStats.best_score st) (map fst added)
             /\ is_min (PlayerStats.worst_score st) (map fst added)
             /\ mean_rounded_to_2 (map fst added)
                                  (PlayerStats.average_score st)
             /\ (forall f, mean_rounded_to_2 (map fst added) f ->
                           f = PlayerStats.average_score st)
             /\ is_min (PlayerStats.first_played st) (map snd added)
             /\ is_max (PlayerStats.last_played st) (map snd added)).
Proof.
  intros Hgame. split; [|split].
  - rewrite <- player_rows_nil.
    destruct (player_rows db (Game.id game) p) as [|s l] eqn:E.
    + rewrite (get_player_stats_missing db p api_key game Hgame E).
      simpl. tauto.
    + destruct (get_player_stats_found db p api_key game Hgame)
        as (st & Hst & _); [rewrite E; discriminate|].
      rewrite Hst. simpl. split; [lia | discriminate].
  - intros Hev. cbv zeta.
    assert (Hrows : player_rows db (Game.id game) p <> []).
    { intros Hnil. apply Hev. now apply player_rows_nil. }
    destruct (get_player_stats_found db p api_key game Hgame Hrows)
      as (st & Hst & Hprops).
    cbv zeta in Hprops.
    destruct Hprops as (_ & _ & Htot & Hbest & Hworst & Havg & Hfirst
                        & Hlast & _).
    exists st. split; [exact Hst|]. split; [exact Htot|].
    split; [exact Hbest|]. split; [exact Hworst|].
    split; [exact Hfirst|]. split; [exact Hlast|].
    intros Hvalid Hlen. apply rounded_mean_characterised.
    + destruct (player_rows db (Game.id game) p); [congruence|discriminate].
    + now apply Forall_map.
    + unfold len in *. now rewrite length_map.
    + exact Havg.
  - intros requests. cbv zeta.
    destruct (serve_all_player_rows (Game.id game) p requests db)
      as [Hgames Hrun].
    assert (Hgame' : get_game_by_api_key (serve_all db requests) api_key
                     = Some game).
    { rewrite <- Hgame. now apply get_game_same_games. }
    split; [exact Hgame'|]. split; [exact Hrun|].
    intros Hno Hadded Hlen.
    apply player_rows_nil in Hno. rewrite Hno in Hrun. simpl in Hrun.
    set (added := appended db (Game.id game) p requests) in *.
    set (rows := player_rows (serve_all db requests) (Game.id game) p) in *.
    assert (Hsc : map Score.score rows = map fst added).
    { rewrite <- Hrun, map_map. reflexivity. }
    assert (Hts : map Score.created_at rows = map snd added).
    { rewrite <- Hrun, map_map. reflexivity. }
    assert (Hlenrows : len rows = len added).
    { unfold len. now rewrite <- Hrun, length_map. }
    assert (Hrows : rows <> []).
    { intros Hnil. rewrite Hnil in Hrun. simpl in Hrun. congruence. }
    destruct (get_player_stats_found (serve_all db requests) p api_key game
                Hgame' Hrows) as (st & Hst & Hprops).
    cbv zeta in Hprops. fold rows in Hprops.
    destruct Hprops as (_ & _ & Htot & Hbest & Hworst & Havg & Hfirst
                        & Hlast & _).
    rewrite Hsc in Hbest, Hworst, Havg. rewrite Hts in Hfirst, Hlast.
    rewrite Hlenrows in Htot.
    destruct (rounded_mean_characterised (map fst added)
                (PlayerStats.average_score st)) as [Hmean Huniq].
    + destruct added; [congruence|discriminate].
    + apply Forall_map. apply appended_valid.
    + unfold len in *. now rewrite length_map.
    + exact Havg.
    + exists st. split; [exact Hst|]. split; [exact Htot|].
      split; [exact Hbest|]. split; [exact Hworst|].
      split; [exact Hmean|]. split; [exact Huniq|].
      split; [exact Hfirst | exact Hlast].
Qed.

(** C4.  For a tenant resolved from the key and a player with an event,
    the statistics are answered 200; their best score is the largest score
    among the player's events in the tenant's ledger; their rank is one
    more than the number of distinct other players of the tenant that have
    an event scoring strictly more than that best score; hence every
    player of the tenant whose largest score is the same is given the same
    rank. *)
Theorem stats_rank_counts_better_players (db : Db) (p api_key : str)
    (game : Game.t) :
  get_game_by_api_key db api_key = Some game ->
  ~ no_events db (Game.id game) p ->
  exists st,
    get_player_stats db p api_key = Ok 200 st
    /\ maximum_over (events_of_player db (Game.id game) p) Score.score
                    (PlayerStats.best_score st)
    /\ (forall others,
          distinct_players
            (better_events db (Game.id game) p (PlayerStats.best_score st))
            others ->
          PlayerStats.rank st = Some (len others + 1))
    /\ (forall q,
          maximum_over (events_of_player db (Game.id game) q) Score.score
                       (PlayerStats.best_score st) ->
          exists st',
            get_player_stats db q api_key = Ok 200 st'
            /\ PlayerStats.best_score st' = PlayerStats.best_score st
            /\ PlayerStats.rank st' = PlayerStats.rank st).
Proof.
  intros Hgame Hsome. rewrite <- player_rows_nil in Hsome.
  destruct (get_player_stats_found db p api_key game Hgame Hsome)
    as (st & Hst & Hprops). cbv zeta in Hprops.
  destruct Hprops as (_ & _ & _ & Hbest & _ & _ & _ & _ & Hrank).
  exists st. split; [exact Hst|].
  split; [now apply player_rows_maximum|]. split; [exact Hrank|].
  intros q Hq.
  destruct (get_player_stats_found db q api_key game Hgame)
    as (st' & Hst' & Hprops').
  { destruct Hq as [(s & Hs & _) _]. apply In_player_rows in Hs.
    intros Hnil. rewrite Hnil in Hs. destruct Hs. }
  cbv zeta in Hprops'.
  destruct Hprops' as (_ & _ & _ & Hbest' & _ & _ & _ & _ & Hrank').
  assert (Heq : PlayerStats.best_score st' = PlayerStats.best_score st).
  { apply player_rows_maximum in Hbest'.
    exact (maximum_over_unique _ _ _ _ Hbest' Hq). }
  exists st'. split; [exact Hst'|]. split; [exact Heq|].
  set (b := PlayerStats.best_score st) in *.
  destruct (better_players_of db (Game.id game) p b) as (others & Hp).
  rewrite (Hrank _ Hp). rewrite Heq in Hrank'. apply Hrank'.
  eapply distinct_players_ext; [|exact Hp]. intros ev.
  unfold better_events. split; intros (Hin & Hg & Hn & Hlt);
    (split; [assumption|]; split; [assumption|]; split; [|assumption]);
    intros Hname.
  - destruct Hq as [_ Hub]. assert (Score.score ev <= b); [|lia].
    apply Hub. unfold events_of_player. auto.
  - destruct Hbest as [_ Hub].
    assert (Score.score ev <= b); [|lia].
    apply Hub, in_map. apply In_player_rows. auto.
Qed.
End StatsProperties.

(** ** Credentials *)

Section Credentials.
Context {R : Runtime}.

Lemma first_verified_none (api_key : str) (l : list Game.t) :
  first_verified api_key l = None
  <-> Forall (fun g => Game.api_key_hash g <> hash_api_key api_key) l.
Proof.
  induction l as [|g l IH]; simpl.
  - split; [constructor | reflexivity].
  - unfold verify_api_key.
    destruct (str_eqb (hash_api_key api_key) (Game.api_key_hash g)) eqn:E.
    + apply str_eqb_true in E. split; [discriminate|].
      intros H. inversion H; subst. congruence.
    + apply str_eqb_false in E. rewrite IH. split.
      * intros H. constructor; [congruence | assumption].
      * intros H. now inversion H.
Qed.

Lemma first_verified_some (api_key : str) (l : list Game.t) (game : Game.t) :
  first_verified api_key l = Some game
  <-> exists before after,
        l = before ++ game :: after
        /\ Game.api_key_hash game = hash_api_key api_key
        /\ Forall (fun g => Game.api_key_hash g <> hash_api_key api_key)
                  before.
Proof.
  induction l as [|g l IH]; simpl.
  - split; [discriminate|]. intros (before & after & H & _).
    destruct before; discriminate.
  - unfold verify_api_key.
    destruct (str_eqb (hash_api_key api_key) (Game.api_key_hash g)) eqn:E.
    + apply str_eqb_true in E. split.
      * intros [= <-]. exists [], l. auto.
      * intros (before & after & Hl & Hh & Hb).
        destruct before as [|g' before]; simpl in Hl.
        -- now injection Hl as <- _.
        -- injection Hl as <- _. inversion Hb; subst. congruence.
    + apply str_eqb_false in E. rewrite IH. split.
      * intros (before & after & -> & Hh & Hb).
        exists (g :: before), after. simpl. repeat split; auto.
      * intros (before & after & Hl & Hh & Hb).
        destruct before as [|g' before]; simpl in Hl.
        -- injection Hl as <- _. congruence.
        -- injection Hl as <- ->. inversion Hb; subst.
           exists before, after. auto.
Qed.

Lemma unique_hash_resolves (l : list Game.t) (api_key : str)
    (game : Game.t) :
  NoDup (map Game.api_key_hash l) ->
  In game l ->
  Game.api_key_hash game = hash_api_key api_key ->
  first_verified api_key l = Some game.
Proof.
  induction l as [|g l IH]; simpl; intros Hnd Hin Hh; [destruct Hin|].
  inversion Hnd as [|? ? Hnotin Hnd']; subst. unfold verify_api_key.
  destruct Hin as [->|Hin].
  - now rewrite Hh, str_eqb_refl.
  - destruct (str_eqb (hash_api_key api_key) (Game.api_key_hash g)) eqn:E.
    + apply str_eqb_true in E. exfalso. apply Hnotin.
      rewrite <- E, <- Hh. now apply in_map.
    + now apply IH.
Qed.

(** The handlers keep the unique constraint: a game is added only with a
    hash that no stored game has, and a submission leaves [games] alone. *)
Lemma create_game_keeps_unique_hashes (db : Db) (now : datetime)
    (token : str) (fault : option Exception) (game : GameCreate.t) :
  unique_hashes db ->
  unique_hashes (snd (create_game db now token fault game)).
Proof.
  intros Hu. unfold create_game, commit_game.
  destruct fault as [e|]; [exact Hu|].
  destruct (existsb _ (games db)) eqn:E; [exact Hu|].
  unfold unique_hashes. simpl. rewrite map_app. simpl.
  apply (Permutation_NoDup (Permutation_cons_append _ _)).
  constructor; [|exact Hu].
  intros Hin. apply in_map_iff in Hin. destruct Hin as (g & Hh & Hg).
  assert (Hex : existsb (fun g => str_eqb (Game.api_key_hash g)
                                    (hash_api_key (generate_api_key token)))
                        (games db) = true).
  { apply existsb_exists. exists g. split; [exact Hg|]. now apply str_eqb_true. }
  congruence.
Qed.

Lemma submit_score_keeps_unique_hashes (db : Db) (now : datetime)
    (fault : option Exception) (score_data : ScoreCreate.t) (api_key : str) :
  unique_hashes db ->
  unique_hashes (snd (submit_score db now fault score_data api_key)).
Proof.
  intros Hu. unfold submit_score.
  destruct (get_game_by_api_key db api_key); [|exact Hu].
  unfold commit_score. destruct fault; exact Hu.
Qed.

(** C5.  In a database that satisfies the unique constraint on the stored
    hashes: a tenant whose stored hash is the hash of a raw key is the
    tenant that key resolves to; resolution returns the first tenant, in
    table order, whose stored hash equals the hash of the presented key,
    and none (answered 401) exactly when no stored hash equals it; and a
    game created with a fresh key is what the returned key resolves to
    afterwards, the constraint being kept. *)
Theorem issued_key_resolves_to_its_tenant (db : Db) :
  unique_hashes db ->
  (forall api_key game,
      In game (games db) ->
      Game.api_key_hash game = hash_api_key api_key ->
      get_game_by_api_key db api_key = Some game)
  /\ (forall api_key game,
        get_game_by_api_key db api_key = Some game
        <-> exists before after,
              games db = before ++ game :: after
              /\ Game.api_key_hash game = hash_api_key api_key
              /\ Forall (fun g => Game.api_key_hash g
                                  <> hash_api_key api_key) before)
  /\ (forall api_key,
        (get_game_by_api_key db api_key = None
         <-> Forall (fun g => Game.api_key_hash g <> hash_api_key api_key)
                    (games db))
        /\ (get_game_by_api_key db api_key = None ->
            get_current_game db api_key
            = HTTPException 401 (pystr "Invalid API key")))
  /\ (forall now token game,
        ~ In (hash_api_key (generate_api_key token))
             (map Game.api_key_hash (games db)) ->
        exists resp db' db_game,
          create_game db now token None game = (Ok 201 resp, db')
          /\ unique_hashes db'
          /\ games db' = games db ++ [db_game]
          /\ Game.id db_game = GameResponse.id resp
          /\ Game.name db_game = GameCreate.name game
          /\ get_game_by_api_key db' (GameResponse.api_key resp)
             = Some db_game).
Proof.
  intros Huniq. split; [|split; [|split]].
  - intros api_key game Hin Hh. now apply unique_hash_resolves.
  - intros api_key game. apply first_verified_some.
  - intros api_key. split; [apply first_verified_none|].
    intros Hnone. unfold get_current_game. now rewrite Hnone.
  - intros now token game Hfresh. unfold create_game, commit_game.
    destruct (existsb _ (games db)) eqn:E.
    { exfalso. apply Hfresh. apply existsb_exists in E.
      destruct E as (g & Hg & Heq). apply str_eqb_true in Heq.
      rewrite <- Heq. now apply in_map. }
    do 3 eexists. split; [reflexivity|].
    assert (Hu : unique_hashes
              {| games := games db ++
                   [{| Game.id := next_id (map Game.id (games db));
                       Game.name := GameCreate.name game;
                       Game.description := GameCreate.description game;
                       Game.api_key_hash :=
                         hash_api_key (generate_api_key token);
                       Game.created_at := now |}];
                 scores := scores db |}).
    { unfold unique_hashes. simpl. rewrite map_app. simpl.
      apply (Permutation_NoDup (Permutation_cons_append _ _)).
      now constructor. }
    split; [exact Hu|]. simpl. repeat split.
    apply unique_hash_resolves; [exact Hu | | reflexivity].
    apply in_or_app. right. now left.
Qed.
End Credentials.

(** ** Time windows *)

(** C7.  The period of a leaderboard request resolves to this lower bound
    on the timestamps: "today" to the midnight that starts the current day,
    "week" to now minus 7 days, "month" to now minus 30 days, "year" to now
    minus 365 days; an absent period and any other string give no bound.
    With a bound the events in scope are the tenant's events at or after
    it, without one all the tenant's events. *)
Theorem period_resolves_to_window (now : datetime) :
  (get_date_filter now (Some (pystr "today")) = Some (replace_midnight now)
   /\ replace_midnight now mod microseconds_per_day = 0
   /\ replace_midnight now <= now < replace_midnight now + microseconds_per_day)
  /\ get_date_filter now (Some (pystr "week"))
     = Some (now - 7 * microseconds_per_day)
  /\ get_date_filter now (Some (pystr "month"))
     = Some (now - 30 * microseconds_per_day)
  /\ get_date_filter now (Some (pystr "year"))
     = Some (now - 365 * microseconds_per_day)
  /\ get_date_filter now None = None
  /\ (forall period,
        ~ In period [pystr "today"; pystr "week"; pystr "month"; pystr "year"] ->
        get_date_filter now (Some period) = None)
  /\ (forall db game_id period s,
        In s (filter (in_scope game_id (get_date_filter now period))
                     (scores db))
        <-> In s (scores db) /\ Score.game_id s = game_id
            /\ match get_date_filter now period with
               | Some start => start <= Score.created_at s
               | None => True
               end).
Proof.
  split; [split; [reflexivity|]|].
  - unfold replace_midnight, microseconds_per_day.
    pose proof (Z.mod_pos_bound now 86400000000 ltac:(lia)) as Hb.
    split; [|lia].
    rewrite Zminus_mod, Zmod_mod, Z.sub_diag. reflexivity.
  - do 4 (split; [reflexivity|]). split.
    + intros period Hnot. simpl in Hnot. unfold get_date_filter.
      destruct period as [|c period]; [reflexivity|].
      repeat match goal with
             | |- context [str_eqb ?a ?b] =>
                 let E := fresh "E" in
                 destruct (str_eqb a b) eqn:E;
                 [apply str_eqb_true in E; exfalso; apply Hnot; rewrite E; tauto|]
             end.
      reflexivity.
    + intros db game_id period s. apply in_scope_qualifying.
Qed.

(** ** Tenant isolation *)

Lemma filter_andb {A : Type} (f g : A -> bool) (l : list A) :
  filter (fun x => f x && g x) l = filter g (filter f l).
Proof.
  induction l as [|x l IH]; simpl; [reflexivity|].
  destruct (f x); simpl; [destruct (g x)|]; now rewrite IH.
Qed.

Lemma in_scope_of_tenant (db : Db) (game_id : Z) (window : option datetime) :
  filter (in_scope game_id window) (scores db)
  = filter (fun s => match window with
                     | Some d => d <=? Score.created_at s
                     | None => true
                     end)
           (tenant_events db game_id).
Proof. unfold in_scope, tenant_events. apply filter_andb. Qed.

Lemma same_row_fields (a b : Score.t) :
  same_row a b ->
  Score.game_id a = Score.game_id b
  /\ Score.player_name a = Score.player_name b
  /\ Score.score a = Score.score b
  /\ Score.created_at a = Score.created_at b.
Proof. unfold same_row, row_content. intros [= -> -> -> _ ->]. auto. Qed.

Lemma same_rows_of_map (l1 : list Score.t) :
  forall l2, map row_content l1 = map row_content l2 -> Forall2 same_row l1 l2.
Proof.
  induction l1 as [|a l1 IH]; intros [|b l2] H;
    try discriminate; [constructor|].
  change (row_content a :: map row_content l1
          = row_content b :: map row_content l2) in H.
  constructor; [unfold same_row; congruence | apply IH; congruence].
Qed.

Lemma same_rows_filter (f : Score.t -> bool) (l1 l2 : list Score.t) :
  (forall a b, same_row a b -> f a = f b) ->
  Forall2 same_row l1 l2 -> Forall2 same_row (filter f l1) (filter f l2).
Proof.
  intros Hf. induction 1 as [|a b l1 l2 Hab _ IH]; simpl; [constructor|].
  rewrite (Hf a b Hab). destruct (f b); [now constructor | exact IH].
Qed.

Lemma same_rows_map {B : Type} (g : Score.t -> B) (l1 l2 : list Score.t) :
  (forall a b, same_row a b -> g a = g b) ->
  Forall2 same_row l1 l2 -> map g l1 = map g l2.
Proof.
  intros Hg. induction 1 as [|a b l1 l2 Hab _ IH]; simpl; [reflexivity|].
  now rewrite (Hg a b Hab), IH.
Qed.

Lemma same_row_aggregate (a b : Score.t) (groups : list Row.t) :
  same_row a b -> aggregate a groups = aggregate b groups.
Proof.
  intros Hab. destruct (same_row_fields _ _ Hab) as (_ & Hn & Hs & Hc).
  induction groups as [|g gs IH]; simpl; rewrite Hn, Hs, Hc;
    [reflexivity|].
  destruct (str_eqb (Row.player_name g) (Score.player_name b));
    [reflexivity | now rewrite IH].
Qed.

Lemma same_rows_groups (l1 l2 : list Score.t) :
  Forall2 same_row l1 l2 ->
  group_by_player_name l1 = group_by_player_name l2.
Proof.
  intros H. unfold group_by_player_name. generalize (@nil Row.t).
  induction H as [|a b l1 l2 Hab _ IH]; intros acc; simpl; [reflexivity|].
  rewrite (same_row_aggregate a b acc Hab). apply IH.
Qed.

Section Isolation.
Context {R : Runtime}.

Lemma leaderboard_of_tenant (db1 db2 : Db) (now : datetime) (limit : Z)
    (period : option str) (api_key : str) (game : Game.t) :
  get_game_by_api_key db1 api_key = Some game ->
  get_game_by_api_key db2 api_key = Some game ->
  map row_content (tenant_events db1 (Game.id game))
  = map row_content (tenant_events db2 (Game.id game)) ->
  get_leaderboard db1 now limit period api_key
  = get_leaderboard db2 now limit period api_key.
Proof.
  intros H1 H2 Heq. apply same_rows_of_map in Heq.
  unfold get_leaderboard. rewrite H1, H2. rewrite !in_scope_of_tenant.
  set (inside := fun s : Score.t =>
                   match get_date_filter now period with
                   | Some d => d <=? Score.created_at s
                   | None => true
                   end).
  assert (Hrows : Forall2 same_row
                    (filter inside (tenant_events db1 (Game.id game)))
                    (filter inside (tenant_events db2 (Game.id game)))).
  { apply same_rows_filter; [|exact Heq]. intros a b Hab.
    destruct (same_row_fields _ _ Hab) as (_ & _ & _ & Hc).
    unfold inside. now rewrite Hc. }
  rewrite (same_rows_groups _ _ Hrows).
  rewrite (same_rows_map Score.player_name _ _
             (fun a b Hab => proj1 (proj2 (same_row_fields a b Hab))) Hrows).
  reflexivity.
Qed.

Lemma player_stats_of_tenant (db1 db2 : Db) (p api_key : str)
    (game : Game.t) :
  get_game_by_api_key db1 api_key = Some game ->
  get_game_by_api_key db2 api_key = Some game ->
  map row_content (tenant_events db1 (Game.id game))
  = map row_content (tenant_events db2 (Game.id game)) ->
  get_player_stats db1 p api_key = get_player_stats db2 p api_key.
Proof.
  intros H1 H2 Heq. apply same_rows_of_map in Heq.
  unfold get_player_stats. rewrite H1, H2.
  rewrite !(filter_andb (fun s => Score.game_id s =? Game.id game)).
  fold (tenant_events db1 (Game.id game)).
  fold (tenant_events db2 (Game.id game)).
  set (T1 := tenant_events db1 (Game.id game)) in *.
  set (T2 := tenant_events db2 (Game.id game)) in *.
  assert (Hname : forall a b, same_row a b ->
                    Score.player_name a = Score.player_name b)
    by (intros a b Hab; apply (same_row_fields a b Hab)).
  assert (Hscore : forall a b, same_row a b -> Score.score a = Score.score b)
    by (intros a b Hab; apply (same_row_fields a b Hab)).
  assert (Htime : forall a b, same_row a b ->
                    Score.created_at a = Score.created_at b)
    by (intros a b Hab; apply (same_row_fields a b Hab)).
  assert (Hbetter : forall best,
             map Score.player_name
               (filter (fun s => Score.score s >? best)
                  (filter (fun s => negb (str_eqb (Score.player_name s) p)) T1))
             = map Score.player_name
                 (filter (fun s => Score.score s >? best)
                    (filter (fun s => negb (str_eqb (Score.player_name s) p))
                            T2))).
  { intros best. apply same_rows_map; [exact Hname|].
    apply same_rows_filter; [intros a b Hab; now rewrite (Hscore a b Hab)|].
    apply same_rows_filter; [intros a b Hab; now rewrite (Hname a b Hab)|].
    exact Heq. }
  assert (Hmine : Forall2 same_row
                    (filter (fun s => str_eqb (Score.player_name s) p) T1)
                    (filter (fun s => str_eqb (Score.player_name s) p) T2)).
  { apply same_rows_filter; [|exact Heq].
    intros a b Hab. now rewrite (Hname a b Hab). }
  destruct Hmine as [|a b P1 P2 Hab Hrest]; [reflexivity|].
  pose proof (Forall2_length Hrest) as Hlen.
  pose proof (same_rows_map Score.score _ _ Hscore Hrest) as Hs.
  pose proof (same_rows_map Score.created_at _ _ Htime Hrest) as Ht.
  simpl map. unfold len. simpl length. rewrite !length_map.
  rewrite (Hscore a b Hab), (Htime a b Hab), Hs, Ht, Hlen, Hbetter.
  reflexivity.
Qed.

Lemma post_scores_effect (db : Db) (now : datetime)
    (fault : option Exception) (body : ScoreCreate.t) (api_key : str) :
  games (snd (post_scores db now fault body api_key)) = games db
  /\ (scores (snd (post_scores db now fault body api_key)) = scores db
      \/ exists ev owner,
           scores (snd (post_scores db now fault body api_key))
           = scores db ++ [ev]
           /\ get_game_by_api_key db api_key = Some owner
           /\ Score.game_id ev = Game.id owner).
Proof.
  unfold post_scores.
  destruct (ScoreCreate.model_validate body) as [errs|sd]; [now split; [|left]|].
  unfold submit_score.
  destruct (get_game_by_api_key db api_key) as [owner|]; [|now split; [|left]].
  destruct fault as [e|]; simpl; [now split; [|left]|].
  split; [reflexivity|]. right. do 2 eexists. repeat split; reflexivity.
Qed.

(** C9.  Every handler works for the tenant the key resolves to.  Two
    databases in which the key resolves to the same tenant and whose
    ledgers say the same for that tenant (the same events in the same
    order, whatever their row ids, which are drawn from one counter for
    all tenants) give the same leaderboard (entries and total) and the same
    statistics, whatever events of other tenants they hold; in
    particular a request to submit under a key of another tenant, whatever
    its outcome, changes neither answer; a submission stores one event, owned by the resolved tenant, and
    leaves the events of every other tenant as they were; and when the
    key resolves to no tenant the three handlers answer 401 and the
    database is unchanged. *)
Theorem handlers_scoped_to_resolved_tenant (api_key : str) :
  (forall db1 db2 game,
      get_game_by_api_key db1 api_key = Some game ->
      get_game_by_api_key db2 api_key = Some game ->
      map row_content (tenant_events db1 (Game.id game))
      = map row_content (tenant_events db2 (Game.id game)) ->
      (forall now limit period,
          get_leaderboard db1 now limit period api_key
          = get_leaderboard db2 now limit period api_key)
      /\ (forall p,
            get_player_stats db1 p api_key = get_player_stats db2 p api_key))
  /\ (forall db game now fault body other_key,
        get_game_by_api_key db api_key = Some game ->
        (forall owner, get_game_by_api_key db other_key = Some owner ->
                       Game.id owner <> Game.id game) ->
        let db' := snd (post_scores db now fault body other_key) in
        (forall now' limit period,
            get_leaderboard db' now' limit period api_key
            = get_leaderboard db now' limit period api_key)
        /\ (forall p,
              get_player_stats db' p api_key = get_player_stats db p api_key))
  /\ (forall db game now score_data,
        get_game_by_api_key db api_key = Some game ->
        exists ev,
          snd (submit_score db now None score_data api_key)
          = {| games := games db; scores := scores db ++ [ev] |}
          /\ Score.game_id ev = Game.id game
          /\ forall other, other <> Game.id game ->
               tenant_events
                 (snd (submit_score db now None score_data api_key)) other
               = tenant_events db other)
  /\ (forall db,
        get_game_by_api_key db api_key = None ->
        (forall now fault score_data,
            submit_score db now fault score_data api_key
            = (HTTPException 401 (pystr "Invalid API key"), db))
        /\ (forall now limit period,
              get_leaderboard db now limit period api_key
              = HTTPException 401 (pystr "Invalid API key"))
        /\ (forall p,
              get_player_stats db p api_key
              = HTTPException 401 (pystr "Invalid API key"))).
Proof.
  split; [|split; [|split]].
  - intros db1 db2 game H1 H2 Heq. split.
    + intros now limit period. now apply (leaderboard_of_tenant _ _ _ _ _ _ game).
    + intros p. now apply (player_stats_of_tenant _ _ _ _ game).
  - intros db game now fault body other_key Hgame Hother db'.
    destruct (post_scores_effect db now fault body other_key)
      as [Hgames Hscores]. fold db' in Hgames, Hscores.
    assert (Hgame' : get_game_by_api_key db' api_key = Some game)
      by (rewrite <- Hgame; now apply get_game_same_games).
    assert (Heq : tenant_events db' (Game.id game)
                  = tenant_events db (Game.id game)).
    { unfold tenant_events.
      destruct Hscores as [->|(ev & owner & -> & Hown & Hid)];
        [reflexivity|].
      rewrite filter_app. simpl. rewrite Hid.
      destruct (Game.id owner =? Game.id game) eqn:E;
        [apply Z.eqb_eq in E; now destruct (Hother owner Hown)
        | apply app_nil_r]. }
    split.
    + intros now' limit period.
      apply (leaderboard_of_tenant _ _ _ _ _ _ game Hgame' Hgame).
      now rewrite Heq.
    + intros p. apply (player_stats_of_tenant _ _ _ _ game Hgame' Hgame).
      now rewrite Heq.
  - intros db game now score_data Hgame.
    destruct (submit_score_stored db now score_data api_key game Hgame)
      as (id & Hdb & _).
    eexists. split; [exact Hdb|]. split; [reflexivity|].
    intros other Hother. rewrite Hdb. unfold tenant_events. simpl.
    rewrite filter_app. simpl.
    destruct (Game.id game =? other) eqn:E;
      [apply Z.eqb_eq in E; congruence | apply app_nil_r].
  - intros db Hnone. repeat split.
    + intros now fault score_data. unfold submit_score. now rewrite Hnone.
    + intros now limit period. unfold get_leaderboard. now rewrite Hnone.
    + intros p. unfold get_player_stats. now rewrite Hnone.
Qed.
End Isolation.

(** ** Exact matching of player names *)

Section NameMatching.
Context {R : Runtime}.

(** C10.  A valid submission is stored under its trimmed player name, and
    the statistics match their argument against the stored names by
    equality of strings: after the submission the trimmed name is found
    (200), and every name that differs from all names stored for the
    tenant is answered 404, whatever its trimmed or case-folded form. *)
Theorem stats_match_stored_names_exactly (db : Db) (now : datetime)
    (body score_data : ScoreCreate.t) (api_key : str) (game : Game.t) :
  get_game_by_api_key db api_key = Some game ->
  ScoreCreate.model_validate body = inr score_data ->
  let db' := snd (post_scores db now None body api_key) in
  let stored := strip (ScoreCreate.player_name body) in
  (exists ev,
      scores db' = scores db ++ [ev]
      /\ Score.game_id ev = Game.id game
      /\ Score.player_name ev = stored)
  /\ status_of (get_player_stats db' stored api_key) = 200
  /\ (forall q,
        (forall s, In s (scores db') -> Score.game_id s = Game.id game ->
                   Score.player_name s <> q) ->
        status_of (get_player_stats db' q api_key) = 404).
Proof.
  intros Hgame Hvalid db' stored.
  destruct (model_validate_inr _ _ Hvalid) as (Hname & _).
  destruct (submit_score_stored db now score_data api_key game Hgame)
    as (id & Hdb & _).
  assert (Hdb' : db' = snd (submit_score db now None score_data api_key)).
  { unfold db', post_scores. now rewrite Hvalid. }
  rewrite Hdb in Hdb'.
  assert (Hgame' : get_game_by_api_key db' api_key = Some game).
  { rewrite <- Hgame. apply get_game_same_games. now rewrite Hdb'. }
  split; [|split].
  - eexists. rewrite Hdb'. simpl. split; [reflexivity|].
    split; [reflexivity | exact Hname].
  - destruct (get_player_stats_found db' stored api_key game Hgame')
      as (st & Hst & _); [|now rewrite Hst].
    intros Hnil. apply player_rows_nil in Hnil.
    eapply (Hnil _); [rewrite Hdb'; simpl; apply in_or_app; right; now left
                     | reflexivity | exact Hname].
  - intros q Hq.
    rewrite (get_player_stats_missing db' q api_key game Hgame');
      [reflexivity|].
    now apply player_rows_nil.
Qed.
End NameMatching.

(** ** Rejected submissions *)

Lemma lstrip_keeps (v : str) (c : N) :
  In c v -> py_isspace c = false -> In c (lstrip v).
Proof.
  induction v as [|a v IH]; simpl; intros Hin Hc; [assumption|].
  destruct (py_isspace a) eqn:Ea; [|exact Hin].
  destruct Hin as [->|Hin]; [congruence | now apply IH].
Qed.

Lemma strip_keeps (v : str) (c : N) :
  In c v -> py_isspace c = false -> In c (strip v).
Proof.
  intros Hin Hc. unfold strip, rstrip.
  apply in_rev. rewrite rev_involutive.
  apply lstrip_keeps; [|assumption].
  apply -> in_rev. now apply lstrip_keeps.
Qed.

Lemma re_plus_dollar_true (cls : N -> bool) (v : str) :
  re_plus_dollar cls v = true ->
  forallb cls (removelast v) = true
  /\ forall c, last v c = c -> In c v -> cls c = true \/ c = 10%N.
Proof.
  induction v as [|a v IH]; [simpl; intros _; split; [reflexivity | intros c _ []]|].
  destruct v as [|b v].
  - simpl. rewrite orb_true_iff, N.eqb_eq. intros H. split; [reflexivity|].
    intros c _ [<-|[]]. exact H.
  - change (re_plus_dollar cls (a :: b :: v))
      with (cls a && re_plus_dollar cls (b :: v)).
    rewrite andb_true_iff. intros [Ha Hrest].
    destruct (IH Hrest) as [Hall Hlast]. split.
    + change (removelast (a :: b :: v)) with (a :: removelast (b :: v)).
      simpl forallb. now rewrite Ha.
    + intros c Hc [<-|Hin]; [now left|].
      apply Hlast; [|assumption]. exact Hc.
Qed.

Lemma re_match_class_true (cls : N -> bool) (v : str) :
  re_match_class cls v = true ->
  v <> []
  /\ forallb cls (removelast v) = true
  /\ forall c, last v c = c -> In c v -> cls c = true \/ c = 10%N.
Proof.
  destruct v as [|a v]; [discriminate|]. simpl re_match_class.
  rewrite andb_true_iff. intros [Ha Hrest]. split; [discriminate|].
  destruct v as [|b v].
  - split; [reflexivity|]. intros c _ [<-|[]]. now left.
  - destruct (re_plus_dollar_true cls (b :: v) Hrest) as [Hall Hlast]. split.
    + change (removelast (a :: b :: v)) with (a :: removelast (b :: v)).
      simpl forallb. now rewrite Ha.
    + intros c Hc [<-|Hin]; [now left|]. now apply Hlast.
Qed.

Lemma In_removelast_or_last (v : str) (c : N) :
  In c v -> In c (removelast v) \/ last v c = c.
Proof.
  induction v as [|a v IH]; [intros []|].
  destruct v as [|b v].
  - intros [<-|[]]. now right.
  - intros [<-|Hin]; [left; now left|].
    destruct (IH Hin) as [H|H]; [left; now right | right; exact H].
Qed.

Section Rejection.
Context {R : Runtime}.

Lemma refused_key_no_match (key : str) :
  refused_key key -> re_match_class metadata_key_class key = false.
Proof.
  intros Hbad.
  destruct (re_match_class metadata_key_class key) eqn:E; [|reflexivity].
  exfalso. apply re_match_class_true in E. destruct E as (Hne & Hall & Hlast).
  destruct Hbad as [->|[(c & Hin & Hc)|(c & Hl & Hin & Hc & Hnl)]].
  - now apply Hne.
  - rewrite forallb_forall in Hall. rewrite (Hall c Hin) in Hc. discriminate.
  - destruct (Hlast c Hl Hin); congruence.
Qed.

Lemma player_name_outside_no_match (v : str) :
  has_char_outside player_name_class v ->
  re_match_class player_name_class (strip v) = false.
Proof.
  intros (c & Hin & Hc).
  assert (Hs : py_isspace c = false).
  { unfold player_name_class, re_space in Hc.
    rewrite !orb_false_iff in Hc. tauto. }
  pose proof (strip_keeps v c Hin Hs) as Hin'.
  destruct (re_match_class player_name_class (strip v)) eqn:E; [|reflexivity].
  exfalso. apply re_match_class_true in E. destruct E as (_ & Hall & Hlast).
  destruct (In_removelast_or_last _ _ Hin') as [Hr|Hl].
  - rewrite forallb_forall in Hall. rewrite (Hall c Hr) in Hc. discriminate.
  - destruct (Hlast c Hl Hin') as [H|H]; [congruence|].
    subst c. discriminate.
Qed.

Lemma validate_keys_refused (keys : list str) (key : str) :
  In key keys -> refused_key key ->
  forall u, ScoreCreate.validate_keys keys <> Valid u.
Proof.
  induction keys as [|k keys IH]; intros Hin Hbad u; [destruct Hin|].
  simpl. destruct (re_match_class metadata_key_class k) eqn:E; simpl.
  - destruct Hin as [->|Hin]; [|now apply IH].
    rewrite (refused_key_no_match _ Hbad) in E. discriminate.
  - discriminate.
Qed.

(** A refused submission is answered 422 and nothing is stored, whatever
    the key and the state of the storage. *)
Lemma refused_submission_rejected (db : Db) (now : datetime)
    (fault : option Exception) (body : ScoreCreate.t) (api_key : str) :
  refused_submission body ->
  exists errors,
    post_scores db now fault body api_key
    = (RequestValidationError errors, db).
Proof.
  intros Hbad.
  destruct (model_validate_inl body) as (errors & Herr).
  - destruct Hbad as [He|[Ho|[Hlen|[Hneg|[Hbig|(d & Hd & Hmeta)]]]]].
    + left. intros n Hn. apply check_player_name_valid in Hn.
      destruct Hn as (-> & Hne & _). contradiction.
    + left. intros n Hn. apply check_player_name_valid in Hn.
      destruct Hn as (-> & _ & _ & Hm).
      rewrite (player_name_outside_no_match _ Ho) in Hm. discriminate.
    + left. intros n Hn. apply check_player_name_valid in Hn.
      destruct Hn as (_ & _ & Hl & _). lia.
    + right. left. intros s Hs. apply check_score_valid in Hs. lia.
    + right. left. intros s Hs. apply check_score_valid in Hs. lia.
    + right. right. intros m. rewrite Hd. unfold ScoreCreate.validate_metadata.
      destruct Hmeta as [Hsize|(key & Hin & Hkey)].
      * apply Z.ltb_lt in Hsize. rewrite Hsize. discriminate.
      * destruct (settings.max_metadata_size <? len (json_dumps d));
          [discriminate|].
        destruct (ScoreCreate.validate_keys (map fst d)) as [u|] eqn:E;
          [|discriminate].
        now destruct (validate_keys_refused _ _ Hin Hkey u).
  - exists errors. unfold post_scores. now rewrite Herr.
Qed.

(** C6, at the input where the code departs from it.  A metadata key made
    of letters and a final newline has a character outside the class of
    word characters, hyphen and underscore, so the submission is invalid;
    yet it passes validation and the event is stored with that key. *)
Theorem metadata_key_ending_in_newline_is_stored (db : Db) (now : datetime)
    (api_key : str) (game : Game.t) :
  let key := pystr "level" ++ [10%N] in
  let body :=
    {| ScoreCreate.player_name := pystr "Alice";
       ScoreCreate.score := 1;
       ScoreCreate.game_metadata := Some [(key, JInt 1)] |} in
  get_game_by_api_key db api_key = Some game ->
  len (json_dumps [(key, JInt 1)]) <= settings.max_metadata_size ->
  invalid_submission body
  /\ exists resp ev,
       post_scores db now None body api_key
       = (Ok 201 resp, {| games := games db; scores := scores db ++ [ev] |})
       /\ Score.player_name ev = pystr "Alice"
       /\ Score.game_metadata ev = Some [(key, JInt 1)].
Proof.
  intros key body Hgame Hsize. split.
  - do 5 right. exists [(key, JInt 1)]. split; [reflexivity|]. right.
    exists key. split; [now left|]. exists 10%N. split; [|reflexivity].
    unfold key. apply in_or_app. right. now left.
  - assert (Hvalid : ScoreCreate.model_validate body = inr body).
    { apply Z.ltb_ge in Hsize.
      unfold ScoreCreate.model_validate, ScoreCreate.validate_metadata.
      unfold body at 3. cbn [ScoreCreate.game_metadata].
      rewrite Hsize. reflexivity. }
    unfold post_scores. rewrite Hvalid. unfold submit_score.
    rewrite Hgame. simpl. do 2 eexists. split; [reflexivity|].
    split; reflexivity.
Qed.
End Rejection.

(** ** Internal failures *)

Section Failures.
Context {R : Runtime}.

(** An uncaught failure of the storage in [submit_score] reaches the
    global handler, whose answer does not depend on the exception. *)
Lemma submit_score_failure_is_generic (db : Db) (now : datetime)
    (e : Exception) (score_data : ScoreCreate.t) (api_key : str)
    (game : Game.t) :
  get_game_by_api_key db api_key = Some game ->
  submit_score db now (Some e) score_data api_key
  = (JSONResponse 500
       [(pystr "detail",
         pystr "An internal error occurred. Please try again later.");
        (pystr "type", pystr "internal_error")],
     db).
Proof. intros Hgame. unfold submit_score. now rewrite Hgame. Qed.

(** C8, at the input where the code departs from it.  When the storage
    fails while a game is created, nothing is stored and the answer is a
    500 whose detail is "Failed to create game: " followed by the text of
    the exception; two failures with different texts are therefore
    answered differently. *)
Theorem create_game_failure_exposes_exception (db : Db) (now : datetime)
    (token : str) (game : GameCreate.t) (e : Exception) :
  create_game db now token (Some e) game
  = (HTTPException 500 (pystr "Failed to create game: " ++ exc_str e), db)
  /\ forall e',
       exc_str e <> exc_str e' ->
       fst (create_game db now token (Some e) game)
       <> fst (create_game db now token (Some e') game).
Proof.
  split; [reflexivity|]. intros e' Hne. unfold create_game. simpl.
  intros [= H]. apply Hne.
  now apply (app_inv_head (pystr "Failed to create game: ")).
Qed.
End Failures.

(** ** The properties on the scenario of the specification *)

Section Scenario.
#[local] Existing Instance demo_runtime.

(** The scenario of the specification: Bob, Alice, Charlie in this order,
    three distinct players, and Alice's statistics with the average
    1100.0 (the binary64 value 4837851162214400 * 2^-42). *)
Example scenario_leaderboard :
  get_leaderboard Demo.db 100 10 None (pystr "game_T")
  = Ok 200
      {| LeaderboardResponse.game_id := 1;
         LeaderboardResponse.game_name := pystr "Test Game";
         LeaderboardResponse.entries :=
           [{| LeaderboardEntry.rank := 1;
               LeaderboardEntry.player_name := pystr "Bob";
               LeaderboardEntry.score := 1500;
               LeaderboardEntry.created_at := 20 |};
            {| LeaderboardEntry.rank := 2;
               LeaderboardEntry.player_name := pystr "Alice";
               LeaderboardEntry.score := 1200;
               LeaderboardEntry.created_at := 40 |};
            {| LeaderboardEntry.rank := 3;
               LeaderboardEntry.player_name := pystr "Charlie";
               LeaderboardEntry.score := 900;
               LeaderboardEntry.created_at := 30 |}];
         LeaderboardResponse.total_entries := 3;
         LeaderboardResponse.period := None |}.
Proof. reflexivity. Qed.

Example scenario_stats :
  get_player_stats Demo.db (pystr "Alice") (pystr "game_T")
  = Ok 200
      {| PlayerStats.player_name := pystr "Alice";
         PlayerStats.game_id := 1;
         PlayerStats.total_scores := 2;
         PlayerStats.best_score := 1200;
         PlayerStats.average_score :=
           S754_finite false 4837851162214400 (-42);
         PlayerStats.worst_score := 1000;
         PlayerStats.rank := Some 2;
         PlayerStats.first_played := 10;
         PlayerStats.last_played := 40 |}.
Proof. vm_compute. reflexivity. Qed.

(** [round] on values whose decimal expansion is not exact in binary:
    [round(2.675, 2) = 2.67] and [round(1/200, 2) = 0.01], as in CPython. *)
Example round_samples :
  option_map (fun x => PyFloat.round x 2) (PyFloat.int_truediv 2675 1000)
  = PyFloat.int_truediv 267 100
  /\ option_map (fun x => PyFloat.round x 2) (PyFloat.int_truediv 1 200)
     = PyFloat.int_truediv 1 100.
Proof. split; vm_compute; reflexivity. Qed.

Lemma demo_key_resolves :
  get_game_by_api_key Demo.db (pystr "game_T") = Some Demo.T.
Proof. reflexivity. Defined.

Lemma leaderboard_entries_ranked_witness :
  get_game_by_api_key Demo.db (pystr "game_T") = Some Demo.T
  /\ 1 <= 2 <= 100
  /\ exists resp,
       get_leaderboard Demo.db 100 2 None (pystr "game_T") = Ok 200 resp
       /\ NoDup (map LeaderboardEntry.player_name
                     (LeaderboardResponse.entries resp))
       /\ StronglySorted desc_score (LeaderboardResponse.entries resp)
       /\ len (LeaderboardResponse.entries resp) = 2.
Proof.
  split; [reflexivity|]. split; [lia|].
  destruct (leaderboard_entries_ranked Demo.db 100 2 None (pystr "game_T")
              Demo.T demo_key_resolves ltac:(lia))
    as (resp & Hresp & Hnd & _ & Hsorted & _ & Hlen & _).
  exists resp. repeat split; try assumption.
  injection Hresp as <-. reflexivity.
Defined.

Lemma total_entries_counts_players_witness :
  get_game_by_api_key Demo.db (pystr "game_T") = Some Demo.T
  /\ 1 <= 2 <= 100
  /\ exists resp,
       get_leaderboard_route Demo.db 100 (Some 2) None (pystr "game_T")
       = Ok 200 resp
       /\ LeaderboardResponse.total_entries resp = 3.
Proof.
  split; [reflexivity|]. split; [lia|].
  destruct (total_entries_counts_players Demo.db 100 2 None (pystr "game_T")
              Demo.T demo_key_resolves ltac:(lia))
    as (resp & Hresp & _).
  exists resp. split; [exact Hresp|].
  injection Hresp as <-. reflexivity.
Defined.
Lemma demo_no_dana : no_events Demo.db 1 (pystr "Dana").
Proof.
  intros s Hin _. simpl in Hin.
  repeat (destruct Hin as [<-|Hin]; [discriminate|]). destruct Hin.
Defined.

Lemma demo_has_alice : ~ no_events Demo.db (Game.id Demo.T) (pystr "Alice").
Proof.
  intros Hno. apply (Hno (Demo.event 1 1 "Alice" 1000 10)).
  - simpl. now left.
  - reflexivity.
  - reflexivity.
Defined.

(** Closed arithmetic facts are settled by evaluation. *)
Ltac by_computation :=
  vm_compute; repeat split; intros; try discriminate; try reflexivity.

Lemma stats_not_found_or_aggregates_witness :
  get_game_by_api_key Demo.db (pystr "game_T") = Some Demo.T
  /\ status_of (get_player_stats Demo.db (pystr "Dana") (pystr "game_T"))
     = 404
  /\ (exists st,
        get_player_stats Demo.db (pystr "Alice") (pystr "game_T") = Ok 200 st
        /\ PlayerStats.total_scores st = 2
        /\ PlayerStats.best_score st = 1200
        /\ PlayerStats.worst_score st = 1000
        /\ PlayerStats.average_score st = Mixed.f1100
        /\ PlayerStats.first_played st = 10
        /\ PlayerStats.last_played st = 40)
  /\ appended Demo.db (Game.id Demo.T) (pystr "Dana") Mixed.requests
     = [(700, 50); (801, 60)]
  /\ exists st,
       get_player_stats (serve_all Demo.db Mixed.requests)
                        (pystr "Dana") (pystr "game_T") = Ok 200 st
       /\ PlayerStats.total_scores st = 2
       /\ PlayerStats.best_score st = 801
       /\ PlayerStats.worst_score st = 700
       /\ PlayerStats.average_score st = Mixed.f750_5
       /\ PlayerStats.first_played st = 50
       /\ PlayerStats.last_played st = 60.
Proof.
  split; [reflexivity|].
  destruct (stats_not_found_or_aggregates Demo.db (pystr "Dana")
              (pystr "game_T") Demo.T demo_key_resolves)
    as (Hiff & _ & Hrun).
  split; [apply Hiff; exact demo_no_dana|].
  split.
  - destruct (stats_not_found_or_aggregates Demo.db (pystr "Alice")
                (pystr "game_T") Demo.T demo_key_resolves)
      as (_ & Hfound & _).
    destruct (Hfound demo_has_alice)
      as (st & Hst & Htot & Hbest & Hworst & Hfirst & Hlast & Havg).
    change (player_rows Demo.db (Game.id Demo.T) (pystr "Alice"))
      with [Demo.event 1 1 "Alice" 1000 10; Demo.event 5 1 "Alice" 1200 40]
      in *.
    cbn [map Demo.event Score.score Score.created_at] in *.
    destruct Havg as [_ Huniq].
    { repeat constructor; simpl; unfold settings.max_score_value; lia. }
    { unfold len. simpl. lia. }
    exists st. split; [exact Hst|]. split; [exact Htot|].
    split; [|split; [|split; [|split]]].
    + destruct Hbest as [[<-|[<-|[]]] Hub]; [|reflexivity].
      specialize (Hub 1200 ltac:(simpl; tauto)). lia.
    + destruct Hworst as [[<-|[<-|[]]] Hlb]; [reflexivity|].
      specialize (Hlb 1000 ltac:(simpl; tauto)). lia.
    + symmetry. apply Huniq. exists Mixed.f1100, 110000.
      split; [|split].
      * split; [intros H; vm_compute in H; discriminate|]. intros _.
        exists (-42), (1100 * 2 ^ 42).
        split; [lia|]. split; [by_computation|].
        split; [by_computation | reflexivity].
      * by_computation.
      * split; [intros H; discriminate|]. intros _.
        exists (-42), (1100 * 2 ^ 42).
        split; [lia|]. split; [by_computation|].
        split; [by_computation | reflexivity].
    + destruct Hfirst as [[<-|[<-|[]]] Hlb]; [reflexivity|].
      specialize (Hlb 10 ltac:(simpl; tauto)). lia.
    + destruct Hlast as [[<-|[<-|[]]] Hub]; [|reflexivity].
      specialize (Hub 40 ltac:(simpl; tauto)). lia.
  - assert (Hadded : appended Demo.db (Game.id Demo.T) (pystr "Dana")
                              Mixed.requests = [(700, 50); (801, 60)])
      by reflexivity.
    split; [exact Hadded|].
    destruct (Hrun Mixed.requests) as (_ & _ & Hstats).
    cbv zeta in Hstats. rewrite Hadded in Hstats.
    destruct (Hstats demo_no_dana ltac:(discriminate)
                ltac:(unfold len; simpl; lia))
      as (st & Hst & Htot & Hbest & Hworst & _ & Huniq & Hfirst & Hlast).
    cbn [map fst snd] in *.
    exists st. split; [exact Hst|]. split; [exact Htot|].
    split; [|split; [|split; [|split]]].
    + destruct Hbest as [[<-|[<-|[]]] Hub]; [|reflexivity].
      specialize (Hub 801 ltac:(simpl; tauto)). lia.
    + destruct Hworst as [[<-|[<-|[]]] Hlb]; [reflexivity|].
      specialize (Hlb 700 ltac:(simpl; tauto)). lia.
    + symmetry. apply Huniq. exists Mixed.f750_5, 75050.
      split; [|split].
      * split; [intros H; vm_compute in H; discriminate|]. intros _.
        exists (-43), (1501 * 2 ^ 42).
        split; [lia|]. split; [by_computation|].
        split; [by_computation | reflexivity].
      * by_computation.
      * split; [intros H; discriminate|]. intros _.
        exists (-43), (1501 * 2 ^ 42).
        split; [lia|]. split; [by_computation|].
        split; [by_computation | reflexivity].
    + destruct Hfirst as [[<-|[<-|[]]] Hlb]; [reflexivity|].
      specialize (Hlb 50 ltac:(simpl; tauto)). lia.
    + destruct Hlast as [[<-|[<-|[]]] Hub]; [|reflexivity].
      specialize (Hub 60 ltac:(simpl; tauto)). lia.
Defined.

Lemma stats_rank_counts_better_players_witness :
  get_game_by_api_key Demo.db (pystr "game_T") = Some Demo.T
  /\ ~ no_events Demo.db (Game.id Demo.T) (pystr "Alice")
  /\ exists st,
       get_player_stats Demo.db (pystr "Alice") (pystr "game_T") = Ok 200 st
       /\ PlayerStats.best_score st = 1200
       /\ PlayerStats.rank st = Some 2.
Proof.
  split; [reflexivity|]. split; [exact demo_has_alice|].
  destruct (stats_rank_counts_better_players Demo.db (pystr "Alice")
              (pystr "game_T") Demo.T demo_key_resolves demo_has_alice)
    as (st & Hst & Hbest & Hrank & _).
  assert (Hb : PlayerStats.best_score st = 1200).
  { destruct Hbest as [(s & (Hin & Hg & Hn) & Hs) Hub].
    assert (H5 : 1200 <= PlayerStats.best_score st).
    { apply (Hub (Demo.event 5 1 "Alice" 1200 40)).
      split; [simpl; tauto | split; reflexivity]. }
    simpl in Hin.
    repeat (destruct Hin as [<-|Hin];
            [simpl in Hs; try discriminate; lia|]).
    destruct Hin. }
  exists st. split; [exact Hst|]. split; [exact Hb|].
  rewrite (Hrank [pystr "Bob"]); [reflexivity|]. rewrite Hb. split.
  - constructor; [intros [] | constructor].
  - intros q. split.
    + intros [<-|[]]. exists (Demo.event 2 1 "Bob" 1500 20).
      split; [|reflexivity]. unfold better_events.
      split; [simpl; tauto|]. split; [reflexivity|].
      split; [discriminate | simpl; lia].
    + intros (s & (Hin & Hg & Hne & Hlt) & Hname). simpl in Hin.
      repeat (destruct Hin as [<-|Hin];
              [simpl in *; try discriminate; try lia;
               try (now left); try congruence|]).
      destruct Hin.
Defined.

Lemma demo_unique_hashes : unique_hashes Demo.db.
Proof.
  unfold unique_hashes. simpl.
  constructor; [intros [H|[]]; discriminate|].
  constructor; [intros []|constructor].
Defined.

Lemma issued_key_resolves_to_its_tenant_witness :
  unique_hashes Demo.db
  /\ get_game_by_api_key Demo.db (pystr "game_U") = Some Demo.U
  /\ exists resp db' db_game,
       create_game Demo.db 70 (pystr "V") None
         {| GameCreate.name := pystr "Third Game";
            GameCreate.description := None |}
       = (Ok 201 resp, db')
       /\ get_game_by_api_key db' (GameResponse.api_key resp) = Some db_game
       /\ Game.id db_game = GameResponse.id resp.
Proof.
  destruct (issued_key_resolves_to_its_tenant Demo.db demo_unique_hashes)
    as (Hround & _ & _ & Hissue).
  split; [exact demo_unique_hashes|]. split.
  - apply Hround; [simpl; right; now left | reflexivity].
  - destruct (Hissue 70 (pystr "V")
                {| GameCreate.name := pystr "Third Game";
                   GameCreate.description := None |})
      as (resp & db' & db_game & Hc & _ & _ & Hid & _ & Hres).
    + simpl. intros [H|[H|[]]]; discriminate.
    + exists resp, db', db_game. auto.
Defined.

Lemma metadata_key_ending_in_newline_is_stored_witness :
  get_game_by_api_key Demo.db (pystr "game_T") = Some Demo.T
  /\ len (json_dumps [(pystr "level" ++ [10%N], JInt 1)])
     <= settings.max_metadata_size
  /\ metadata_key_class 10 = false
  /\ exists resp ev,
       post_scores Demo.db 70 None
         {| ScoreCreate.player_name := pystr "Alice";
            ScoreCreate.score := 1;
            ScoreCreate.game_metadata :=
              Some [(pystr "level" ++ [10%N], JInt 1)] |}
         (pystr "game_T")
       = (Ok 201 resp,
          {| games := games Demo.db; scores := scores Demo.db ++ [ev] |})
       /\ Score.game_metadata ev = Some [(pystr "level" ++ [10%N], JInt 1)].
Proof.
  split; [reflexivity|]. split; [vm_compute; discriminate|].
  split; [reflexivity|].
  destruct (metadata_key_ending_in_newline_is_stored Demo.db 70
              (pystr "game_T") Demo.T demo_key_resolves)
    as (_ & resp & ev & Hpost & _ & Hmeta).
  - vm_compute. discriminate.
  - exists resp, ev. auto.
Defined.

Lemma period_resolves_to_window_witness :
  ~ In (pystr "Today")
       [pystr "today"; pystr "week"; pystr "month"; pystr "year"]
  /\ get_date_filter 200000000000 (Some (pystr "Today")) = None
  /\ get_date_filter 200000000000 (Some (pystr "today"))
     = Some 172800000000.
Proof.
  assert (Hnot : ~ In (pystr "Today")
                   [pystr "today"; pystr "week"; pystr "month"; pystr "year"]).
  { simpl. intros [H|[H|[H|[H|[]]]]]; discriminate. }
  destruct (period_resolves_to_window 200000000000)
    as ((Htoday & _) & _ & _ & _ & _ & Hother & _).
  split; [exact Hnot|]. split; [now apply Hother | exact Htoday].
Defined.

Lemma create_game_failure_exposes_exception_witness :
  exc_str (OperationalError (pystr "unable to open database file"))
  <> exc_str (OperationalError (pystr "database is locked"))
  /\ fst (create_game Demo.db 70 (pystr "V")
            (Some (OperationalError (pystr "unable to open database file")))
            {| GameCreate.name := pystr "Third Game";
               GameCreate.description := None |})
     <> fst (create_game Demo.db 70 (pystr "V")
               (Some (OperationalError (pystr "database is locked")))
               {| GameCreate.name := pystr "Third Game";
                  GameCreate.description := None |}).
Proof.
  split; [discriminate|].
  apply (create_game_failure_exposes_exception Demo.db 70 (pystr "V")).
  discriminate.
Defined.

Lemma handlers_scoped_to_resolved_tenant_witness :
  get_game_by_api_key Runs.with_other (pystr "game_T") = Some Demo.T
  /\ get_game_by_api_key Runs.alone (pystr "game_T") = Some Demo.T
  /\ map Score.id (tenant_events Runs.with_other (Game.id Demo.T)) = [1; 2; 4]
  /\ map Score.id (tenant_events Runs.alone (Game.id Demo.T)) = [1; 2; 3]
  /\ map row_content (tenant_events Runs.with_other (Game.id Demo.T))
     = map row_content (tenant_events Runs.alone (Game.id Demo.T))
  /\ get_leaderboard Runs.with_other 100 10 None (pystr "game_T")
     = get_leaderboard Runs.alone 100 10 None (pystr "game_T")
  /\ get_player_stats Runs.with_other (pystr "Alice") (pystr "game_T")
     = get_player_stats Runs.alone (pystr "Alice") (pystr "game_T")
  /\ get_game_by_api_key Demo.db (pystr "game_X") = None
  /\ get_leaderboard Demo.db 100 10 None (pystr "game_X")
     = HTTPException 401 (pystr "Invalid API key").
Proof.
  destruct (handlers_scoped_to_resolved_tenant (pystr "game_T"))
    as (Hsame & _ & _ & _).
  destruct (Hsame Runs.with_other Runs.alone Demo.T eq_refl eq_refl eq_refl)
    as [Hboard Hstats].
  destruct (handlers_scoped_to_resolved_tenant (pystr "game_X"))
    as (_ & _ & _ & Hnone).
  destruct (Hnone Demo.db eq_refl) as (_ & Hboard' & _).
  do 5 (split; [reflexivity|]). split; [apply Hboard|].
  split; [apply Hstats|]. split; [reflexivity | apply Hboard'].
Defined.

Lemma stats_match_stored_names_exactly_witness :
  let body := {| ScoreCreate.player_name := pystr " Dana ";
                 ScoreCreate.score := 5;
                 ScoreCreate.game_metadata := None |} in
  let db' := snd (post_scores Demo.db 70 None body (pystr "game_T")) in
  get_game_by_api_key Demo.db (pystr "game_T") = Some Demo.T
  /\ ScoreCreate.model_validate body
     = inr {| ScoreCreate.player_name := pystr "Dana";
              ScoreCreate.score := 5;
              ScoreCreate.game_metadata := None |}
  /\ status_of (get_player_stats db' (pystr "Dana") (pystr "game_T")) = 200
  /\ status_of (get_player_stats db' (pystr " Dana ") (pystr "game_T")) = 404
  /\ status_of (get_player_stats db' (pystr "dana") (pystr "game_T")) = 404.
Proof.
  intros body db'.
  destruct (stats_match_stored_names_exactly Demo.db 70 body
              {| ScoreCreate.player_name := pystr "Dana";
                 ScoreCreate.score := 5;
                 ScoreCreate.game_metadata := None |}
              (pystr "game_T") Demo.T demo_key_resolves eq_refl)
    as (_ & Hfound & Hmissing).
  split; [reflexivity|]. split; [reflexivity|]. split; [exact Hfound|].
  split; apply Hmissing; intros s Hin _; simpl in Hin;
    repeat (destruct Hin as [<-|Hin]; [discriminate|]); destruct Hin.
Defined.
End Scenario.

(** * Further properties of the handlers and validators *)

(** ** Trimming *)

Lemma lstrip_head (v : str) :
  match lstrip v with
  | [] => True
  | c :: _ => py_isspace c = false
  end.
Proof.
  induction v as [|a v IH]; simpl; [exact I|].
  destruct (py_isspace a) eqn:E; [exact IH | exact E].
Qed.

Lemma lstrip_fixed (c : N) (v : str) :
  py_isspace c = false -> lstrip (c :: v) = c :: v.
Proof. intros H. simpl. now rewrite H. Qed.

Lemma lstrip_idempotent (v : str) : lstrip (lstrip v) = lstrip v.
Proof.
  pose proof (lstrip_head v) as H. destruct (lstrip v) as [|c w];
    [reflexivity | now apply lstrip_fixed].
Qed.

Lemma lstrip_snoc (v : str) (c : N) :
  py_isspace c = false -> lstrip (v ++ [c]) = lstrip v ++ [c].
Proof.
  intros Hc. induction v as [|a v IH]; simpl; [now rewrite Hc|].
  destruct (py_isspace a); [exact IH | reflexivity].
Qed.

Lemma rstrip_cons (c : N) (v : str) :
  py_isspace c = false -> rstrip (c :: v) = c :: rstrip v.
Proof.
  intros Hc. unfold rstrip. simpl rev.
  now rewrite (lstrip_snoc _ _ Hc), rev_app_distr.
Qed.

Lemma rstrip_idempotent (v : str) : rstrip (rstrip v) = rstrip v.
Proof. unfold rstrip. now rewrite rev_involutive, lstrip_idempotent. Qed.

Lemma strip_idempotent (v : str) : strip (strip v) = strip v.
Proof.
  unfold strip. pose proof (lstrip_head v) as H.
  destruct (lstrip v) as [|c w]; [reflexivity|].
  rewrite (rstrip_cons _ _ H), (lstrip_fixed _ _ H).
  rewrite <- (rstrip_cons _ _ H). apply rstrip_idempotent.
Qed.

Lemma lstrip_length (v : str) : (length (lstrip v) <= length v)%nat.
Proof.
  induction v as [|a v IH]; simpl; [lia|].
  destruct (py_isspace a); simpl; lia.
Qed.

Lemma strip_length (v : str) : len (strip v) <= len v.
Proof.
  unfold len, strip, rstrip. rewrite length_rev.
  pose proof (lstrip_length (rev (lstrip v))) as H1.
  rewrite length_rev in H1. pose proof (lstrip_length v) as H2. lia.
Qed.

(** ** The patterns *)

Lemma re_plus_dollar_of_all (cls : N -> bool) (v : str) :
  forallb cls v = true -> re_plus_dollar cls v = true.
Proof.
  induction v as [|a v IH]; [reflexivity|].
  simpl forallb. rewrite andb_true_iff. intros [Ha Hv].
  destruct v as [|b v]; simpl; [now rewrite Ha|].
  rewrite Ha. now apply IH.
Qed.

Lemma re_plus_dollar_of_newline (cls : N -> bool) (w : str) :
  forallb cls w = true -> re_plus_dollar cls (w ++ [10%N]) = true.
Proof.
  induction w as [|a w IH]; [intros _; simpl; apply orb_true_r|].
  simpl forallb. rewrite andb_true_iff. intros [Ha Hw].
  specialize (IH Hw). simpl app.
  destruct (w ++ [10%N]) as [|b u] eqn:E; [now destruct w|].
  change (re_plus_dollar cls (a :: b :: u))
    with (cls a && re_plus_dollar cls (b :: u)).
  now rewrite Ha, IH.
Qed.

(** What [re.match(r'^[cls]+$', v)] accepts: a non-empty string of the
    class, or such a string followed by one newline. *)
Lemma re_match_class_iff (cls : N -> bool) (v : str) :
  re_match_class cls v = true
  <-> v <> []
      /\ (forallb cls v = true
          \/ exists w, w <> [] /\ v = w ++ [10%N] /\ forallb cls w = true).
Proof.
  split.
  - intros Hm. destruct (re_match_class_true cls v Hm) as (Hne & Hall & Hlast).
    split; [exact Hne|].
    destruct (exists_last Hne) as (w & c & ->).
    rewrite removelast_last in Hall.
    destruct (Hlast c) as [Hc| ->];
      [apply last_last | apply in_or_app; right; now left | |].
    + left. rewrite forallb_app, Hall. simpl. now rewrite Hc.
    + destruct (cls 10%N) eqn:E10.
      * left. rewrite forallb_app, Hall. simpl. now rewrite E10.
      * right. exists w. repeat split; try assumption.
        intros ->. simpl in Hm. rewrite E10 in Hm. discriminate.
  - intros [Hne [Hall|(w & Hw & -> & Hall)]].
    + destruct v as [|a v]; [contradiction|]. simpl in Hall |- *.
      apply andb_true_iff in Hall. destruct Hall as [Ha Hv].
      now rewrite Ha, re_plus_dollar_of_all.
    + destruct w as [|a w]; [contradiction|]. simpl in Hall |- *.
      apply andb_true_iff in Hall. destruct Hall as [Ha Hv].
      now rewrite Ha, re_plus_dollar_of_newline.
Qed.

(** When the newline belongs to the class, the pattern accepts exactly the
    non-empty strings of the class. *)
Lemma re_match_class_with_newline (cls : N -> bool) (v : str) :
  cls 10%N = true ->
  (re_match_class cls v = true <-> v <> [] /\ forallb cls v = true).
Proof.
  intros H10. rewrite re_match_class_iff. split.
  - intros [Hne [Hall|(w & _ & -> & Hall)]]; split; try assumption.
    rewrite forallb_app, Hall. simpl. now rewrite H10.
  - intros [Hne Hall]. auto.
Qed.

(** ** What validation accepts *)

Section Acceptance.
Context {R : Runtime}.

Lemma player_name_class_newline : player_name_class 10 = true.
Proof. reflexivity. Qed.

Lemma game_name_class_newline : game_name_class 10 = true.
Proof. reflexivity. Qed.

Lemma description_class_newline : description_class 10 = true.
Proof. reflexivity. Qed.

(** A player name is accepted exactly when it has between 1 and 50
    characters and its trimmed form is non-empty and made of word
    characters, whitespace and [- . _ @]; the accepted value is the trimmed
    form. *)
Theorem player_name_accepted_iff (v n : str) :
  ScoreCreate.check_player_name v = Valid n
  <-> n = strip v
      /\ 1 <= len v <= settings.max_player_name_length
      /\ n <> []
      /\ forallb player_name_class n = true.
Proof.
  split.
  - intros H. apply check_player_name_valid in H.
    destruct H as (Hn & Hne & Hlen & Hm).
    apply (re_match_class_with_newline _ _ player_name_class_newline) in Hm.
    tauto.
  - intros (-> & Hlen & Hne & Hall).
    unfold ScoreCreate.check_player_name, Field_length, and_then.
    destruct (len v <? 1) eqn:E1; [apply Z.ltb_lt in E1; lia|].
    destruct (settings.max_player_name_length <? len v) eqn:E2;
      [apply Z.ltb_lt in E2; lia|].
    unfold ScoreCreate.validate_player_name.
    assert (Hm : re_match_class player_name_class (strip v) = true)
      by (apply (re_match_class_with_newline _ _ player_name_class_newline);
          auto).
    destruct (strip v) as [|c w]; [contradiction|]. now rewrite Hm.
Qed.

Lemma validate_keys_iff (keys : list str) :
  (exists u, ScoreCreate.validate_keys keys = Valid u)
  <-> Forall (fun key => re_match_class metadata_key_class key = true) keys.
Proof.
  induction keys as [|k keys IH]; simpl.
  - split; [constructor | intros _; now exists tt].
  - destruct (re_match_class metadata_key_class k) eqn:E; simpl.
    + rewrite IH. split; [now constructor | intros H; now inversion H].
    + split; [intros [u Hu]; discriminate|].
      intros H. inversion H; subst. congruence.
Qed.

(** A metadata dictionary is accepted, unchanged, exactly when its
    serialization has at most 10240 characters and every key is a non-empty
    string of word characters, [-] and [_], possibly followed by one
    newline. *)
Theorem metadata_accepted_iff (d : dict) (m : option dict) :
  ScoreCreate.validate_metadata (Some d) = Valid m
  <-> m = Some d
      /\ len (json_dumps d) <= settings.max_metadata_size
      /\ Forall (fun key =>
                   key <> []
                   /\ (forallb metadata_key_class key = true
                       \/ exists w, w <> [] /\ key = w ++ [10%N]
                                    /\ forallb metadata_key_class w = true))
                (map fst d).
Proof.
  unfold ScoreCreate.validate_metadata.
  destruct (settings.max_metadata_size <? len (json_dumps d)) eqn:Es.
  - apply Z.ltb_lt in Es. split; [discriminate | intros (_ & H & _); lia].
  - apply Z.ltb_ge in Es.
    assert (Hk : Forall (fun key => re_match_class metadata_key_class key = true)
                        (map fst d)
                 <-> Forall (fun key =>
                        key <> []
                        /\ (forallb metadata_key_class key = true
                            \/ exists w, w <> [] /\ key = w ++ [10%N]
                                 /\ forallb metadata_key_class w = true))
                      (map fst d)).
    { rewrite !Forall_forall. split; intros H k Hin;
        apply re_match_class_iff; auto. }
    rewrite <- Hk, <- validate_keys_iff.
    destruct (ScoreCreate.validate_keys (map fst d)) as [u|msg]; simpl.
    + split; [intros [= <-]; eauto | intros (-> & _); reflexivity].
    + split; [discriminate | intros (_ & _ & u & Hu); discriminate].
Qed.

Lemma check_game_name_iff (v n : str) :
  check_game_name v = Valid n
  <-> n = strip v
      /\ 1 <= len v <= settings.max_game_name_length
      /\ n <> []
      /\ forallb game_name_class n = true.
Proof.
  unfold check_game_name, Field_length, and_then, validate_name.
  destruct (len v <? 1) eqn:E1;
    [apply Z.ltb_lt in E1; split; [discriminate | lia]|].
  destruct (settings.max_game_name_length <? len v) eqn:E2;
    [apply Z.ltb_lt in E2; split; [discriminate | lia]|].
  apply Z.ltb_ge in E1, E2.
  pose proof (re_match_class_with_newline game_name_class (strip v)
                game_name_class_newline) as Hm.
  destruct (strip v) as [|c w] eqn:Es.
  - split; [discriminate | intros (-> & _ & Hne & _); contradiction].
  - destruct (re_match_class game_name_class (c :: w)); simpl.
    + split; [intros [= <-] | intros (-> & _); reflexivity].
      repeat split; try lia; try discriminate. now apply Hm.
    + split; [discriminate|]. intros (-> & _ & _ & Hall).
      assert (false = true) by (apply Hm; split; [discriminate | exact Hall]).
      discriminate.
Qed.

Lemma check_description_iff (v d' : option str) :
  check_description v = Valid d'
  <-> d' = option_map strip v
      /\ forall d, v = Some d ->
           len d <= settings.max_description_length
           /\ forallb description_class (strip d) = true.
Proof.
  destruct v as [d|]; simpl.
  2:{ split; [intros [= <-]; split; [reflexivity | discriminate]
             | intros (-> & _); reflexivity]. }
  unfold Field_length, and_then.
  assert (E0 : (len d <? 0) = false) by (apply Z.ltb_ge; unfold len; lia).
  rewrite E0.
  destruct (settings.max_description_length <? len d) eqn:E2.
  { apply Z.ltb_lt in E2. split; [discriminate|].
    intros (_ & H). destruct (H d eq_refl). lia. }
  apply Z.ltb_ge in E2. unfold validate_description.
  pose proof (re_match_class_with_newline description_class (strip d)
                description_class_newline) as Hm.
  destruct (strip d) as [|c w] eqn:Es.
  - split; [intros [= <-] | intros (-> & _); reflexivity].
    split; [reflexivity|]. intros d0 [= <-]. now rewrite Es.
  - destruct (re_match_class description_class (c :: w)); simpl.
    + split; [intros [= <-] | intros (-> & _); reflexivity].
      split; [reflexivity|]. intros d0 [= <-]. rewrite Es.
      split; [lia | now apply Hm].
    + split; [discriminate|]. intros (_ & H).
      destruct (H d eq_refl) as [_ Hall]. rewrite Es in Hall.
      assert (false = true) by (apply Hm; split; [discriminate | exact Hall]).
      discriminate.
Qed.

(** A registration is accepted exactly when the name has between 1 and 100
    characters and a non-empty trimmed form of allowed characters, and the
    description, when given, has at most 500 characters and a trimmed form
    of allowed characters (the empty one included); the accepted values are
    the trimmed forms. *)
Theorem game_create_accepted_iff (body game : GameCreate.t) :
  game_create_validate body = inr game
  <-> GameCreate.name game = strip (GameCreate.name body)
      /\ 1 <= len (GameCreate.name body) <= settings.max_game_name_length
      /\ strip (GameCreate.name body) <> []
      /\ forallb game_name_class (strip (GameCreate.name body)) = true
      /\ GameCreate.description game
         = option_map strip (GameCreate.description body)
      /\ forall d, GameCreate.description body = Some d ->
           len d <= settings.max_description_length
           /\ forallb description_class (strip d) = true.
Proof.
  unfold game_create_validate.
  pose proof (check_game_name_iff (GameCreate.name body)) as Hn.
  pose proof (check_description_iff (GameCreate.description body)) as Hd.
  destruct (check_game_name (GameCreate.name body)) as [n|mn];
    destruct (check_description (GameCreate.description body)) as [d|md].
  - destruct (proj1 (Hn n) eq_refl) as (En & Hlen & Hne & Hall).
    destruct (proj1 (Hd d) eq_refl) as (Ed & Hdesc). subst n.
    split.
    + intros [= <-]. simpl. tauto.
    + intros (H1 & _ & _ & _ & H2 & _). destruct game as [gn gd].
      simpl in H1, H2. now subst.
  - split; [discriminate|]. intros (_ & _ & _ & _ & _ & H).
    assert (Hv : Valid (option_map strip (GameCreate.description body))
                 = @ValueError (option str) md)
      by (symmetry; apply (Hd _); auto).
    discriminate.
  - split; [discriminate|]. intros (_ & H1 & H2 & H3 & _).
    assert (Hv : Valid (strip (GameCreate.name body)) = @ValueError str mn)
      by (symmetry; apply (Hn _); auto).
    discriminate.
  - split; [discriminate|]. intros (_ & H1 & H2 & H3 & _).
    assert (Hv : Valid (strip (GameCreate.name body)) = @ValueError str mn)
      by (symmetry; apply (Hn _); auto).
    discriminate.
Qed.

(** Validation is idempotent: what it returns for a submission, and for a
    registration, is accepted as it is when validated again. *)
Theorem validated_models_are_fixed_points :
  (forall body score_data,
      ScoreCreate.model_validate body = inr score_data ->
      ScoreCreate.model_validate score_data = inr score_data)
  /\ (forall body game,
        game_create_validate body = inr game ->
        game_create_validate game = inr game).
Proof.
  split.
  - intros body sd Hv. unfold ScoreCreate.model_validate in *.
    destruct (ScoreCreate.check_player_name (ScoreCreate.player_name body))
      as [n|] eqn:En; [|discriminate].
    destruct (ScoreCreate.check_score (ScoreCreate.score body))
      as [s|] eqn:Esc; [|discriminate].
    destruct (ScoreCreate.validate_metadata (ScoreCreate.game_metadata body))
      as [m|] eqn:Em; [|discriminate].
    injection Hv as <-. simpl.
    apply player_name_accepted_iff in En.
    destruct En as (Hn & Hlen & Hne & Hall).
    assert (En' : ScoreCreate.check_player_name n = Valid n).
    { apply player_name_accepted_iff. subst n.
      rewrite strip_idempotent. repeat split; try assumption.
      - destruct (strip (ScoreCreate.player_name body)); [contradiction|].
        unfold len. simpl. lia.
      - pose proof (strip_length (ScoreCreate.player_name body)). lia. }
    rewrite En'.
    destruct (check_score_valid _ _ Esc) as [-> _]. rewrite Esc.
    pose proof (validate_metadata_valid _ _ Em) as ->. now rewrite Em.
  - intros body game Hv. apply game_create_accepted_iff in Hv.
    destruct Hv as (Hn & Hlen & Hne & Hall & Hd & Hdesc).
    apply game_create_accepted_iff. rewrite Hn, Hd, strip_idempotent.
    split; [reflexivity|]. split.
    { pose proof (strip_length (GameCreate.name body)).
      destruct (strip (GameCreate.name body)); [contradiction|].
      unfold len in *. simpl in *. lia. }
    split; [assumption|]. split; [assumption|]. split.
    { destruct (GameCreate.description body) as [d|]; simpl; [|reflexivity].
      now rewrite strip_idempotent. }
    intros d0 Hd0.
    destruct (GameCreate.description body) as [d|]; simpl in Hd0;
      [|discriminate].
    injection Hd0 as <-. destruct (Hdesc d eq_refl) as [Hl Ha].
    rewrite strip_idempotent. split; [|exact Ha].
    pose proof (strip_length d). lia.
Qed.
End Acceptance.

(** ** Stored hashes *)

Lemma hex_digit_lower (d : N) :
  (d < 16)%N ->
  ((48 <= hex_digit d <= 57) \/ (97 <= hex_digit d <= 102))%N.
Proof.
  intros Hd. unfold hex_digit. destruct (d <? 10)%N eqn:E.
  - apply N.ltb_lt in E. left. lia.
  - apply N.ltb_ge in E. right. lia.
Qed.

Lemma hex_digit_injective (d d' : N) :
  (d < 16)%N -> (d' < 16)%N -> hex_digit d = hex_digit d' -> d = d'.
Proof.
  unfold hex_digit. intros Hd Hd'.
  destruct (d <? 10)%N eqn:E; destruct (d' <? 10)%N eqn:E';
    try apply N.ltb_lt in E; try apply N.ltb_ge in E;
    try apply N.ltb_lt in E'; try apply N.ltb_ge in E'; lia.
Qed.

Lemma hex_injective (b : list N) :
  forall b',
    Forall (fun x => (x < 256)%N) b -> Forall (fun x => (x < 256)%N) b' ->
    hex b = hex b' -> b = b'.
Proof.
  induction b as [|x b IH]; intros [|x' b'] Hb Hb' Heq; simpl in Heq;
    try reflexivity; try discriminate.
  inversion Hb as [|? ? Hx Hb0]; inversion Hb' as [|? ? Hx' Hb0']; subst.
  injection Heq as Hhi Hlo Hrest.
  apply hex_digit_injective in Hhi;
    [|apply N.Div0.div_lt_upper_bound; lia
     |apply N.Div0.div_lt_upper_bound; lia].
  apply hex_digit_injective in Hlo;
    [|apply N.mod_upper_bound; lia | apply N.mod_upper_bound; lia].
  f_equal; [|now apply IH].
  rewrite (N.div_mod' x 16), (N.div_mod' x' 16). congruence.
Qed.

Section StoredHashes.
Context {R : Runtime}.

(** When the key derivation returns bytes, the stored hash has two
    characters per byte of the digest, all of them digits or lowercase
    letters from a to f; and a presented key verifies against the hash of
    another key exactly when the two digests are equal. *)
Theorem hash_api_key_is_hex_of_digest (api_key api_key' : str) :
  let digest k := pbkdf2_hmac_sha256 (encode_utf8 k) salt 100000 in
  Forall (fun x => (x < 256)%N) (digest api_key) ->
  Forall (fun x => (x < 256)%N) (digest api_key') ->
  len (hash_api_key api_key) = 2 * len (digest api_key)
  /\ Forall (fun c => (48 <= c <= 57)%N \/ (97 <= c <= 102)%N)
            (hash_api_key api_key)
  /\ (verify_api_key api_key (hash_api_key api_key') = true
      <-> digest api_key = digest api_key').
Proof.
  intros digest Hb Hb'. unfold hash_api_key. fold (digest api_key).
  fold (digest api_key'). split; [|split].
  - unfold len. induction (digest api_key) as [|x l IH]; [reflexivity|].
    inversion Hb; subst. simpl hex. simpl length in *.
    specialize (IH ltac:(assumption)). lia.
  - induction Hb as [|x l Hx _ IH]; [constructor|]. simpl hex.
    constructor; [|constructor; [|exact IH]].
    + apply hex_digit_lower. apply N.Div0.div_lt_upper_bound. lia.
    + apply hex_digit_lower. apply N.mod_upper_bound. lia.
  - unfold verify_api_key, hash_api_key. fold (digest api_key).
    fold (digest api_key'). rewrite str_eqb_true. split.
    + now apply hex_injective.
    + now intros ->.
Qed.
End StoredHashes.

(** ** Registration and the ledger *)

Section Storage.
Context {R : Runtime}.

Lemma first_verified_In (api_key : str) (l : list Game.t) (game : Game.t) :
  first_verified api_key l = Some game ->
  In game l /\ Game.api_key_hash game = hash_api_key api_key.
Proof.
  intros H. apply first_verified_some in H.
  destruct H as (before & after & -> & Hh & _). split; [|exact Hh].
  apply in_or_app. right. now left.
Qed.

Lemma first_verified_app (api_key : str) (l l' : list Game.t) :
  first_verified api_key (l ++ l')
  = match first_verified api_key l with
    | Some game => Some game
    | None => first_verified api_key l'
    end.
Proof.
  induction l as [|g l IH]; simpl; [reflexivity|].
  destruct (verify_api_key api_key (Game.api_key_hash g)); [reflexivity|].
  exact IH.
Qed.

(** Registering a game, whatever its outcome, leaves the ledger alone and
    does not change the game an already valid key resolves to. *)
Theorem registration_keeps_existing_keys (db : Db) (now : datetime)
    (token : str) (fault : option Exception) (body : GameCreate.t)
    (api_key : str) (game : Game.t) :
  get_game_by_api_key db api_key = Some game ->
  let db' := snd (post_games db now token fault body) in
  get_game_by_api_key db' api_key = Some game
  /\ scores db' = scores db.
Proof.
  intros Hgame db'. unfold db', post_games.
  destruct (game_create_validate body) as [errs|g]; [now split|].
  unfold create_game, commit_game. destruct fault as [e|]; [now split|].
  destruct (existsb _ (games db)); [now split|]. simpl. split; [|reflexivity].
  unfold get_game_by_api_key in *. simpl.
  now rewrite first_verified_app, Hgame.
Qed.

(** A game created under a key whose hash no stored game has is answered
    201, and the key returned then identifies that game: [GET /games/me]
    gives back the id, name, description and creation time of the answer. *)
Theorem created_game_is_current_game (db : Db) (now : datetime)
    (token : str) (game : GameCreate.t) :
  ~ In (hash_api_key (generate_api_key token))
       (map Game.api_key_hash (games db)) ->
  exists resp db',
    create_game db now token None game = (Ok 201 resp, db')
    /\ GameResponse.api_key resp = generate_api_key token
    /\ GameResponse.name resp = GameCreate.name game
    /\ GameResponse.description resp = GameCreate.description game
    /\ GameResponse.created_at resp = now
    /\ get_current_game db' (GameResponse.api_key resp)
       = Ok 200 {| GameInfo.id := GameResponse.id resp;
                   GameInfo.name := GameResponse.name resp;
                   GameInfo.description := GameResponse.description resp;
                   GameInfo.created_at := GameResponse.created_at resp |}.
Proof.
  intros Hfresh. unfold create_game, commit_game.
  destruct (existsb _ (games db)) eqn:E.
  { exfalso. apply Hfresh. apply existsb_exists in E.
    destruct E as (g & Hg & Heq). apply str_eqb_true in Heq.
    rewrite <- Heq. now apply in_map. }
  do 2 eexists. split; [reflexivity|]. simpl.
  repeat (split; [reflexivity|]).
  unfold get_current_game, get_game_by_api_key. simpl.
  rewrite first_verified_app.
  assert (Hnone : first_verified (generate_api_key token) (games db) = None).
  { apply first_verified_none. rewrite Forall_forall. intros g Hg Heq.
    apply Hfresh. rewrite <- Heq. now apply in_map. }
  rewrite Hnone. simpl. unfold verify_api_key. now rewrite str_eqb_refl.
Qed.

(** A game cannot be created under a key whose hash is already stored: the
    answer is 500 and the database is unchanged, so the key keeps resolving
    to the game that had it. *)
Theorem duplicate_key_is_refused (db : Db) (now : datetime) (token : str)
    (fault : option Exception) (game : GameCreate.t) :
  In (hash_api_key (generate_api_key token))
     (map Game.api_key_hash (games db)) ->
  status_of (fst (create_game db now token fault game)) = 500
  /\ snd (create_game db now token fault game) = db
  /\ exists owner,
       In owner (games db)
       /\ get_game_by_api_key (snd (create_game db now token fault game))
                              (generate_api_key token) = Some owner.
Proof.
  intros Hin. unfold create_game, commit_game.
  assert (Hex : existsb (fun g => str_eqb (Game.api_key_hash g)
                                    (hash_api_key (generate_api_key token)))
                        (games db) = true).
  { apply in_map_iff in Hin. destruct Hin as (g & Hh & Hg).
    apply existsb_exists. exists g. split; [exact Hg|]. now apply str_eqb_true. }
  assert (Hsome : exists owner,
             In owner (games db)
             /\ get_game_by_api_key db (generate_api_key token) = Some owner).
  { unfold get_game_by_api_key.
    destruct (first_verified (generate_api_key token) (games db))
      as [owner|] eqn:E.
    - exists owner. split; [|reflexivity]. now apply first_verified_In in E.
    - exfalso. apply first_verified_none in E. rewrite Forall_forall in E.
      apply in_map_iff in Hin. destruct Hin as (g & Hh & Hg).
      now apply (E g Hg). }
  destruct fault as [e|]; [|rewrite Hex]; simpl; auto.
Qed.

Lemma post_scores_cases (db : Db) (now : datetime)
    (fault : option Exception) (body : ScoreCreate.t) (api_key : str) :
  (exists score_data game id,
      ScoreCreate.model_validate body = inr score_data
      /\ get_game_by_api_key db api_key = Some game
      /\ fault = None
      /\ post_scores db now fault body api_key
         = (Ok 201
              {| ScoreResponse.id := id;
                 ScoreResponse.game_id := Game.id game;
                 ScoreResponse.player_name :=
                   ScoreCreate.player_name score_data;
                 ScoreResponse.score := ScoreCreate.score score_data;
                 ScoreResponse.game_metadata :=
                   ScoreCreate.game_metadata score_data;
                 ScoreResponse.created_at := now |},
            {| games := games db;
               scores := scores db ++
                 [{| Score.id := id;
                     Score.game_id := Game.id game;
                     Score.player_name := ScoreCreate.player_name score_data;
                     Score.score := ScoreCreate.score score_data;
                     Score.game_metadata :=
                       ScoreCreate.game_metadata score_data;
                     Score.created_at := now |}] |}))
  \/ (status_of (fst (post_scores db now fault body api_key)) <> 201
      /\ snd (post_scores db now fault body api_key) = db
      /\ ((exists errors, ScoreCreate.model_validate body = inl errors)
          \/ get_game_by_api_key db api_key = None
          \/ fault <> None)).
Proof.
  unfold post_scores.
  destruct (ScoreCreate.model_validate body) as [errs|sd] eqn:Ev.
  { right. simpl. repeat split; [lia | eauto]. }
  unfold submit_score.
  destruct (get_game_by_api_key db api_key) as [game|] eqn:Eg.
  2:{ right. simpl. repeat split; [lia | auto]. }
  destruct fault as [e|]; simpl.
  - right. repeat split; [lia|]. right. right. discriminate.
  - left. do 3 eexists. repeat split; reflexivity.
Qed.

(** A submission is all or nothing.  It is answered 201 exactly when the
    body is valid, the key resolves and the storage does not fail; then
    one event is added at the end of the ledger, under the trimmed name and
    with the score and metadata of the body and the time of the request,
    and the answer repeats that event.  In every other case the database
    is unchanged. *)
Theorem submission_is_all_or_nothing (db : Db) (now : datetime)
    (fault : option Exception) (body : ScoreCreate.t) (api_key : str) :
  let answer := fst (post_scores db now fault body api_key) in
  let db' := snd (post_scores db now fault body api_key) in
  (status_of answer = 201
   <-> (exists score_data, ScoreCreate.model_validate body = inr score_data)
       /\ (exists game, get_game_by_api_key db api_key = Some game)
       /\ fault = None)
  /\ (status_of answer <> 201 -> db' = db)
  /\ (status_of answer = 201 ->
      exists resp ev game,
        answer = Ok 201 resp
        /\ db' = {| games := games db; scores := scores db ++ [ev] |}
        /\ get_game_by_api_key db api_key = Some game
        /\ Score.game_id ev = Game.id game
        /\ Score.player_name ev = strip (ScoreCreate.player_name body)
        /\ Score.score ev = ScoreCreate.score body
        /\ Score.game_metadata ev = ScoreCreate.game_metadata body
        /\ Score.created_at ev = now
        /\ ScoreResponse.id resp = Score.id ev
        /\ ScoreResponse.game_id resp = Score.game_id ev
        /\ ScoreResponse.player_name resp = Score.player_name ev
        /\ ScoreResponse.score resp = Score.score ev
        /\ ScoreResponse.game_metadata resp = Score.game_metadata ev
        /\ ScoreResponse.created_at resp = Score.created_at ev).
Proof.
  intros answer db'. unfold answer, db'.
  destruct (post_scores_cases db now fault body api_key)
    as [(sd & game & id & Hv & Hg & Hf & Hpost)|(Hst & Hdb & Hwhy)].
  - rewrite Hpost. simpl. split; [|split].
    + split; [intros _; eauto | reflexivity].
    + intros H. now contradiction H.
    + intros _. destruct (model_validate_inr _ _ Hv) as (Hn & Hs & Hm & _).
      do 3 eexists. split; [reflexivity|]. split; [reflexivity|].
      split; [exact Hg|]. simpl. rewrite Hn, Hs, Hm.
      repeat split; reflexivity.
  - split; [|split].
    + split; [intros H; contradiction|].
      intros ((sd & Hv) & (game & Hg) & Hf).
      destruct Hwhy as [(errs & He)|[Hn|Hn]]; congruence.
    + intros _. exact Hdb.
    + intros H. contradiction.
Qed.
Lemma model_validate_name (body score_data : ScoreCreate.t) :
  ScoreCreate.model_validate body = inr score_data ->
  ScoreCreate.check_player_name (ScoreCreate.player_name body)
  = Valid (ScoreCreate.player_name score_data).
Proof.
  unfold ScoreCreate.model_validate.
  destruct (ScoreCreate.check_player_name (ScoreCreate.player_name body));
    [|discriminate].
  destruct (ScoreCreate.check_score (ScoreCreate.score body));
    [|discriminate].
  destruct (ScoreCreate.validate_metadata (ScoreCreate.game_metadata body));
    [|discriminate].
  now intros [= <-].
Qed.

Lemma validated_event_well_formed (body score_data : ScoreCreate.t)
    (id game_id : Z) (now : datetime) :
  ScoreCreate.model_validate body = inr score_data ->
  well_formed_event
    {| Score.id := id;
       Score.game_id := game_id;
       Score.player_name := ScoreCreate.player_name score_data;
       Score.score := ScoreCreate.score score_data;
       Score.game_metadata := ScoreCreate.game_metadata score_data;
       Score.created_at := now |}.
Proof.
  intros Hv. pose proof (model_validate_name _ _ Hv) as Hn.
  apply player_name_accepted_iff in Hn.
  destruct Hn as (Hn & Hlen & Hne & Hall).
  destruct (model_validate_inr _ _ Hv) as (_ & Hs & _ & Hrange & _).
  unfold well_formed_event. simpl. rewrite Hs.
  repeat split; try assumption; try lia.
  - rewrite Hn. pose proof (strip_length (ScoreCreate.player_name body)). lia.
  - rewrite Hn. apply strip_idempotent.
Qed.

(** The handlers that write keep the database in shape.  If every stored
    event is well formed and belongs to a stored game, the same holds after
    a submission and after a registration, whatever the request and its
    outcome; a submission only adds events at the end of the ledger and
    leaves the games alone, and a registration leaves the ledger alone. *)
Theorem writes_keep_ledger_invariants (db : Db) :
  Forall well_formed_event (scores db) ->
  events_owned db ->
  (forall now fault body api_key,
      let db' := snd (post_scores db now fault body api_key) in
      Forall well_formed_event (scores db')
      /\ events_owned db'
      /\ ledger_extends db db'
      /\ games db' = games db)
  /\ (forall now token fault body,
        let db' := snd (post_games db now token fault body) in
        Forall well_formed_event (scores db')
        /\ events_owned db'
        /\ scores db' = scores db).
Proof.
  intros Hwf Hown. split.
  - intros now fault body api_key db'. unfold db'.
    destruct (post_scores_cases db now fault body api_key)
      as [(sd & game & id & Hv & Hg & Hf & Hpost)|(_ & Hdb & _)].
    + rewrite Hpost. simpl. split; [|split; [|split]].
      * apply Forall_app. split; [exact Hwf|]. constructor; [|constructor].
        now apply (validated_event_well_formed body).
      * intros s Hs. simpl in Hs. apply in_app_or in Hs.
        destruct Hs as [Hs|[<-|[]]]; [now apply Hown|].
        exists game. split; [|reflexivity].
        now apply (first_verified_In api_key).
      * eexists. reflexivity.
      * reflexivity.
    + rewrite Hdb. repeat split; try assumption.
      exists []. now rewrite app_nil_r.
  - intros now token fault body db'. unfold db', post_games.
    destruct (game_create_validate body) as [errs|g]; [now repeat split|].
    unfold create_game, commit_game.
    destruct fault as [e|]; [now repeat split|].
    destruct (existsb _ (games db)); [now repeat split|]. simpl.
    split; [exact Hwf|]. split; [|reflexivity].
    intros s Hs. simpl in Hs |- *. destruct (Hown s Hs) as (g0 & Hg0 & Hid).
    exists g0. split; [apply in_or_app; now left | exact Hid].
Qed.
End Storage.

(** ** More on the leaderboard *)

Lemma firstn_enumerate {A : Type} (l : list A) :
  forall n idx, firstn n (enumerate idx l) = enumerate idx (firstn n l).
Proof.
  induction l as [|x l IH]; intros [|n] idx; simpl; try reflexivity.
  now rewrite IH.
Qed.

Lemma ranking_prefix (n n' : nat) (rows : list Score.t) :
  (n <= n')%nat -> ranking n rows = firstn n (ranking n' rows).
Proof.
  intros Hle. unfold ranking.
  rewrite firstn_map, firstn_enumerate, firstn_firstn.
  now rewrite (Nat.min_l n n' Hle).
Qed.

Lemma count_distinct_incl (l l' : list str) :
  incl l l' -> count_distinct l <= count_distinct l'.
Proof.
  intros Hincl. unfold count_distinct, len. apply inj_le.
  apply NoDup_incl_length; [apply NoDup_nodup|].
  intros p Hp. apply nodup_In. apply Hincl. now apply nodup_In in Hp.
Qed.

Lemma in_scope_within (game_id : Z) (w1 w2 : option datetime) (s : Score.t) :
  window_within w1 w2 ->
  in_scope game_id w1 s = true -> in_scope game_id w2 s = true.
Proof.
  unfold window_within, in_scope. rewrite !andb_true_iff.
  destruct w1 as [d1|], w2 as [d2|]; rewrite ?Z.leb_le; intuition lia.
Qed.

Section LeaderboardMore.
Context {R : Runtime}.

Lemma get_leaderboard_resolved (db : Db) (now : datetime) (limit : Z)
    (period : option str) (api_key : str) (game : Game.t) :
  get_game_by_api_key db api_key = Some game ->
  let rows :=
    filter (in_scope (Game.id game) (get_date_filter now period))
           (scores db) in
  get_leaderboard db now limit period api_key
  = Ok 200 {| LeaderboardResponse.game_id := Game.id game;
              LeaderboardResponse.game_name := Game.name game;
              LeaderboardResponse.entries := ranking (Z.to_nat limit) rows;
              LeaderboardResponse.total_entries :=
                count_distinct (map Score.player_name rows);
              LeaderboardResponse.period := period |}.
Proof. intros Hgame. unfold get_leaderboard. now rewrite Hgame. Qed.

(** The two parts of a leaderboard answer fit together: the number of
    entries is the smaller of the limit and [total_entries]; so
    [total_entries] is never below the number of entries, and all players
    are shown exactly when the limit reaches it. *)
Theorem entries_are_limit_or_total (db : Db) (now : datetime) (limit : Z)
    (period : option str) (api_key : str) (game : Game.t) :
  get_game_by_api_key db api_key = Some game ->
  0 <= limit ->
  exists resp,
    get_leaderboard db now limit period api_key = Ok 200 resp
    /\ len (LeaderboardResponse.entries resp)
       = Z.min limit (LeaderboardResponse.total_entries resp).
Proof.
  intros Hgame Hlimit.
  rewrite (get_leaderboard_resolved _ _ _ _ _ _ Hgame). cbv zeta.
  eexists. split; [reflexivity|]. simpl.
  unfold count_distinct, len.
  rewrite (ranking_length _ _ _ (nodup_distinct_players _)). lia.
Qed.

(** Raising the limit only adds scores at the end: the scores and the
    ranks listed for a limit are the first scores and ranks listed for any
    larger limit, whichever of the players with equal scores come first,
    and [total_entries] is the same. *)
Theorem smaller_limit_is_a_prefix (db : Db) (now : datetime)
    (limit limit' : Z) (period : option str) (api_key : str)
    (game : Game.t) :
  get_game_by_api_key db api_key = Some game ->
  0 <= limit <= limit' ->
  exists resp resp',
    get_leaderboard db now limit period api_key = Ok 200 resp
    /\ get_leaderboard db now limit' period api_key = Ok 200 resp'
    /\ map LeaderboardEntry.score (LeaderboardResponse.entries resp)
       = firstn (Z.to_nat limit)
                (map LeaderboardEntry.score
                     (LeaderboardResponse.entries resp'))
    /\ map LeaderboardEntry.rank (LeaderboardResponse.entries resp)
       = firstn (Z.to_nat limit)
                (map LeaderboardEntry.rank
                     (LeaderboardResponse.entries resp'))
    /\ LeaderboardResponse.total_entries resp
       = LeaderboardResponse.total_entries resp'.
Proof.
  intros Hgame Hlimit.
  rewrite !(get_leaderboard_resolved _ _ _ _ _ _ Hgame). cbv zeta.
  do 2 eexists. split; [reflexivity|]. split; [reflexivity|]. simpl.
  rewrite (ranking_prefix (Z.to_nat limit) (Z.to_nat limit')) by lia.
  now rewrite !firstn_map.
Qed.

Lemma period_windows_nested (now : datetime) :
  window_within (get_date_filter now (Some (pystr "today")))
                (get_date_filter now (Some (pystr "week")))
  /\ window_within (get_date_filter now (Some (pystr "week")))
                   (get_date_filter now (Some (pystr "month")))
  /\ window_within (get_date_filter now (Some (pystr "month")))
                   (get_date_filter now (Some (pystr "year"))).
Proof.
  change (get_date_filter now (Some (pystr "today")))
    with (Some (replace_midnight now)).
  change (get_date_filter now (Some (pystr "week")))
    with (Some (now - timedelta 7)).
  change (get_date_filter now (Some (pystr "month")))
    with (Some (now - timedelta 30)).
  change (get_date_filter now (Some (pystr "year")))
    with (Some (now - timedelta 365)).
  unfold window_within, replace_midnight, timedelta, microseconds_per_day.
  pose proof (Z.mod_pos_bound now 86400000000 ltac:(lia)). lia.
Qed.

(** The periods are nested: today lies within the week, the week within
    the month, the month within the year, and every period within all
    time.  A wider period never counts fewer players, and a player shown
    for the narrower period has an event in the wider one. *)
Theorem wider_period_counts_no_fewer (db : Db) (now : datetime) (limit : Z)
    (period period' : option str) (api_key : str) (game : Game.t) :
  get_game_by_api_key db api_key = Some game ->
  In (period, period')
     [(Some (pystr "today"), Some (pystr "week"));
      (Some (pystr "week"), Some (pystr "month"));
      (Some (pystr "month"), Some (pystr "year"));
      (Some (pystr "year"), None);
      (period, None)] ->
  exists resp resp',
    get_leaderboard db now limit period api_key = Ok 200 resp
    /\ get_leaderboard db now limit period' api_key = Ok 200 resp'
    /\ LeaderboardResponse.total_entries resp
       <= LeaderboardResponse.total_entries resp'
    /\ forall e, In e (LeaderboardResponse.entries resp) ->
         exists s, qualifying db (Game.id game)
                     (get_date_filter now period') s
                   /\ Score.player_name s = LeaderboardEntry.player_name e.
Proof.
  intros Hgame Hin.
  assert (Hw : window_within (get_date_filter now period)
                             (get_date_filter now period')).
  { destruct (period_windows_nested now) as (H1 & H2 & H3).
    simpl in Hin.
    destruct Hin as [[= <- <-]|[[= <- <-]|[[= <- <-]|[[= <- <-]|[[= <-]|[]]]]]];
      try assumption.
    - exact I.
    - unfold window_within. simpl get_date_filter at 2.
      now destruct (get_date_filter now period). }
  rewrite !(get_leaderboard_resolved _ _ _ _ _ _ Hgame). cbv zeta.
  do 2 eexists. split; [reflexivity|]. split; [reflexivity|]. simpl.
  assert (Hsub : forall s,
             In s (filter (in_scope (Game.id game) (get_date_filter now period))
                          (scores db)) ->
             In s (filter (in_scope (Game.id game) (get_date_filter now period'))
                          (scores db))).
  { intros s. rewrite !filter_In. intros [Hs Hsc]. split; [exact Hs|].
    now apply (in_scope_within _ _ _ _ Hw). }
  split.
  - apply count_distinct_incl. intros p Hp. apply in_map_iff in Hp.
    destruct Hp as (s & <- & Hs). apply in_map. now apply Hsub.
  - intros e He. destruct (ranking_maxima _ _ _ He) as [[(s & [Hs Hn] & _) _] _].
    exists s. split; [|exact Hn]. apply in_scope_qualifying. now apply Hsub.
Qed.
End LeaderboardMore.

(** ** The leaderboard and the statistics together *)

Lemma nth_error_entries (results : list Row.t) :
  forall idx k e,
    nth_error (map (fun '(idx, result) => leaderboard_entry idx result)
                   (enumerate idx results)) k = Some e ->
    exists r, nth_error results k = Some r
              /\ e = leaderboard_entry (idx + Z.of_nat k) r.
Proof.
  induction results as [|r l IH]; intros idx k e; simpl.
  - destruct k; discriminate.
  - destruct k as [|k]; simpl.
    + intros [= <-]. exists r. split; [reflexivity|]. f_equal. lia.
    + intros Hk. destruct (IH _ _ _ Hk) as (r' & Hr' & ->).
      exists r'. split; [exact Hr'|]. f_equal. lia.
Qed.

Lemma nth_error_of_firstn {A : Type} (l : list A) :
  forall n k x, nth_error (firstn n l) k = Some x -> nth_error l k = Some x.
Proof.
  induction l as [|a l IH]; intros [|n] [|k] x; simpl; try discriminate;
    try (intros H; exact H).
  apply IH.
Qed.

Lemma sorted_after {A : Type} (R : A -> A -> Prop) (l1 l2 : list A) (x : A) :
  StronglySorted R (l1 ++ x :: l2) -> Forall (R x) l2.
Proof.
  induction l1 as [|a l1 IH]; simpl; intros Hs; inversion Hs; subst; auto.
Qed.

Lemma is_max_same (l : list Z) (m m' : Z) :
  is_max m l -> is_max m' l -> m = m'.
Proof.
  intros [Hin Hub] [Hin' Hub']. apply Hub' in Hin. apply Hub in Hin'. lia.
Qed.

Lemma is_min_same (l : list Z) (m m' : Z) :
  is_min m l -> is_min m' l -> m = m'.
Proof.
  intros [Hin Hlb] [Hin' Hlb']. apply Hlb' in Hin. apply Hlb in Hin'. lia.
Qed.

Lemma is_min_snoc (l : list Z) (m x : Z) :
  is_min m l -> is_min (Z.min m x) (l ++ [x]).
Proof.
  intros [Hin Hlb]. split.
  - apply in_or_app.
    destruct (Z.min_spec m x) as [[_ E]|[_ E]]; rewrite E;
      [now left | right; now left].
  - intros y Hy. apply in_app_or in Hy. destruct Hy as [Hy|[<-|[]]].
    + apply Hlb in Hy. lia.
    + lia.
Qed.

Lemma all_time_rows (db : Db) (game_id : Z) (p : str) (s : Score.t) :
  In s (player_rows db game_id p)
  <-> In s (filter (in_scope game_id None) (scores db))
      /\ Score.player_name s = p.
Proof.
  rewrite In_player_rows, in_scope_qualifying. unfold qualifying. tauto.
Qed.

Lemma maximum_over_is_max (db : Db) (game_id : Z) (p : str)
    (f : Score.t -> Z) (m m' : Z) :
  maximum_over
    (fun s => In s (filter (in_scope game_id None) (scores db))
              /\ Score.player_name s = p) f m ->
  is_max m' (map f (player_rows db game_id p)) ->
  m' = m.
Proof.
  intros [(s & Hs & Hfs) Hub] [Hin Hub'].
  apply in_map_iff in Hin. destruct Hin as (s' & Hfs' & Hs').
  apply all_time_rows in Hs'. apply Hub in Hs'.
  assert (f s <= m') by (apply Hub', in_map; now apply all_time_rows).
  lia.
Qed.

Lemma better_players_listed (db : Db) (game_id : Z) (p : str) (best : Z) :
  exists others, distinct_players (better_events db game_id p best) others.
Proof.
  eexists. eapply distinct_players_ext;
    [|apply (nodup_distinct_players
               (filter (fun s => Score.score s >? best)
                  (filter (fun s => (Score.game_id s =? game_id)
                                    && negb (str_eqb (Score.player_name s) p))
                     (scores db))))].
  intros s. unfold better_events.
  rewrite !filter_In, andb_true_iff, negb_true_iff, Z.eqb_eq,
    str_eqb_false, Z.gtb_lt. tauto.
Qed.

Section BoardAndStats.
Context {R : Runtime}.

(** The all-time leaderboard and the statistics agree: for every entry
    shown, the statistics of its player are found, their best score is the
    score of the entry and their last played time is its timestamp. *)
Theorem all_time_entry_matches_stats (db : Db) (now : datetime) (limit : Z)
    (api_key : str) (game : Game.t) :
  get_game_by_api_key db api_key = Some game ->
  exists resp,
    get_leaderboard db now limit None api_key = Ok 200 resp
    /\ forall e, In e (LeaderboardResponse.entries resp) ->
         exists st,
           get_player_stats db (LeaderboardEntry.player_name e) api_key
           = Ok 200 st
           /\ PlayerStats.best_score st = LeaderboardEntry.score e
           /\ PlayerStats.last_played st = LeaderboardEntry.created_at e.
Proof.
  intros Hgame.
  rewrite (get_leaderboard_resolved _ _ _ _ _ _ Hgame). cbv zeta.
  eexists. split; [reflexivity|]. simpl. intros e He.
  destruct (ranking_maxima _ _ _ He) as [Hb Hl]. simpl in Hb, Hl.
  destruct (get_player_stats_found db (LeaderboardEntry.player_name e)
              api_key game Hgame) as (st & Hst & Hprops).
  { destruct Hb as [(s & Hs & _) _]. apply all_time_rows in Hs.
    intros Hnil. rewrite Hnil in Hs. destruct Hs. }
  cbv zeta in Hprops.
  destruct Hprops as (_ & _ & _ & Hbest & _ & _ & _ & Hlast & _).
  exists st. split; [exact Hst|]. split.
  - exact (maximum_over_is_max _ _ _ _ _ _ Hb Hbest).
  - exact (maximum_over_is_max _ _ _ _ _ _ Hl Hlast).
Qed.

(** The rank of the statistics never exceeds the position on the all-time
    leaderboard: for the entry in position [k] the statistics of its
    player give a rank between 1 and [k + 1], the rank of the entry; the
    first entry always has rank 1 in its statistics. *)
Theorem stats_rank_at_most_board_rank (db : Db) (now : datetime) (limit : Z)
    (api_key : str) (game : Game.t) :
  get_game_by_api_key db api_key = Some game ->
  exists resp,
    get_leaderboard db now limit None api_key = Ok 200 resp
    /\ forall k e, nth_error (LeaderboardResponse.entries resp) k = Some e ->
         exists st r,
           get_player_stats db (LeaderboardEntry.player_name e) api_key
           = Ok 200 st
           /\ PlayerStats.rank st = Some r
           /\ 1 <= r <= LeaderboardEntry.rank e
           /\ LeaderboardEntry.rank e = Z.of_nat k + 1.
Proof.
  intros Hgame.
  rewrite (get_leaderboard_resolved _ _ _ _ _ _ Hgame). cbv zeta.
  eexists. split; [reflexivity|]. simpl. intros k e Hk.
  set (rows := filter (in_scope (Game.id game) None) (scores db)) in *.
  assert (He : In e (ranking (Z.to_nat limit) rows))
    by (eapply nth_error_In; exact Hk).
  unfold ranking in Hk. apply nth_error_entries in Hk.
  destruct Hk as (g & Hg & ->). apply nth_error_of_firstn in Hg.
  destruct (nth_error_split _ _ Hg) as (l1 & l2 & HL & Hlen).
  destruct (ranking_maxima _ _ _ He) as [Hb _]. simpl in Hb.
  destruct (get_player_stats_found db (Row.player_name g) api_key game Hgame)
    as (st & Hst & Hprops).
  { destruct Hb as [(s & Hs & _) _]. apply all_time_rows in Hs.
    intros Hnil. rewrite Hnil in Hs. destruct Hs. }
  cbv zeta in Hprops.
  destruct Hprops as (_ & _ & _ & Hbest & _ & _ & _ & _ & Hrank).
  pose proof (maximum_over_is_max _ _ _ _ _ _ Hb Hbest) as Hbs.
  destruct (better_players_listed db (Game.id game) (Row.player_name g)
              (PlayerStats.best_score st)) as (others & Hothers).
  exists st, (len others + 1). split; [exact Hst|].
  split; [now apply Hrank|]. simpl.
  split; [|lia]. split; [unfold len; lia|].
  assert (Hincl : incl others (map Row.player_name l1)).
  { intros q Hq. destruct Hothers as [_ Hmem]. apply Hmem in Hq.
    destruct Hq as (s & (Hin & Hgid & Hne & Hlt) & Hname).
    assert (Hs : In s rows).
    { apply in_scope_qualifying. unfold qualifying. auto. }
    destruct (group_by_player_name_spec rows) as (_ & Hall & Hcov).
    specialize (Hcov s Hs). apply in_map_iff in Hcov.
    destruct Hcov as (gq & Hgq & Hin_gq).
    assert (Hle : Score.score s <= Row.best_score gq).
    { rewrite Forall_forall in Hall. destruct (Hall gq Hin_gq) as [[_ Hub] _].
      apply Hub, in_map. apply In_events_of. auto. }
    apply (Permutation_in _ (order_by_desc_perm _)) in Hin_gq.
    rewrite HL in Hin_gq. apply in_app_or in Hin_gq.
    destruct Hin_gq as [H1|[Heq|H2]].
    - rewrite <- Hname, <- Hgq. now apply in_map.
    - exfalso. subst gq. congruence.
    - exfalso. pose proof (order_by_desc_sorted (group_by_player_name rows))
        as Hsorted.
      rewrite HL in Hsorted. apply sorted_after in Hsorted.
      rewrite Forall_forall in Hsorted. specialize (Hsorted gq H2).
      unfold desc_best in Hsorted. simpl in Hbs. lia. }
  assert (Hcount : (length others <= length (map Row.player_name l1))%nat).
  { apply NoDup_incl_length; [apply Hothers | exact Hincl]. }
  rewrite length_map in Hcount. unfold len. lia.
Qed.

(** The rank of a player's statistics lies between 1 and the number of
    distinct players of the tenant, the [total_entries] of the all-time
    leaderboard. *)
Theorem stats_rank_within_total (db : Db) (now : datetime) (limit : Z)
    (p api_key : str) (game : Game.t) :
  get_game_by_api_key db api_key = Some game ->
  ~ no_events db (Game.id game) p ->
  exists st resp r,
    get_player_stats db p api_key = Ok 200 st
    /\ get_leaderboard db now limit None api_key = Ok 200 resp
    /\ PlayerStats.rank st = Some r
    /\ 1 <= r <= LeaderboardResponse.total_entries resp.
Proof.
  intros Hgame Hsome. rewrite <- player_rows_nil in Hsome.
  destruct (get_player_stats_found db p api_key game Hgame Hsome)
    as (st & Hst & Hprops). cbv zeta in Hprops.
  destruct Hprops as (_ & _ & _ & _ & _ & _ & _ & _ & Hrank).
  destruct (better_players_listed db (Game.id game) p
              (PlayerStats.best_score st)) as (others & Hothers).
  rewrite (get_leaderboard_resolved _ _ _ _ _ _ Hgame). cbv zeta.
  exists st. eexists. exists (len others + 1).
  split; [exact Hst|]. split; [reflexivity|]. split; [now apply Hrank|].
  simpl. split; [unfold len; lia|].
  set (rows := filter (in_scope (Game.id game) None) (scores db)).
  assert (Hle : (length (p :: others)
                 <= length (nodup str_eq_dec (map Score.player_name rows)))%nat).
  { destruct Hothers as [Hnd Hmem]. apply NoDup_incl_length.
    - constructor; [|exact Hnd]. intros Hp. apply Hmem in Hp.
      destruct Hp as (s & (_ & _ & Hne & _) & Hname). contradiction.
    - intros q [<-|Hq]; apply nodup_In, in_map_iff.
      + destruct (player_rows db (Game.id game) p) as [|s l] eqn:E;
          [contradiction|].
        assert (Hs : In s (player_rows db (Game.id game) p))
          by (rewrite E; now left).
        apply all_time_rows in Hs. exists s. tauto.
      + apply Hmem in Hq. destruct Hq as (s & (Hin & Hgid & _ & _) & Hname).
        exists s. split; [exact Hname|].
        apply in_scope_qualifying. unfold qualifying. auto. }
  unfold count_distinct, len. simpl length in Hle. lia.
Qed.

(** One more valid submission for a player who has statistics: the count
    grows by one, the best and the worst score and the first and the last
    played time are updated with the new score and time, nothing else being
    recomputed differently. *)
Theorem submission_updates_stats (db : Db) (now : datetime)
    (body score_data : ScoreCreate.t) (api_key : str) (game : Game.t)
    (st : PlayerStats.t) :
  get_game_by_api_key db api_key = Some game ->
  ScoreCreate.model_validate body = inr score_data ->
  get_player_stats db (ScoreCreate.player_name score_data) api_key
  = Ok 200 st ->
  let db' := snd (post_scores db now None body api_key) in
  exists st',
    get_player_stats db' (ScoreCreate.player_name score_data) api_key
    = Ok 200 st'
    /\ PlayerStats.total_scores st' = PlayerStats.total_scores st + 1
    /\ PlayerStats.best_score st'
       = Z.max (PlayerStats.best_score st) (ScoreCreate.score body)
    /\ PlayerStats.worst_score st'
       = Z.min (PlayerStats.worst_score st) (ScoreCreate.score body)
    /\ PlayerStats.first_played st'
       = Z.min (PlayerStats.first_played st) now
    /\ PlayerStats.last_played st'
       = Z.max (PlayerStats.last_played st) now.
Proof.
  intros Hgame Hvalid Hst db'.
  set (p := ScoreCreate.player_name score_data) in *.
  destruct (model_validate_inr _ _ Hvalid) as (_ & Hscore & _).
  destruct (submit_score_stored db now score_data api_key game Hgame)
    as (id & Hdb & _).
  assert (Hdb' : db' = snd (submit_score db now None score_data api_key)).
  { unfold db', post_scores. now rewrite Hvalid. }
  rewrite Hdb in Hdb'.
  assert (Hgame' : get_game_by_api_key db' api_key = Some game).
  { rewrite <- Hgame. apply get_game_same_games. now rewrite Hdb'. }
  assert (Hrows : player_rows db' (Game.id game) p
                  = player_rows db (Game.id game) p
                    ++ [{| Score.id := id;
                           Score.game_id := Game.id game;
                           Score.player_name := p;
                           Score.score := ScoreCreate.score score_data;
                           Score.game_metadata :=
                             ScoreCreate.game_metadata score_data;
                           Score.created_at := now |}]).
  { unfold player_rows. rewrite Hdb'. simpl. rewrite filter_app. simpl.
    now rewrite Z.eqb_refl, str_eqb_refl. }
  assert (Hsome : player_rows db (Game.id game) p <> []).
  { intros Hnil.
    rewrite (get_player_stats_missing db p api_key game Hgame Hnil) in Hst.
    discriminate. }
  destruct (get_player_stats_found db p api_key game Hgame Hsome)
    as (st0 & Hst0 & Hold).
  rewrite Hst in Hst0. injection Hst0 as <-. cbv zeta in Hold.
  destruct Hold as (_ & _ & Htot & Hbest & Hworst & _ & Hfirst & Hlast & _).
  destruct (get_player_stats_found db' p api_key game Hgame')
    as (st' & Hst' & Hnew).
  { rewrite Hrows. intros H. now apply app_eq_nil in H as [_ H]. }
  cbv zeta in Hnew. rewrite Hrows in Hnew.
  destruct Hnew as (_ & _ & Htot' & Hbest' & Hworst' & _ & Hfirst' & Hlast'
                    & _).
  rewrite !map_app in *. simpl in Hbest', Hworst', Hfirst', Hlast'.
  exists st'. split; [exact Hst'|]. rewrite <- Hscore.
  split; [|split; [|split; [|split]]].
  - rewrite Htot', Htot. unfold len. rewrite length_app. simpl. lia.
  - exact (is_max_same _ _ _ Hbest' (is_max_snoc _ _ _ Hbest)).
  - exact (is_min_same _ _ _ Hworst' (is_min_snoc _ _ _ Hworst)).
  - exact (is_min_same _ _ _ Hfirst' (is_min_snoc _ _ _ Hfirst)).
  - exact (is_max_same _ _ _ Hlast' (is_max_snoc _ _ _ Hlast)).
Qed.
End BoardAndStats.

(** ** A new game *)

Lemma next_id_above (ids : list Z) (x : Z) : In x ids -> x < next_id ids.
Proof.
  intros Hin. unfold next_id.
  destruct (py_max_is_max ids 0) as [_ Hub].
  specialize (Hub x (or_intror Hin)). lia.
Qed.

Section NewGame.
Context {R : Runtime}.

(** In a database where every event belongs to a stored game, a game
    created under a fresh key starts empty: with the key returned, the
    leaderboard of every period and limit has no entry and a total of 0,
    and the statistics of every player are answered 404. *)
Theorem new_game_starts_empty (db : Db) (now : datetime) (token : str)
    (game : GameCreate.t) :
  events_owned db ->
  ~ In (hash_api_key (generate_api_key token))
       (map Game.api_key_hash (games db)) ->
  exists resp db',
    create_game db now token None game = (Ok 201 resp, db')
    /\ (forall now' limit period,
          get_leaderboard db' now' limit period (GameResponse.api_key resp)
          = Ok 200 {| LeaderboardResponse.game_id := GameResponse.id resp;
                      LeaderboardResponse.game_name := GameResponse.name resp;
                      LeaderboardResponse.entries := [];
                      LeaderboardResponse.total_entries := 0;
                      LeaderboardResponse.period := period |})
    /\ (forall p,
          status_of (get_player_stats db' p (GameResponse.api_key resp))
          = 404).
Proof.
  intros Hown Hfresh. unfold create_game, commit_game.
  destruct (existsb _ (games db)) eqn:E.
  { exfalso. apply Hfresh. apply existsb_exists in E.
    destruct E as (g & Hg & Heq). apply str_eqb_true in Heq.
    rewrite <- Heq. now apply in_map. }
  do 2 eexists. split; [reflexivity|]. simpl.
  set (db_game := {| Game.id := next_id (map Game.id (games db));
                     Game.name := GameCreate.name game;
                     Game.description := GameCreate.description game;
                     Game.api_key_hash :=
                       hash_api_key (generate_api_key token);
                     Game.created_at := now |}).
  set (db' := {| games := games db ++ [db_game]; scores := scores db |}).
  assert (Hgame : get_game_by_api_key db' (generate_api_key token)
                  = Some db_game).
  { unfold get_game_by_api_key. simpl. rewrite first_verified_app.
    assert (Hnone : first_verified (generate_api_key token) (games db) = None).
    { apply first_verified_none. rewrite Forall_forall. intros g Hg Heq.
      apply Hfresh. rewrite <- Heq. now apply in_map. }
    rewrite Hnone. simpl. unfold verify_api_key. now rewrite str_eqb_refl. }
  assert (Hnone : forall s, In s (scores db) ->
                    Score.game_id s <> Game.id db_game).
  { intros s Hs Heq. destruct (Hown s Hs) as (g & Hg & Hid).
    assert (Game.id g < next_id (map Game.id (games db)))
      by (apply next_id_above; now apply in_map).
    simpl in Heq. lia. }
  split.
  - intros now' limit period.
    rewrite (get_leaderboard_resolved _ _ _ _ _ _ Hgame). cbv zeta.
    assert (Hrows : filter (in_scope (Game.id db_game)
                                     (get_date_filter now' period))
                           (scores db') = []).
    { destruct (filter _ (scores db')) as [|s l] eqn:Ef; [reflexivity|].
      assert (Hs : In s (filter (in_scope (Game.id db_game)
                                          (get_date_filter now' period))
                                (scores db'))) by (rewrite Ef; now left).
      apply in_scope_qualifying in Hs. destruct Hs as (Hs & Hid & _).
      now destruct (Hnone s Hs). }
    rewrite Hrows. unfold ranking. rewrite firstn_nil. reflexivity.
  - intros p.
    rewrite (get_player_stats_missing db' p _ db_game Hgame); [reflexivity|].
    apply player_rows_nil. intros s Hs Hid. now destruct (Hnone s Hs).
Qed.

(** Statistics that are answered are consistent in themselves: they are
    those of the requested player and the resolved game, count at least one
    score, have their worst score at most their best, their first played
    time at most their last, and a rank of at least 1. *)
Theorem stats_are_consistent (db : Db) (p api_key : str) (game : Game.t)
    (st : PlayerStats.t) :
  get_game_by_api_key db api_key = Some game ->
  get_player_stats db p api_key = Ok 200 st ->
  PlayerStats.player_name st = p
  /\ PlayerStats.game_id st = Game.id game
  /\ 1 <= PlayerStats.total_scores st
  /\ PlayerStats.worst_score st <= PlayerStats.best_score st
  /\ PlayerStats.first_played st <= PlayerStats.last_played st
  /\ exists r, PlayerStats.rank st = Some r /\ 1 <= r.
Proof.
  intros Hgame Hst.
  assert (Hsome : player_rows db (Game.id game) p <> []).
  { intros Hnil.
    rewrite (get_player_stats_missing db p api_key game Hgame Hnil) in Hst.
    discriminate. }
  destruct (get_player_stats_found db p api_key game Hgame Hsome)
    as (st0 & Hst0 & Hprops).
  rewrite Hst in Hst0. injection Hst0 as <-. cbv zeta in Hprops.
  destruct Hprops as (Hp & Hg & Htot & Hbest & Hworst & _ & Hfirst & Hlast
                      & Hrank).
  split; [exact Hp|]. split; [exact Hg|]. split; [|split; [|split]].
  - rewrite Htot. unfold len.
    destruct (player_rows db (Game.id game) p); [contradiction|]. simpl. lia.
  - destruct Hworst as [Hin _]. destruct Hbest as [_ Hub]. now apply Hub.
  - destruct Hfirst as [Hin _]. destruct Hlast as [_ Hub]. now apply Hub.
  - destruct (better_players_listed db (Game.id game) p
                (PlayerStats.best_score st)) as (others & Hothers).
    exists (len others + 1). split; [now apply Hrank | unfold len; lia].
Qed.
End NewGame.

(** ** The answers of the statistics *)

Section StatsAnswers.
Context {R : Runtime}.

(** The statistics are answered 401, 404 or 200 and nothing else: 401
    exactly when the key resolves to no game, 404 exactly when it resolves
    and the player has no event; the mean is therefore never taken over an
    empty list. *)
Theorem stats_answer_is_401_404_or_200 (db : Db) (p api_key : str) :
  (status_of (get_player_stats db p api_key) = 401
   <-> get_game_by_api_key db api_key = None)
  /\ (status_of (get_player_stats db p api_key) = 404
      <-> exists game, get_game_by_api_key db api_key = Some game
                       /\ no_events db (Game.id game) p)
  /\ (status_of (get_player_stats db p api_key) = 200
      <-> exists game, get_game_by_api_key db api_key = Some game
                       /\ ~ no_events db (Game.id game) p)
  /\ In (status_of (get_player_stats db p api_key)) [200; 401; 404].
Proof.
  destruct (get_game_by_api_key db api_key) as [game|] eqn:Hgame.
  - destruct (player_rows db (Game.id game) p) as [|s l] eqn:E.
    + rewrite (get_player_stats_missing db p api_key game Hgame E).
      apply player_rows_nil in E. simpl.
      split; [split; [lia | discriminate]|].
      split; [split; [eauto | reflexivity]|].
      split; [|tauto]. split; [lia|].
      intros (g & [= <-] & Hn). contradiction.
    + destruct (get_player_stats_found db p api_key game Hgame)
        as (st & Hst & _); [rewrite E; discriminate|].
      assert (Hsome : ~ no_events db (Game.id game) p).
      { rewrite <- player_rows_nil, E. discriminate. }
      rewrite Hst. simpl.
      split; [split; [lia | discriminate]|].
      split; [split; [lia|]|].
      { intros (g & [= <-] & Hn). contradiction. }
      split; [|tauto]. split; [eauto | reflexivity].
  - unfold get_player_stats. rewrite Hgame. simpl.
    split; [split; reflexivity|].
    split; [split; [lia | intros (g & Hg & _); discriminate]|].
    split; [|tauto]. split; [lia | intros (g & Hg & _); discriminate].
Qed.
End StatsAnswers.

(** ** The further properties on the scenario *)

Section ScenarioMore.
#[local] Existing Instance demo_runtime.

Lemma demo_events_owned : events_owned Demo.db.
Proof.
  intros s Hs. simpl in Hs.
  repeat (destruct Hs as [<-|Hs];
          [(exists Demo.T; split; [now left | reflexivity])
           || (exists Demo.U; split; [right; now left | reflexivity])|]).
  destruct Hs.
Defined.

Lemma demo_events_well_formed : Forall well_formed_event (scores Demo.db).
Proof.
  repeat (constructor;
          [unfold well_formed_event; simpl;
           repeat split; try discriminate; try reflexivity; lia|]).
  constructor.
Defined.

Lemma demo_fresh_key :
  ~ In (hash_api_key (generate_api_key (pystr "V")))
       (map Game.api_key_hash (games Demo.db)).
Proof. simpl. intros [H|[H|[]]]; discriminate. Defined.

Lemma demo_taken_key :
  In (hash_api_key (generate_api_key (pystr "T")))
     (map Game.api_key_hash (games Demo.db)).
Proof. simpl. now left. Defined.

Lemma validated_models_are_fixed_points_witness :
  ScoreCreate.model_validate
    {| ScoreCreate.player_name := pystr " Dana ";
       ScoreCreate.score := 5;
       ScoreCreate.game_metadata := None |}
  = inr {| ScoreCreate.player_name := pystr "Dana";
           ScoreCreate.score := 5;
           ScoreCreate.game_metadata := None |}
  /\ ScoreCreate.model_validate
       {| ScoreCreate.player_name := pystr "Dana";
          ScoreCreate.score := 5;
          ScoreCreate.game_metadata := None |}
     = inr {| ScoreCreate.player_name := pystr "Dana";
              ScoreCreate.score := 5;
              ScoreCreate.game_metadata := None |}.
Proof.
  split; [reflexivity|].
  destruct validated_models_are_fixed_points as [Hscore _].
  apply (Hscore {| ScoreCreate.player_name := pystr " Dana ";
                   ScoreCreate.score := 5;
                   ScoreCreate.game_metadata := None |}).
  reflexivity.
Defined.

Lemma hash_api_key_is_hex_of_digest_witness :
  Forall (fun x => (x < 256)%N)
         (pbkdf2_hmac_sha256 (encode_utf8 (pystr "game_T")) salt 100000)
  /\ len (hash_api_key (pystr "game_T")) = 14
  /\ verify_api_key (pystr "game_T") (hash_api_key (pystr "game_T")) = true.
Proof.
  assert (Hb : Forall (fun x => (x < 256)%N)
                 (pbkdf2_hmac_sha256 (encode_utf8 (pystr "game_T")) salt
                                     100000)).
  { simpl. repeat (constructor; [reflexivity|]). constructor. }
  destruct (hash_api_key_is_hex_of_digest (pystr "game_T") (pystr "game_T")
              Hb Hb) as (Hlen & _ & Hverify).
  split; [exact Hb|]. split; [rewrite Hlen; reflexivity|].
  now apply Hverify.
Defined.

Lemma registration_keeps_existing_keys_witness :
  get_game_by_api_key Demo.db (pystr "game_T") = Some Demo.T
  /\ get_game_by_api_key
       (snd (post_games Demo.db 70 (pystr "V") None
               {| GameCreate.name := pystr " Third Game ";
                  GameCreate.description := None |}))
       (pystr "game_T")
     = Some Demo.T.
Proof.
  split; [reflexivity|].
  apply (registration_keeps_existing_keys Demo.db 70 (pystr "V") None
           {| GameCreate.name := pystr " Third Game ";
              GameCreate.description := None |}
           (pystr "game_T") Demo.T demo_key_resolves).
Defined.

Lemma created_game_is_current_game_witness :
  ~ In (hash_api_key (generate_api_key (pystr "V")))
       (map Game.api_key_hash (games Demo.db))
  /\ exists resp db',
       create_game Demo.db 70 (pystr "V") None
         {| GameCreate.name := pystr "Third Game";
            GameCreate.description := None |}
       = (Ok 201 resp, db')
       /\ status_of (get_current_game db' (GameResponse.api_key resp)) = 200.
Proof.
  split; [exact demo_fresh_key|].
  destruct (created_game_is_current_game Demo.db 70 (pystr "V")
              {| GameCreate.name := pystr "Third Game";
                 GameCreate.description := None |} demo_fresh_key)
    as (resp & db' & Hc & _ & _ & _ & _ & Hme).
  exists resp, db'. split; [exact Hc|]. now rewrite Hme.
Defined.

Lemma duplicate_key_is_refused_witness :
  In (hash_api_key (generate_api_key (pystr "T")))
     (map Game.api_key_hash (games Demo.db))
  /\ status_of (fst (create_game Demo.db 70 (pystr "T") None
                       {| GameCreate.name := pystr "Copy";
                          GameCreate.description := None |})) = 500
  /\ snd (create_game Demo.db 70 (pystr "T") None
            {| GameCreate.name := pystr "Copy";
               GameCreate.description := None |}) = Demo.db.
Proof.
  split; [exact demo_taken_key|].
  destruct (duplicate_key_is_refused Demo.db 70 (pystr "T") None
              {| GameCreate.name := pystr "Copy";
                 GameCreate.description := None |} demo_taken_key)
    as (Hst & Hdb & _).
  split; assumption.
Defined.

Lemma submission_is_all_or_nothing_witness :
  status_of (fst (post_scores Demo.db 70 None
                    {| ScoreCreate.player_name := pystr "Eve!";
                       ScoreCreate.score := 5;
                       ScoreCreate.game_metadata := None |}
                    (pystr "game_T"))) <> 201
  /\ snd (post_scores Demo.db 70 None
            {| ScoreCreate.player_name := pystr "Eve!";
               ScoreCreate.score := 5;
               ScoreCreate.game_metadata := None |}
            (pystr "game_T")) = Demo.db.
Proof.
  assert (Hst : status_of (fst (post_scores Demo.db 70 None
                    {| ScoreCreate.player_name := pystr "Eve!";
                       ScoreCreate.score := 5;
                       ScoreCreate.game_metadata := None |}
                    (pystr "game_T"))) <> 201) by (vm_compute; discriminate).
  split; [exact Hst|].
  destruct (submission_is_all_or_nothing Demo.db 70 None
              {| ScoreCreate.player_name := pystr "Eve!";
                 ScoreCreate.score := 5;
                 ScoreCreate.game_metadata := None |}
              (pystr "game_T")) as (_ & Hkeep & _).
  now apply Hkeep.
Defined.

Lemma writes_keep_ledger_invariants_witness :
  Forall well_formed_event (scores Demo.db)
  /\ events_owned Demo.db
  /\ Forall well_formed_event
       (scores (snd (post_scores Demo.db 70 None
                       {| ScoreCreate.player_name := pystr " Dana ";
                          ScoreCreate.score := 5;
                          ScoreCreate.game_metadata := None |}
                       (pystr "game_T"))))
  /\ events_owned
       (snd (post_scores Demo.db 70 None
               {| ScoreCreate.player_name := pystr " Dana ";
                  ScoreCreate.score := 5;
                  ScoreCreate.game_metadata := None |}
               (pystr "game_T"))).
Proof.
  split; [exact demo_events_well_formed|]. split; [exact demo_events_owned|].
  destruct (writes_keep_ledger_invariants Demo.db demo_events_well_formed
              demo_events_owned) as [Hpost _].
  destruct (Hpost 70 None
              {| ScoreCreate.player_name := pystr " Dana ";
                 ScoreCreate.score := 5;
                 ScoreCreate.game_metadata := None |}
              (pystr "game_T")) as (Hwf & Hown & _).
  split; assumption.
Defined.

Lemma entries_are_limit_or_total_witness :
  get_game_by_api_key Demo.db (pystr "game_T") = Some Demo.T
  /\ 0 <= 2
  /\ exists resp,
       get_leaderboard Demo.db 100 2 None (pystr "game_T") = Ok 200 resp
       /\ len (LeaderboardResponse.entries resp) = 2
       /\ LeaderboardResponse.total_entries resp = 3.
Proof.
  split; [reflexivity|]. split; [lia|].
  destruct (entries_are_limit_or_total Demo.db 100 2 None (pystr "game_T")
              Demo.T demo_key_resolves ltac:(lia)) as (resp & Hresp & Hlen).
  exists resp. split; [exact Hresp|].
  assert (Htot : LeaderboardResponse.total_entries resp = 3)
    by (injection Hresp as <-; reflexivity).
  split; [rewrite Hlen, Htot; reflexivity | exact Htot].
Defined.

Lemma smaller_limit_is_a_prefix_witness :
  get_game_by_api_key Demo.db (pystr "game_T") = Some Demo.T
  /\ 0 <= 1 <= 3
  /\ exists resp resp',
       get_leaderboard Demo.db 100 1 None (pystr "game_T") = Ok 200 resp
       /\ get_leaderboard Demo.db 100 3 None (pystr "game_T") = Ok 200 resp'
       /\ map LeaderboardEntry.score (LeaderboardResponse.entries resp)
          = firstn 1 (map LeaderboardEntry.score
                          (LeaderboardResponse.entries resp')).
Proof.
  split; [reflexivity|]. split; [lia|].
  destruct (smaller_limit_is_a_prefix Demo.db 100 1 3 None (pystr "game_T")
              Demo.T demo_key_resolves ltac:(lia))
    as (resp & resp' & H1 & H3 & Hpre & _).
  exists resp, resp'. auto.
Defined.

Lemma wider_period_counts_no_fewer_witness :
  get_game_by_api_key Demo.db (pystr "game_T") = Some Demo.T
  /\ exists resp resp',
       get_leaderboard Demo.db 35 10 (Some (pystr "today")) (pystr "game_T")
       = Ok 200 resp
       /\ get_leaderboard Demo.db 35 10 (Some (pystr "week")) (pystr "game_T")
          = Ok 200 resp'
       /\ LeaderboardResponse.total_entries resp
          <= LeaderboardResponse.total_entries resp'.
Proof.
  split; [reflexivity|].
  destruct (wider_period_counts_no_fewer Demo.db 35 10
              (Some (pystr "today")) (Some (pystr "week")) (pystr "game_T")
              Demo.T demo_key_resolves (or_introl eq_refl))
    as (resp & resp' & H1 & H2 & Hle & _).
  exists resp, resp'. auto.
Defined.

Lemma all_time_entry_matches_stats_witness :
  get_game_by_api_key Demo.db (pystr "game_T") = Some Demo.T
  /\ exists resp,
       get_leaderboard Demo.db 100 10 None (pystr "game_T") = Ok 200 resp
       /\ LeaderboardResponse.entries resp <> []
       /\ forall e, In e (LeaderboardResponse.entries resp) ->
            exists st,
              get_player_stats Demo.db (LeaderboardEntry.player_name e)
                               (pystr "game_T") = Ok 200 st
              /\ PlayerStats.best_score st = LeaderboardEntry.score e.
Proof.
  split; [reflexivity|].
  destruct (all_time_entry_matches_stats Demo.db 100 10 (pystr "game_T")
              Demo.T demo_key_resolves) as (resp & Hresp & Hall).
  exists resp. split; [exact Hresp|]. split.
  - injection Hresp as <-. discriminate.
  - intros e He. destruct (Hall e He) as (st & Hst & Hb & _). eauto.
Defined.

Lemma stats_rank_at_most_board_rank_witness :
  get_game_by_api_key Demo.db (pystr "game_T") = Some Demo.T
  /\ exists resp e st r,
       get_leaderboard Demo.db 100 10 None (pystr "game_T") = Ok 200 resp
       /\ nth_error (LeaderboardResponse.entries resp) 1 = Some e
       /\ get_player_stats Demo.db (LeaderboardEntry.player_name e)
                           (pystr "game_T") = Ok 200 st
       /\ PlayerStats.rank st = Some r
       /\ 1 <= r <= 2.
Proof.
  split; [reflexivity|].
  destruct (stats_rank_at_most_board_rank Demo.db 100 10 (pystr "game_T")
              Demo.T demo_key_resolves) as (resp & Hresp & Hall).
  assert (He : exists e, nth_error (LeaderboardResponse.entries resp) 1
                         = Some e).
  { injection Hresp as <-. eexists. reflexivity. }
  destruct He as (e & He).
  destruct (Hall 1%nat e He) as (st & r & Hst & Hr & Hle & Hrank).
  exists resp, e, st, r. repeat split; try assumption; lia.
Defined.

Lemma stats_rank_within_total_witness :
  get_game_by_api_key Demo.db (pystr "game_T") = Some Demo.T
  /\ ~ no_events Demo.db (Game.id Demo.T) (pystr "Alice")
  /\ exists st resp r,
       get_player_stats Demo.db (pystr "Alice") (pystr "game_T") = Ok 200 st
       /\ get_leaderboard Demo.db 100 10 None (pystr "game_T") = Ok 200 resp
       /\ PlayerStats.rank st = Some r
       /\ 1 <= r <= LeaderboardResponse.total_entries resp.
Proof.
  split; [reflexivity|]. split; [exact demo_has_alice|].
  exact (stats_rank_within_total Demo.db 100 10 (pystr "Alice")
           (pystr "game_T") Demo.T demo_key_resolves demo_has_alice).
Defined.

Lemma submission_updates_stats_witness :
  let body := {| ScoreCreate.player_name := pystr " Alice";
                 ScoreCreate.score := 1300;
                 ScoreCreate.game_metadata := None |} in
  get_game_by_api_key Demo.db (pystr "game_T") = Some Demo.T
  /\ status_of (get_player_stats Demo.db (pystr "Alice") (pystr "game_T"))
     = 200
  /\ exists st',
       get_player_stats (snd (post_scores Demo.db 70 None body
                                          (pystr "game_T")))
                        (pystr "Alice") (pystr "game_T") = Ok 200 st'
       /\ PlayerStats.total_scores st' = 3
       /\ PlayerStats.best_score st' = 1300
       /\ PlayerStats.last_played st' = 70.
Proof.
  intros body. split; [reflexivity|]. split; [reflexivity|].
  destruct (submission_updates_stats Demo.db 70 body
              {| ScoreCreate.player_name := pystr "Alice";
                 ScoreCreate.score := 1300;
                 ScoreCreate.game_metadata := None |}
              (pystr "game_T") Demo.T _ demo_key_resolves eq_refl
              scenario_stats)
    as (st' & Hst' & Htot & Hbest & _ & _ & Hlast).
  exists st'. auto.
Defined.

Lemma new_game_starts_empty_witness :
  events_owned Demo.db
  /\ ~ In (hash_api_key (generate_api_key (pystr "V")))
          (map Game.api_key_hash (games Demo.db))
  /\ exists resp db',
       create_game Demo.db 70 (pystr "V") None
         {| GameCreate.name := pystr "Third Game";
            GameCreate.description := None |}
       = (Ok 201 resp, db')
       /\ status_of (get_player_stats db' (pystr "Alice")
                                      (GameResponse.api_key resp)) = 404.
Proof.
  split; [exact demo_events_owned|]. split; [exact demo_fresh_key|].
  destruct (new_game_starts_empty Demo.db 70 (pystr "V")
              {| GameCreate.name := pystr "Third Game";
                 GameCreate.description := None |}
              demo_events_owned demo_fresh_key)
    as (resp & db' & Hc & _ & Hstats).
  exists resp, db'. auto.
Defined.

Lemma stats_are_consistent_witness :
  get_game_by_api_key Demo.db (pystr "game_T") = Some Demo.T
  /\ exists st,
       get_player_stats Demo.db (pystr "Alice") (pystr "game_T") = Ok 200 st
       /\ PlayerStats.worst_score st <= PlayerStats.best_score st
       /\ PlayerStats.first_played st <= PlayerStats.last_played st.
Proof.
  split; [reflexivity|]. eexists. split; [exact scenario_stats|].
  destruct (stats_are_consistent Demo.db (pystr "Alice") (pystr "game_T")
              Demo.T _ demo_key_resolves scenario_stats)
    as (_ & _ & _ & Hw & Hf & _).
  auto.
Defined.
End ScenarioMore.
